(** * Satellite audit, reputation, settlement and repair queue

    A shallow embedding of the satellite code that the audit worker, the
    reputation updater, the order settlement table and the repair queue
    are made of:

    - [Audit]: [Verifier.Verify], [Verifier.Reverify], [auditShares],
      [removeFailedPieces], [checkIfSegmentAltered], [GetRandomStripe]
      (package audit);
    - [Overlay]: [overlaycache.UpdateStats], [UpdateUptime],
      [UpdateAuditSuccess], [Create], [updateRatioVars], [checkRatioVars]
      (package satellitedb);
    - [Bandwidth]: [bandwidthagreement.SaveOrder], [GetTotals];
    - [RepairQueue]: [repairQueue.Enqueue], [Dequeue].

    Go maps are finite maps ([gmap]); a [range] over a map visits the
    entries in an order Go leaves open, so every statement about a list
    built by such a loop is a statement about membership.  [int], [int32]
    and [int64] values are integers of [Z]; where the code does arithmetic
    on them the 64-bit wrap-around is written out.  Collaborators that are
    other services or third-party libraries (metainfo, orders, containment,
    the piece store client, infectious, math/rand, the SQL engine) appear
    as explicit answers in a record or as section variables. *)

From Stdlib Require Import ZArith List Bool Floats.
From stdpp Require Import base option list gmap strings.

Open Scope Z_scope.

(** ** Machine integers *)

Module Int64.

Definition min_int64 : Z := - 2 ^ 63.
Definition max_int64 : Z := 2 ^ 63 - 1.

(** Two's complement wrap-around of a 64-bit signed integer. *)
Definition wrap (z : Z) : Z := (z + 2 ^ 63) mod 2 ^ 64 - 2 ^ 63.

Definition in_range (z : Z) : Prop := min_int64 <= z <= max_int64.

(** [x++] on an [int64]. *)
Definition incr (z : Z) : Z := wrap (z + 1).

End Int64.

(** ** Identifiers and byte strings *)

(** A [storj.NodeID] is a 32-byte array; it is used as a map key and
  compared with [==] only, so it is its value as a 256-bit number. *)
Definition NodeID : Type := Z.

(** [storj.PieceID], same representation. *)
Definition PieceID : Type := Z.

Definition bytes : Type := list Byte.byte.

#[global] Instance byte_eq_dec : EqDecision Byte.byte := Byte.byte_eq_dec.

(** [bytes.Equal]: a nil slice and an empty slice are equal. *)
Definition bytes_Equal (a b : bytes) : bool := bool_decide (a = b).

(** ** Errors *)

(** The status codes of [rpcstatus] that the audit code tests for, and a
  few of the others. *)
Inductive StatusCode : Type :=
| Unknown | OK | Canceled | InvalidArgument | DeadlineExceeded | NotFound
| PermissionDenied | ResourceExhausted | Internal | Unavailable.

#[global] Instance StatusCode_eq_dec : EqDecision StatusCode.
Proof. solve_decision. Defined.

(** What [Verify] and [Reverify] observe of the error a share download
  ended with.  The error value itself is opaque to them; they ask three
  questions: is it of class [rpc.Error] (it came from dialing), is
  [context.DeadlineExceeded] in its chain, and does [errs2.IsRPC] find
  a given status code in its chain. *)
Record ShareError : Type := mkShareError {
rpc_Error_Has : bool;
Is_context_DeadlineExceeded : bool;
IsRPC : StatusCode -> bool
}.

(** Errors that the audit functions return or pass through. *)
Inductive error : Type :=
| ErrSegmentDeleted (path : string)
| ErrNotEnoughShares (got required : Z)
| ErrKeyNotFound
| ErrContainedNotFound
| ErrNodeDisqualified
| ErrNodeOffline
| ErrDownload (e : ShareError)
| ErrExternal (what : string).

Inductive result (A : Type) : Type :=
| Ok (a : A)
| Err (e : error).
Arguments Ok {A} a.
Arguments Err {A} e.

(** A call either returns or panics (integer division by zero, an
  argument that [rand.Int63n] refuses). *)
Inductive outcome (A : Type) : Type :=
| Returns (a : A)
| Panics.
Arguments Returns {A} a.
Arguments Panics {A}.

(** [storage.ErrKeyNotFound.Has(err)] *)
Definition ErrKeyNotFound_Has (e : error) : bool :=
match e with ErrKeyNotFound => true | _ => false end.

Definition ErrContainedNotFound_Has (e : error) : bool :=
match e with ErrContainedNotFound => true | _ => false end.

Definition ErrNodeDisqualified_Has (e : error) : bool :=
match e with ErrNodeDisqualified => true | _ => false end.

Definition ErrNodeOffline_Has (e : error) : bool :=
match e with ErrNodeOffline => true | _ => false end.

(** [errs.Combine(err, e)]: nil errors are dropped; what is left is the
  list of the errors that were combined. *)
Definition errs_Combine (acc : list error) (e : option error) : list error :=
match e with
| None => acc
| Some e => acc ++ [e]
end.

(** ** The audit data model *)

Module Audit.

Record RemotePiece : Type := mkRemotePiece {
  PieceNum : Z;
  NodeId : NodeID
}.

Record RedundancyScheme : Type := mkRedundancyScheme {
  MinReq : Z;
  Total : Z;
  RepairThreshold : Z;
  SuccessThreshold : Z;
  ErasureShareSize : Z
}.

(** A remote [pb.Pointer]: the fields the audit reads. *)
Record Pointer : Type := mkPointer {
  Redundancy : RedundancyScheme;
  RootPieceId : PieceID;
  RemotePieces : list RemotePiece;
  SegmentSize : Z;
  CreationDate : Z
}.

(** [pb.AddressedOrderLimit]: the audit reads the storage node of the
    limit, the rest goes to the piece store client unread. *)
Record AddressedOrderLimit : Type := mkLimit {
  StorageNodeId : NodeID;
  SerialNumber : Z
}.

Record Share : Type := mkShare {
  Error : option ShareError;
  Share_PieceNum : Z;
  Share_NodeID : NodeID;
  Data : bytes
}.

(** The zero [Share], what a lookup of a missing key yields. *)
Definition zero_Share : Share := mkShare None 0 0 [].

Record PendingAudit : Type := mkPendingAudit {
  PA_NodeID : NodeID;
  PA_PieceID : PieceID;
  StripeIndex : Z;
  ShareSize : Z;
  ExpectedShareHash : bytes;
  PA_Path : string
}.

Record Report : Type := mkReport {
  Successes : list NodeID;
  Fails : list NodeID;
  Offlines : list NodeID;
  PendingAudits : list PendingAudit
}.

(** [infectious.Share] *)
Record IShare : Type := mkIShare {
  Number : Z;
  IData : bytes
}.

(** *** The classification loop of [Verify] (lines 176-217) *)

Record Buckets : Type := mkBuckets {
  offlineNodes : list NodeID;
  failedNodes : list NodeID;
  containedNodes : gmap Z NodeID;
  sharesToAudit : gmap Z Share
}.

Definition add_offline (n : NodeID) (b : Buckets) : Buckets :=
  mkBuckets (offlineNodes b ++ [n]) (failedNodes b) (containedNodes b) (sharesToAudit b).

Definition add_failed (n : NodeID) (b : Buckets) : Buckets :=
  mkBuckets (offlineNodes b) (failedNodes b ++ [n]) (containedNodes b) (sharesToAudit b).

Definition add_contained (pieceNum : Z) (n : NodeID) (b : Buckets) : Buckets :=
  mkBuckets (offlineNodes b) (failedNodes b) (<[pieceNum := n]> (containedNodes b)) (sharesToAudit b).

Definition add_candidate (pieceNum : Z) (s : Share) (b : Buckets) : Buckets :=
  mkBuckets (offlineNodes b) (failedNodes b) (containedNodes b) (<[pieceNum := s]> (sharesToAudit b)).

(** The part of the loop body after the [rpc.Error] block: it is reached
    by an error that is not of class [rpc.Error], and also, the block
    ending without [continue], by one that is and was just contained. *)
Definition classify_tail (pieceNum : Z) (share : Share) (e : ShareError) (b : Buckets) : Buckets :=
  if IsRPC e NotFound then add_failed (Share_NodeID share) b
  else if IsRPC e DeadlineExceeded then add_contained pieceNum (Share_NodeID share) b
  else add_contained pieceNum (Share_NodeID share) b.

(** One iteration of [for pieceNum, share := range shares]. *)
Definition classify_step (b : Buckets) (kv : Z * Share) : Buckets :=
  let '(pieceNum, share) := kv in
  match Error share with
  | None => add_candidate pieceNum share b
  | Some e =>
      if rpc_Error_Has e then
        if Is_context_DeadlineExceeded e then add_offline (Share_NodeID share) b
        else if IsRPC e Unknown then add_offline (Share_NodeID share) b
        else classify_tail pieceNum share e (add_contained pieceNum (Share_NodeID share) b)
      else classify_tail pieceNum share e b
  end.

Definition classify (b : Buckets) (shares : gmap Z Share) : Buckets :=
  fold_left classify_step (map_to_list shares) b.

(** The three kinds of outcome of a failed download, as conditions on
    the error. *)
Definition goes_offline (e : ShareError) : bool :=
  rpc_Error_Has e && (Is_context_DeadlineExceeded e || IsRPC e Unknown).

Definition goes_failed (e : ShareError) : bool :=
  negb (goes_offline e) && IsRPC e NotFound.

Definition goes_contained (e : ShareError) : bool :=
  negb (goes_offline e) && (rpc_Error_Has e || negb (IsRPC e NotFound)).

(** *** Collaborators *)

(** The libraries the verifier computes with: the erasure code
    (github.com/vivint/infectious), [pkcrypto.SHA256Hash], and [eestream]'s
    redundancy strategy, whose source is not part of this development.
    They are deterministic functions; nothing else is assumed of them. *)
Class Libraries : Type := mkLibraries {
  FEC : Type;
  NewFEC : Z -> Z -> result FEC;
  FEC_Required : FEC -> Z;
  Correct : FEC -> list IShare -> result (list IShare);
  Rebuild : FEC -> list IShare -> result (list IShare);
  EncodeSingle : FEC -> bytes -> Z -> Z -> result bytes;
  SHA256Hash : bytes -> bytes;
  RedundancyStrategy : Type;
  NewRedundancyStrategyFromProto : RedundancyScheme -> result RedundancyStrategy;
  StripeSize : RedundancyStrategy -> Z
}.

(** [metainfo.UpdatePieces(ctx, path, ref, toAdd, toRemove)] as the
    verifier issues it. *)
Record UpdatePiecesCall : Type := mkUpdatePiecesCall {
  UP_path : string;
  UP_ref : Pointer;
  UP_toAdd : list RemotePiece;
  UP_toRemove : list RemotePiece
}.

(** The answers of the services during one call of [Verify]: the pointer
    store is read twice, and another writer may have changed it in
    between, so the two reads are two answers. *)
Record VerifyWorld : Type := mkVerifyWorld {
  metainfo_Get : result Pointer;
  random_draw : Z;
  CreateAuditOrderLimits : result (list (option AddressedOrderLimit));
  piecestore_Download : AddressedOrderLimit -> Z -> Z -> ShareError + bytes;
  metainfo_Get_again : result Pointer;
  metainfo_UpdatePieces : UpdatePiecesCall -> option error
}.

(** What a call of [Verify] leaves behind: the two values it returns and
    the pointer updates it issued. *)
Record VerifyReturn : Type := mkVerifyReturn {
  ret_report : option Report;
  ret_err : option error;
  ret_updates : list UpdatePiecesCall
}.

Definition empty_Report : Report := mkReport [] [] [] [].

(** *** [GetRandomStripe] *)

(** [rand.Rand.Int63n(n)] of math/rand: it panics for [n <= 0]; for a
    power of two it masks a draw of the source, otherwise it draws until
    the value is below the largest multiple of [n] and reduces it modulo
    [n].  In both cases the result is the accepted draw modulo [n]. *)
Definition Int63n (draw n : Z) : outcome Z :=
  if n <=? 0 then Panics else Returns (draw mod n).

(** Go's [/] on integers: division by zero panics, the quotient is
    truncated toward zero. *)
Definition go_div (a b : Z) : outcome Z :=
  if b =? 0 then Panics else Returns (Z.quot a b).

Definition GetRandomStripe `{Libraries} (draw : Z) (pointer : Pointer) : outcome (result Z) :=
  match NewRedundancyStrategyFromProto (Redundancy pointer) with
  | Err e => Returns (Err e)
  | Ok redundancy =>
      if SegmentSize pointer <? StripeSize redundancy then Returns (Ok 0)
      else
        match go_div (SegmentSize pointer) (StripeSize redundancy) with
        | Panics => Panics
        | Returns numStripes =>
            match Int63n draw numStripes with
            | Panics => Panics
            | Returns randomStripeIndex => Returns (Ok randomStripeIndex)
            end
        end
  end.

(** *** [GetShare] and [DownloadShares] *)

(** [make([]byte, n)]: a negative length panics. *)
Definition make_bytes (n : Z) : outcome bytes :=
  if n <? 0 then Panics else Returns (replicate (Z.to_nat n) Byte.x00).

(** [download limit offset size] is the answer of the piecestore client
    to the calls that [GetShare] makes: the error of [Dial], of [Download]
    or of reading the share, or the bytes that were read.  The buffer is
    made once the download is open and before anything is read, and for a
    negative share size [make([]byte, shareSize)] panics: there an answer
    without error stands for a download that was opened. *)
Definition GetShare (download : AddressedOrderLimit -> Z -> Z -> ShareError + bytes)
    (limit : AddressedOrderLimit) (stripeIndex shareSize pieceNum : Z)
    : outcome (ShareError + Share) :=
  let offset := Int64.wrap (shareSize * stripeIndex) in
  match download limit offset shareSize with
  | inl e => Returns (inl e)
  | inr buf =>
      match make_bytes shareSize with
      | Panics => Panics
      | Returns _ => Returns (inr (mkShare None pieceNum (StorageNodeId limit) buf))
      end
  end.

(** The share that the goroutine of limit [i] puts on the channel: that
    of [GetShare], or one that carries its error; none when [GetShare]
    panics. *)
Definition downloaded_share (download : AddressedOrderLimit -> Z -> Z -> ShareError + bytes)
    (limit : AddressedOrderLimit) (stripeIndex shareSize i : Z) : option Share :=
  match GetShare download limit stripeIndex shareSize i with
  | Panics => None
  | Returns (inl e) => Some (mkShare (Some e) i (StorageNodeId limit) [])
  | Returns (inr share) => Some share
  end.

(** [DownloadShares], the map that the receiving loop fills: every
    non-nil limit whose goroutine sends a share yields one entry, stored
    under the index of the limit; the goroutines write distinct keys, so
    the map does not depend on the order in which they finish. *)
Fixpoint DownloadShares_from (download : AddressedOrderLimit -> Z -> Z -> ShareError + bytes)
    (stripeIndex shareSize : Z) (i : Z) (limits : list (option AddressedOrderLimit))
    (shares : gmap Z Share) : gmap Z Share :=
  match limits with
  | [] => shares
  | None :: rest => DownloadShares_from download stripeIndex shareSize (i + 1) rest shares
  | Some limit :: rest =>
      DownloadShares_from download stripeIndex shareSize (i + 1) rest
        match downloaded_share download limit stripeIndex shareSize i with
        | Some share => <[i := share]> shares
        | None => shares
        end
  end.

Definition DownloadShares (download : AddressedOrderLimit -> Z -> Z -> ShareError + bytes)
    (limits : list (option AddressedOrderLimit)) (stripeIndex shareSize : Z) : gmap Z Share :=
  DownloadShares_from download stripeIndex shareSize 0 limits ∅.

(** A goroutine of [DownloadShares] panics in [GetShare].  Nothing
    recovers the panic of a goroutine: it ends the program while
    [DownloadShares] waits for the share. *)
Fixpoint DownloadShares_panics_from (download : AddressedOrderLimit -> Z -> Z -> ShareError + bytes)
    (stripeIndex shareSize : Z) (i : Z) (limits : list (option AddressedOrderLimit)) : bool :=
  match limits with
  | [] => false
  | None :: rest => DownloadShares_panics_from download stripeIndex shareSize (i + 1) rest
  | Some limit :: rest =>
      match GetShare download limit stripeIndex shareSize i with
      | Panics => true
      | Returns _ => DownloadShares_panics_from download stripeIndex shareSize (i + 1) rest
      end
  end.

Definition DownloadShares_panics (download : AddressedOrderLimit -> Z -> Z -> ShareError + bytes)
    (limits : list (option AddressedOrderLimit)) (stripeIndex shareSize : Z) : bool :=
  DownloadShares_panics_from download stripeIndex shareSize 0 limits.

(** *** [checkIfSegmentAltered] *)

Definition checkIfSegmentAltered (get : result Pointer) (segmentPath : string)
    (oldPointer : option Pointer) : result Pointer :=
  match get with
  | Err e => if ErrKeyNotFound_Has e then Err (ErrSegmentDeleted segmentPath) else Err e
  | Ok newPointer =>
      match oldPointer with
      | Some old =>
          if bool_decide (CreationDate old <> CreationDate newPointer)
          then Err (ErrSegmentDeleted segmentPath)
          else Ok newPointer
      | None => Ok newPointer
      end
  end.

(** *** [getOfflineNodes], [getSuccessNodes] *)

Definition nodesWithLimit (limits : list (option AddressedOrderLimit)) : list NodeID :=
  StorageNodeId <$> omap id limits.

(** [m[k]] on a [map[storj.NodeID]bool]: a missing key reads [false]. *)
Definition flag (m : gmap NodeID bool) (k : NodeID) : bool := default false (m !! k).

Definition getOfflineNodes (pointer : Pointer) (limits : list (option AddressedOrderLimit))
    (skip : gmap NodeID bool) : list NodeID :=
  NodeId <$> List.filter
    (fun piece => negb (bool_decide (NodeId piece ∈ nodesWithLimit limits)) && negb (flag skip (NodeId piece)))
    (RemotePieces pointer).

Definition getSuccessNodes (shares : gmap Z Share) (failedNodes offlineNodes : list NodeID)
    (containedNodes : gmap Z NodeID) : list NodeID :=
  let fails := failedNodes ++ offlineNodes ++ (map_to_list containedNodes).*2 in
  Share_NodeID <$> List.filter (fun share => negb (bool_decide (Share_NodeID share ∈ fails)))
    (map_to_list shares).*2.

(** *** [auditShares] *)

(** [makeCopies]: one [infectious.Share] per downloaded share, with a
    copy of its data. *)
Definition makeCopies (originals : gmap Z Share) : list IShare :=
  (fun original => mkIShare (Share_PieceNum original) (Data original)) <$> (map_to_list originals).*2.

(** [originals[k]]: a missing key reads the zero [Share]. *)
Definition original_at (originals : gmap Z Share) (k : Z) : Share :=
  default zero_Share (originals !! k).

(** The piece numbers that [auditShares] collects after [Correct]: those
    of the corrected shares whose data differ from what was downloaded. *)
Definition altered (originals : gmap Z Share) (corrected : list IShare) : list Z :=
  Number <$> List.filter
    (fun share => negb (bytes_Equal (Data (original_at originals (Number share))) (IData share)))
    corrected.

Definition auditShares `{Libraries} (required total : Z) (originals : gmap Z Share)
    : result (list Z * list IShare) :=
  match NewFEC required total with
  | Err e => Err e
  | Ok f =>
      let copies := makeCopies originals in
      match Correct f copies with
      | Err e => Err e
      | Ok copies' => Ok (altered originals copies', copies')
      end
  end.

(** *** [removeFailedPieces] *)

(** The pieces of the pointer that sit on one of the failed nodes, in the
    pointer's order: the nested loop with [continue OUTER]. *)
Definition toRemove (pointer : Pointer) (failedNodes : list NodeID) : list RemotePiece :=
  List.filter (fun piece => bool_decide (NodeId piece ∈ failedNodes)) (RemotePieces pointer).

Definition removeFailedPieces (update : UpdatePiecesCall -> option error) (path : string)
    (pointer : Pointer) (failedNodes : list NodeID) : option error * list UpdatePiecesCall :=
  match failedNodes with
  | [] => (None, [])
  | _ :: _ =>
      let call := mkUpdatePiecesCall path pointer [] (toRemove pointer failedNodes) in
      (update call, [call])
  end.

(** *** [createPendingAudits] *)

(** [copy(stripe[off:], data)]: slicing beyond the length panics. *)
Definition copy_at (stripe : bytes) (off : Z) (data : bytes) : outcome bytes :=
  if (off <? 0) || (Z.of_nat (length stripe) <? off) then Panics
  else
    let o := Z.to_nat off in
    let n := Nat.min (length data) (length stripe - o) in
    Returns (take o stripe ++ take n data ++ drop (o + n) stripe).

Fixpoint copy_shares (stripe : bytes) (shareSize : Z) (shares : list IShare) : outcome bytes :=
  match shares with
  | [] => Returns stripe
  | share :: rest =>
      match copy_at stripe (Number share * shareSize) (IData share) with
      | Panics => Panics
      | Returns stripe' => copy_shares stripe' shareSize rest
      end
  end.

Definition rebuildStripe `{Libraries} (fec : FEC) (corrected : list IShare) (shareSize : Z)
    : outcome (result bytes) :=
  match make_bytes (FEC_Required fec * shareSize) with
  | Panics => Panics
  | Returns stripe =>
      match Rebuild fec corrected with
      | Err e => Returns (Err e)
      | Ok outputs =>
          match copy_shares stripe shareSize outputs with
          | Panics => Panics
          | Returns stripe' => Returns (Ok stripe')
          end
      end
  end.

(** The loop over [containedNodes] of [createPendingAudits]: the first
    share that cannot be encoded ends it with the error. *)
Fixpoint pending_of `{Libraries} (fec : FEC) (stripeData : bytes) (pointer : Pointer)
    (randomIndex : Z) (path : string) (contained : list (Z * NodeID))
    (pending : list PendingAudit) : outcome (result (list PendingAudit)) :=
  match contained with
  | [] => Returns (Ok pending)
  | (pieceNum, nodeID) :: rest =>
      let shareSize := ErasureShareSize (Redundancy pointer) in
      match make_bytes shareSize with
      | Panics => Panics
      | Returns _ =>
          match EncodeSingle fec stripeData shareSize pieceNum with
          | Err e => Returns (Err e)
          | Ok share =>
              pending_of fec stripeData pointer randomIndex path rest
                (pending ++ [mkPendingAudit nodeID (RootPieceId pointer) randomIndex shareSize
                                            (SHA256Hash share) path])
          end
      end
  end.

Definition createPendingAudits `{Libraries} (containedNodes : gmap Z NodeID)
    (correctedShares : list IShare) (pointer : Pointer) (randomIndex : Z) (path : string)
    : outcome (result (list PendingAudit)) :=
  if bool_decide (map_to_list containedNodes = []) then Returns (Ok [])
  else
    let redundancy := Redundancy pointer in
    match NewFEC (MinReq redundancy) (Total redundancy) with
    | Err e => Returns (Err e)
    | Ok fec =>
        match rebuildStripe fec correctedShares (ErasureShareSize redundancy) with
        | Panics => Panics
        | Returns (Err e) => Returns (Err e)
        | Returns (Ok stripeData) =>
            pending_of fec stripeData pointer randomIndex path (map_to_list containedNodes) []
        end
    end.

(** *** [Verifier.Verify] *)

(** A call of [Verify] returns, or it panics after the pointer updates it
    had issued by then. *)
Inductive VerifyResult : Type :=
| Returned (r : VerifyReturn)
| Panicked (updates : list UpdatePiecesCall).

Definition empty_Buckets (offline : list NodeID) : Buckets := mkBuckets offline [] ∅ ∅.

(** The nodes of the shares that [auditShares] found altered (lines
    237-239); the piece numbers index the downloaded shares. *)
Definition altered_nodes (shares : gmap Z Share) (pieceNums : list Z) : list NodeID :=
  (fun pieceNum => Share_NodeID (original_at shares pieceNum)) <$> pieceNums.

(** [Verify] from the classification loop on (lines 176-300): the shares
    are downloaded and the segment was found unaltered. *)
Definition Verify_classified `{Libraries} (w : VerifyWorld) (path : string) (pointer : Pointer)
    (randomIndex : Z) (offline : list NodeID) (shares : gmap Z Share) : VerifyResult :=
  let b := classify (empty_Buckets offline) shares in
  let required := MinReq (Redundancy pointer) in
  let total := Total (Redundancy pointer) in
  if Z.of_nat (size (sharesToAudit b)) <? required then
    Returned (mkVerifyReturn (Some (mkReport [] (failedNodes b) (offlineNodes b) []))
                (Some (ErrNotEnoughShares (Z.of_nat (size (sharesToAudit b))) required)) [])
  else
    match auditShares required total (sharesToAudit b) with
    | Err e =>
        Returned (mkVerifyReturn (Some (mkReport [] (failedNodes b) (offlineNodes b) [])) (Some e) [])
    | Ok (pieceNums, correctedShares) =>
        let failed := failedNodes b ++ altered_nodes shares pieceNums in
        let updates := (removeFailedPieces (metainfo_UpdatePieces w) path pointer failed).2 in
        let successNodes := getSuccessNodes shares failed (offlineNodes b) (containedNodes b) in
        match createPendingAudits (containedNodes b) correctedShares pointer randomIndex path with
        | Panics => Panicked updates
        | Returns (Err e) =>
            Returned (mkVerifyReturn (Some (mkReport successNodes failed (offlineNodes b) [])) (Some e) updates)
        | Returns (Ok pendingAudits) =>
            Returned (mkVerifyReturn (Some (mkReport successNodes failed (offlineNodes b) pendingAudits))
                        None updates)
        end
    end.

Definition Verify `{Libraries} (w : VerifyWorld) (path : string) (skip : gmap NodeID bool)
    : VerifyResult :=
  match metainfo_Get w with
  | Err e =>
      if ErrKeyNotFound_Has e
      then Returned (mkVerifyReturn None (Some (ErrSegmentDeleted path)) [])
      else Returned (mkVerifyReturn None (Some e) [])
  | Ok pointer =>
      match GetRandomStripe (random_draw w) pointer with
      | Panics => Panicked []
      | Returns (Err e) => Returned (mkVerifyReturn None (Some e) [])
      | Returns (Ok randomIndex) =>
          let shareSize := ErasureShareSize (Redundancy pointer) in
          match CreateAuditOrderLimits w with
          | Err e => Returned (mkVerifyReturn None (Some e) [])
          | Ok orderLimits =>
              let offline := getOfflineNodes pointer orderLimits skip in
              if DownloadShares_panics (piecestore_Download w) orderLimits randomIndex shareSize
              then Panicked []
              else
                let shares :=
                  DownloadShares (piecestore_Download w) orderLimits randomIndex shareSize in
                match checkIfSegmentAltered (metainfo_Get_again w) path (Some pointer) with
                | Err e => Returned (mkVerifyReturn (Some (mkReport [] [] offline [])) (Some e) [])
                | Ok _ => Verify_classified w path pointer randomIndex offline shares
                end
          end
      end
  end.

(** *** [Verifier.Reverify] *)

(** The result status enum of [Reverify]. *)
Inductive status : Type :=
| skipped | success | offline | failed | contained | erred.

#[global] Instance status_eq_dec : EqDecision status.
Proof. solve_decision. Defined.

(** The [result] struct that goes over the channel. *)
Record message : Type := mkMessage {
  msg_nodeID : NodeID;
  msg_status : status;
  msg_pendingAudit : option PendingAudit;
  msg_err : option error
}.

Record ReverifyWorld : Type := mkReverifyWorld {
  rv_metainfo_Get : string -> result Pointer;
  rv_containment_Get : NodeID -> result PendingAudit;
  rv_containment_Get_again : NodeID -> result PendingAudit;
  rv_CreateAuditOrderLimit : NodeID -> Z -> PieceID -> Z -> result AddressedOrderLimit;
  rv_piecestore_Download : AddressedOrderLimit -> Z -> Z -> ShareError + bytes;
  rv_metainfo_Get_again : string -> result Pointer;
  rv_metainfo_UpdatePieces : UpdatePiecesCall -> option error
}.

(** What one goroutine of [Reverify] does: the messages it sends, in
    order, the nodes it deletes from containment, and the pointer updates
    it issues. *)
Record Sent : Type := mkSent {
  sent : list message;
  deleted : list NodeID;
  updates : list UpdatePiecesCall
}.

(** The search for the pending node among the pieces of its pointer: the
    loop does not stop at the first match, the last one gives the piece
    number. *)
Fixpoint find_piece (pieces : list RemotePiece) (node : NodeID) (pieceNum : Z) (found : bool)
    : Z * bool :=
  match pieces with
  | [] => (pieceNum, found)
  | piece :: rest =>
      if bool_decide (NodeId piece = node)
      then find_piece rest node (PieceNum piece) true
      else find_piece rest node pieceNum found
  end.

(** A share that does not verify (not found on the node, or its hash
    differs): the segment is looked up again, and unless it was altered
    its piece on the node is removed and the node fails. *)
Definition reverify_failed (w : ReverifyWorld) (pending : PendingAudit) (pendingPointer : Pointer)
    : Sent :=
  match checkIfSegmentAltered (rv_metainfo_Get_again w (PA_Path pending)) (PA_Path pending)
          (Some pendingPointer) with
  | Err _ => mkSent [mkMessage (PA_NodeID pending) success None None] [] []
  | Ok oldPtr =>
      let '(_, ups) := removeFailedPieces (rv_metainfo_UpdatePieces w) (PA_Path pending) oldPtr
                         [PA_NodeID pending] in
      mkSent [mkMessage (PA_NodeID pending) failed None None] [] ups
  end.

(** The analysis of the error of [GetShare] in [Reverify]. *)
Definition reverify_share_error (w : ReverifyWorld) (pending : PendingAudit)
    (pendingPointer : Pointer) (e : ShareError) : Sent :=
  if rpc_Error_Has e then
    if Is_context_DeadlineExceeded e then mkSent [mkMessage (PA_NodeID pending) offline None None] [] []
    else if IsRPC e Unknown then mkSent [mkMessage (PA_NodeID pending) offline None None] [] []
    else mkSent [mkMessage (PA_NodeID pending) contained (Some pending) None] [] []
  else if IsRPC e NotFound then reverify_failed w pending pendingPointer
  else if IsRPC e DeadlineExceeded
  then mkSent [mkMessage (PA_NodeID pending) contained (Some pending) None] [] []
  else mkSent [mkMessage (PA_NodeID pending) contained (Some pending) None] [] [].

(** The goroutine body, [go func(pending *PendingAudit) { ... }(pending)]
    (lines 385-535). *)
Definition reverify_pending `{Libraries} (w : ReverifyWorld) (pending : PendingAudit) : Sent :=
  let node := PA_NodeID pending in
  match rv_metainfo_Get w (PA_Path pending) with
  | Err e =>
      if ErrKeyNotFound_Has e
      then mkSent [mkMessage node skipped None None] [node] []
      else mkSent [mkMessage node erred None (Some e)] [] []
  | Ok pendingPointer =>
      if bool_decide (RootPieceId pendingPointer <> PA_PieceID pending)
      then mkSent [mkMessage node skipped None None] [node] []
      else
        let '(pieceNum, found) := find_piece (RemotePieces pendingPointer) node 0 false in
        if negb found then
          (* [err] is the nil error of the successful [metainfo.Get] *)
          mkSent [mkMessage node erred None None; mkMessage node skipped None None] [node] []
        else
          match rv_CreateAuditOrderLimit w node pieceNum (PA_PieceID pending) (ShareSize pending) with
          | Err e =>
              if ErrNodeDisqualified_Has e
              then mkSent [mkMessage node erred None (Some e)] [node] []
              else if ErrNodeOffline_Has e
              then mkSent [mkMessage node offline None None] [] []
              else mkSent [mkMessage node erred None (Some e)] [] []
          | Ok limit =>
              match GetShare (rv_piecestore_Download w) limit (StripeIndex pending)
                      (ShareSize pending) pieceNum with
              | Panics =>
                  (* the goroutine panics before it has sent anything *)
                  mkSent [] [] []
              | Returns got =>
                  match rv_containment_Get_again w node with
                  | Err getErr =>
                      if ErrContainedNotFound_Has getErr
                      then mkSent [mkMessage node skipped None None] [] []
                      else mkSent [mkMessage node erred None (Some getErr)] [] []
                  | Ok _ =>
                      match got with
                      | inl e => reverify_share_error w pending pendingPointer e
                      | inr share =>
                          if bytes_Equal (SHA256Hash (Data share)) (ExpectedShareHash pending)
                          then mkSent [mkMessage node success None None] [] []
                          else reverify_failed w pending pendingPointer
                      end
                  end
              end
          end
  end.

(** One iteration of the loop over the pieces of the segment (lines
    372-536): what reaches the channel for this piece. *)
Definition reverify_piece `{Libraries} (w : ReverifyWorld) (piece : RemotePiece) : Sent :=
  match rv_containment_Get w (NodeId piece) with
  | Err e =>
      if ErrContainedNotFound_Has e
      then mkSent [mkMessage (NodeId piece) skipped None None] [] []
      else mkSent [mkMessage (NodeId piece) erred None (Some e)] [] []
  | Ok pending => reverify_pending w pending
  end.

(** The collecting loop (lines 538-553): one received message. *)
Definition collect (acc : Report * list error) (m : message) : Report * list error :=
  let '(report, err) := acc in
  match msg_status m with
  | success => (mkReport (Successes report ++ [msg_nodeID m]) (Fails report) (Offlines report)
                  (PendingAudits report), err)
  | offline => (mkReport (Successes report) (Fails report) (Offlines report ++ [msg_nodeID m])
                  (PendingAudits report), err)
  | failed => (mkReport (Successes report) (Fails report ++ [msg_nodeID m]) (Offlines report)
                 (PendingAudits report), err)
  | contained =>
      match msg_pendingAudit m with
      | Some p => (mkReport (Successes report) (Fails report) (Offlines report)
                     (PendingAudits report ++ [p]), err)
      | None => (report, err)
      end
  | erred => (report, errs_Combine err (msg_err m))
  | skipped => (report, err)
  end.

(** What the loop and the goroutines of [Reverify] put on the channel, in
    one of its runs: the one in which the goroutine of a piece finishes
    before the next piece is looked at and no send has to wait.  Other
    runs interleave the messages of different pieces, and a send waits
    once the channel holds [len(pieces)] messages. *)
Definition Reverify_sent `{Libraries} (w : ReverifyWorld) (pieces : list RemotePiece) : list message :=
  concat ((fun piece => sent (reverify_piece w piece)) <$> pieces).

(** [Reverify] in that run, when no goroutine panics: the collector
    receives exactly [len(pieces)] messages. *)
Definition Reverify `{Libraries} (w : ReverifyWorld) (path : string)
    : option Report * list error :=
  match rv_metainfo_Get w path with
  | Err e =>
      if ErrKeyNotFound_Has e then (None, [ErrSegmentDeleted path]) else (None, [e])
  | Ok pointer =>
      let pieces := RemotePieces pointer in
      let received := take (length pieces) (Reverify_sent w pieces) in
      let '(report, err) := fold_left collect received (empty_Report, []) in
      (Some report, err)
  end.


(** *** The outcome of a download, as the loop of [Verify] sorts it *)

(** A share that was downloaded without error. *)
Definition no_error (s : Share) : bool :=
  match Error s with None => true | Some _ => false end.

(** A share whose error makes its node contained. *)
Definition contained_error (s : Share) : bool :=
  match Error s with Some e => goes_contained e | None => false end.

(** The candidates for verification among the downloaded shares. *)
Definition candidates (shares : gmap Z Share) : gmap Z Share :=
  filter (fun kv => no_error kv.2 = true) shares.

(** The classification table as the specification words it, read from
    top to bottom: a dial timeout and a refused connection are offline, a
    missing share is a failure, a download that timed out and every other
    error are contained. *)
Inductive bucket : Type :=
| Offline | Fail | Contained.

Definition spec_table (e : ShareError) : bucket :=
  if rpc_Error_Has e && Is_context_DeadlineExceeded e then Offline
  else if rpc_Error_Has e && IsRPC e Unknown then Offline
  else if IsRPC e NotFound then Fail
  else if IsRPC e DeadlineExceeded then Contained
  else Contained.

(** *** A small erasure code to run the verifier on *)

(** A stand-in for the erasure code, in which all the shares of a stripe
    carry the same bytes: one share rebuilds the stripe, [Correct] gives
    every share the data that more than half of the shares agree on and
    fails when there is no such data, and the hash is the identity. *)
Definition count_data (d : bytes) (l : list IShare) : nat :=
  length (List.filter (fun s => bytes_Equal (IData s) d) l).

Definition majority (l : list IShare) : bytes :=
  fold_left (fun best s => if (count_data best l <? count_data (IData s) l)%nat then IData s else best)
    l [].

Definition repetition_NewFEC (k n : Z) : result (Z * Z) :=
  if (k <=? 0) || (n <=? 0) || (256 <? k) || (256 <? n) || (n <? k)
  then Err (ErrExternal "infectious: invalid parameters")
  else Ok (k, n).

Definition repetition_Correct (f : Z * Z) (shares : list IShare) : result (list IShare) :=
  if (length shares <? 2 * count_data (majority shares) shares)%nat
  then Ok ((fun s => mkIShare (Number s) (majority shares)) <$> shares)
  else Err (ErrExternal "infectious: too many errors to reconstruct").

Definition repetition_code : Libraries := {|
  FEC := Z * Z;
  NewFEC := repetition_NewFEC;
  FEC_Required := fst;
  Correct := repetition_Correct;
  Rebuild := fun _ shares => Ok [mkIShare 0 (majority shares)];
  EncodeSingle := fun _ stripe shareSize _ => Ok (take (Z.to_nat shareSize) stripe);
  SHA256Hash := fun b => b;
  RedundancyStrategy := RedundancyScheme;
  NewRedundancyStrategyFromProto := fun scheme =>
    match repetition_NewFEC (MinReq scheme) (Total scheme) with
    | Err e => Err e
    | Ok _ => Ok scheme
    end;
  StripeSize := fun scheme => ErasureShareSize scheme * MinReq scheme
|}.

End Audit.

(** ** Reputation: the [nodes] table of the overlay cache *)

Module Overlay.

(** [float64(x)] of an [int64]: the nearest binary64 value, ties to even. *)
Definition float64_of_int64 (z : Z) : float :=
  SF2Prim (binary_normalize prec emax z 0 false).

(** [float64(a) / float64(b)] *)
Definition ratio_of (successCount totalCount : Z) : float :=
  PrimFloat.div (float64_of_int64 successCount) (float64_of_int64 totalCount).

(** A row of the [nodes] table ([dbx.Node]); the two timestamps that the
    database layer maintains by itself are left out. *)
Record Node : Type := mkNode {
  Id : NodeID;
  AuditSuccessCount : Z;
  TotalAuditCount : Z;
  AuditSuccessRatio : float;
  UptimeSuccessCount : Z;
  TotalUptimeCount : Z;
  UptimeRatio : float;
  Wallet : string;
  Email : string
}.

(** [overlay.UpdateRequest] *)
Record UpdateRequest : Type := mkUpdateRequest {
  Req_NodeID : NodeID;
  AuditSuccess : bool;
  IsUp : bool
}.

(** [overlay.NodeStats]: the ratios and counters of a row, and the
    operator. *)
Record NodeStats : Type := mkNodeStats {
  NS_NodeID : NodeID;
  NS_AuditSuccessRatio : float;
  NS_AuditSuccessCount : Z;
  NS_AuditCount : Z;
  NS_UptimeRatio : float;
  NS_UptimeSuccessCount : Z;
  NS_UptimeCount : Z;
  NS_Wallet : string;
  NS_Email : string
}.

Inductive db_error : Type :=
| ErrNoRows
| ErrDuplicateKey
| ErrRatio (what : string).

Definition getNodeStats (nodeID : NodeID) (dbNode : Node) : NodeStats :=
  mkNodeStats nodeID (AuditSuccessRatio dbNode) (AuditSuccessCount dbNode) (TotalAuditCount dbNode)
    (UptimeRatio dbNode) (UptimeSuccessCount dbNode) (TotalUptimeCount dbNode)
    (Wallet dbNode) (Email dbNode).

Definition updateRatioVars (newStatus : bool) (successCount totalCount : Z) : Z * Z * float :=
  let totalCount := Int64.incr totalCount in
  let successCount := if newStatus then Int64.incr successCount else successCount in
  let newRatio := ratio_of successCount totalCount in
  (successCount, totalCount, newRatio).

Definition checkRatioVars (successCount totalCount : Z) : float + db_error :=
  if successCount <? 0 then inr (ErrRatio "success count less than 0")
  else if totalCount <? 0 then inr (ErrRatio "total count less than 0")
  else if successCount >? totalCount then inr (ErrRatio "success count greater than total count")
  else if totalCount =? 0 then inl 0%float
  else inl (ratio_of successCount totalCount).

(** The table, keyed by its primary key [id]. *)
Abbreviation nodes_table := (gmap NodeID Node).

(** [UPDATE nodes SET ... WHERE id = ?] with the audit fields set. *)
Definition set_audit (n : Node) (successCount totalCount : Z) (ratio : float) : Node :=
  mkNode (Id n) successCount totalCount ratio (UptimeSuccessCount n) (TotalUptimeCount n)
    (UptimeRatio n) (Wallet n) (Email n).

(** The same with the uptime fields set. *)
Definition set_uptime (n : Node) (successCount totalCount : Z) (ratio : float) : Node :=
  mkNode (Id n) (AuditSuccessCount n) (TotalAuditCount n) (AuditSuccessRatio n) successCount
    totalCount ratio (Wallet n) (Email n).

(** The row that [UpdateStats] writes back. *)
Definition UpdateStats_row (dbNode : Node) (updateReq : UpdateRequest) : Node :=
  let '(auditSuccessCount, totalAuditCount, auditSuccessRatio) :=
    updateRatioVars (AuditSuccess updateReq) (AuditSuccessCount dbNode) (TotalAuditCount dbNode) in
  let '(uptimeSuccessCount, totalUptimeCount, uptimeRatio) :=
    updateRatioVars (IsUp updateReq) (UptimeSuccessCount dbNode) (TotalUptimeCount dbNode) in
  set_uptime (set_audit dbNode auditSuccessCount totalAuditCount auditSuccessRatio)
    uptimeSuccessCount totalUptimeCount uptimeRatio.

Definition UpdateStats (db : nodes_table) (updateReq : UpdateRequest)
    : nodes_table * (NodeStats + db_error) :=
  let nodeID := Req_NodeID updateReq in
  match db !! nodeID with
  | None => (db, inr ErrNoRows)
  | Some dbNode =>
      let dbNode' := UpdateStats_row dbNode updateReq in
      (<[nodeID := dbNode']> db, inl (getNodeStats nodeID dbNode'))
  end.

Definition UpdateUptime_row (dbNode : Node) (isUp : bool) : Node :=
  let '(uptimeSuccessCount, totalUptimeCount, uptimeRatio) :=
    updateRatioVars isUp (UptimeSuccessCount dbNode) (TotalUptimeCount dbNode) in
  set_uptime dbNode uptimeSuccessCount totalUptimeCount uptimeRatio.

Definition UpdateUptime (db : nodes_table) (nodeID : NodeID) (isUp : bool)
    : nodes_table * (NodeStats + db_error) :=
  match db !! nodeID with
  | None => (db, inr ErrNoRows)
  | Some dbNode =>
      let dbNode' := UpdateUptime_row dbNode isUp in
      (<[nodeID := dbNode']> db, inl (getNodeStats nodeID dbNode'))
  end.

Definition UpdateAuditSuccess_row (dbNode : Node) (auditSuccess : bool) : Node :=
  let '(auditSuccessCount, totalAuditCount, auditRatio) :=
    updateRatioVars auditSuccess (AuditSuccessCount dbNode) (TotalAuditCount dbNode) in
  set_audit dbNode auditSuccessCount totalAuditCount auditRatio.

Definition UpdateAuditSuccess (db : nodes_table) (nodeID : NodeID) (auditSuccess : bool)
    : nodes_table * (NodeStats + db_error) :=
  match db !! nodeID with
  | None => (db, inr ErrNoRows)
  | Some dbNode =>
      let dbNode' := UpdateAuditSuccess_row dbNode auditSuccess in
      (<[nodeID := dbNode']> db, inl (getNodeStats nodeID dbNode'))
  end.

(** The row that [Create] inserts for the starting stats, when they pass
    [checkRatioVars]. *)
Definition Create_row (nodeID : NodeID) (startingStats : option NodeStats) : Node + db_error :=
  match startingStats with
  | None => inl (mkNode nodeID 0 0 0%float 0 0 0%float "" "")
  | Some st =>
      match checkRatioVars (NS_AuditSuccessCount st) (NS_AuditCount st) with
      | inr e => inr e
      | inl auditSuccessRatio =>
          match checkRatioVars (NS_UptimeSuccessCount st) (NS_UptimeCount st) with
          | inr e => inr e
          | inl uptimeRatio =>
              inl (mkNode nodeID (NS_AuditSuccessCount st) (NS_AuditCount st) auditSuccessRatio
                     (NS_UptimeSuccessCount st) (NS_UptimeCount st) uptimeRatio
                     (NS_Wallet st) (NS_Email st))
          end
      end
  end.

Definition Create (db : nodes_table) (nodeID : NodeID) (startingStats : option NodeStats)
    : nodes_table * (NodeStats + db_error) :=
  match Create_row nodeID startingStats with
  | inr e => (db, inr e)
  | inl row =>
      match db !! nodeID with
      | Some _ => (db, inr ErrDuplicateKey)
      | None => (<[nodeID := row]> db, inl (getNodeStats nodeID row))
      end
  end.

(** The invariant of a row: the counters are ordered, and a ratio is the
    quotient of its counters once something was counted. *)
Definition counts_ok (successCount totalCount : Z) : Prop :=
  0 <= successCount <= totalCount.

Definition ratio_ok (successCount totalCount : Z) (ratio : float) : Prop :=
  totalCount > 0 -> ratio = ratio_of successCount totalCount.

Definition row_ok (n : Node) : Prop :=
  counts_ok (AuditSuccessCount n) (TotalAuditCount n)
  /\ counts_ok (UptimeSuccessCount n) (TotalUptimeCount n)
  /\ ratio_ok (AuditSuccessCount n) (TotalAuditCount n) (AuditSuccessRatio n)
  /\ ratio_ok (UptimeSuccessCount n) (TotalUptimeCount n) (UptimeRatio n).

End Overlay.

(** ** Settlement: the [bwagreements] table *)

Module Bandwidth.

(** [pb.BandwidthAction] *)
Inductive BandwidthAction : Type :=
| PUT | GET | GET_AUDIT | GET_REPAIR | PUT_REPAIR.

#[global] Instance BandwidthAction_eq_dec : EqDecision BandwidthAction.
Proof. solve_decision. Defined.

(** The value of the enum, what [int64(rba.PayerAllocation.Action)] stores. *)
Definition action_value (a : BandwidthAction) : Z :=
  match a with
  | PUT => 0 | GET => 1 | GET_AUDIT => 2 | GET_REPAIR => 3 | PUT_REPAIR => 4
  end.

(** [pb.OrderLimit] as [PayerAllocation] and [pb.Order]. *)
Record PayerAllocation : Type := mkPayerAllocation {
  SerialNumber : string;
  UplinkId : NodeID;
  Action : BandwidthAction;
  ExpirationUnixSec : Z
}.

Record Order : Type := mkOrder {
  Allocation : PayerAllocation;
  StorageNodeId : NodeID;
  Total : Z
}.

(** A row of [bwagreements] after the migration that the code writes to:
    [serialnum] is the primary key. *)
Record Row : Type := mkRow {
  serialnum : string;
  storage_node_id : NodeID;
  uplink_id : NodeID;
  action : Z;
  total : Z;
  created_at : Z;
  expires_at : Z
}.

(** The table is the rows it holds, in the order of insertion. *)
Abbreviation table := (list Row).

Inductive sql_error : Type :=
| UniqueViolation (key : string).

(** [INSERT INTO bwagreements ...] under [PRIMARY KEY ( serialnum )]: a
    row whose key is taken is refused and nothing is written. *)
Definition sql_insert (t : table) (r : Row) : table * option sql_error :=
  if bool_decide (serialnum r ∈ serialnum <$> t)
  then (t, Some (UniqueViolation (serialnum r)))
  else (t ++ [r], None).

Section SaveOrder.

(** [storj.NodeID.String()], the text form of a node id. *)
Variable NodeID_String : NodeID -> string.

(** The key under which an order is stored. *)
Definition order_key (rba : Order) : string :=
  SerialNumber (Allocation rba) +:+ NodeID_String (StorageNodeId rba).

(** [SaveOrder], at the time [now] (seconds, UTC). *)
Definition SaveOrder (now : Z) (t : table) (rba : Order) : table * option sql_error :=
  sql_insert t
    (mkRow (order_key rba) (StorageNodeId rba) (UplinkId (Allocation rba))
       (action_value (Action (Allocation rba))) (Total rba) now
       (ExpirationUnixSec (Allocation rba))).

End SaveOrder.

(** [SUM(CASE WHEN action = a THEN total ELSE 0 END)] over the rows of
    one storage node created in the window [(from, to]]. *)
Definition in_window (from to : Z) (r : Row) : bool :=
  (from <? created_at r) && (created_at r <=? to).

Definition sum_action (rows : list Row) (a : BandwidthAction) : Z :=
  foldr (fun r acc => (if action r =? action_value a then total r else 0) + acc) 0 rows.

Definition node_totals (rows : list Row) : list Z :=
  sum_action rows <$> [PUT; GET; GET_AUDIT; GET_REPAIR; PUT_REPAIR].

Definition rows_of (t : table) (from to : Z) (node : NodeID) : list Row :=
  List.filter (fun r => in_window from to r && bool_decide (storage_node_id r = node)) t.

(** The database adds 64-bit integers, and [rows.Scan] stores every sum
    in an [int64].  Whatever the order in which the rows of a group are
    added, the sum of an action stays between the sum of its negative
    totals and the sum of its positive ones, and some order reaches both. *)
Definition sum_positive (rows : list Row) (a : BandwidthAction) : Z :=
  sum_action (List.filter (fun r => 0 <? total r) rows) a.

Definition sum_negative (rows : list Row) (a : BandwidthAction) : Z :=
  sum_action (List.filter (fun r => total r <? 0) rows) a.

(** No sum of the group can leave [int64] on the way. *)
Definition sums_fit (rows : list Row) : bool :=
  forallb (fun a => (Int64.min_int64 <=? sum_negative rows a)
                    && (sum_positive rows a <=? Int64.max_int64))
    [PUT; GET; GET_AUDIT; GET_REPAIR; PUT_REPAIR].

Definition totals_fit (t : table) (from to : Z) : bool :=
  forallb (fun r => sums_fit (rows_of t from to (storage_node_id r)))
    (List.filter (in_window from to) t).

(** The map that the loop over the rows of the query builds: one entry
    per storage node that has a row in the window, with its five sums. *)
Definition collect_totals (t : table) (from to : Z) : gmap NodeID (list Z) :=
  list_to_map
    ((fun r => (storage_node_id r, node_totals (rows_of t from to (storage_node_id r))))
       <$> List.filter (in_window from to) t).

(** [GetTotals].  While no sum of a group can leave [int64], the query
    yields every group with its sums and the map of all of them is
    returned with a nil error.  Otherwise the outcome is that of the
    database and of the order in which it adds: one raises an overflow
    error while it steps through the rows, which ends the loop early and
    goes unnoticed, as [rows.Err] is not asked; another adds in arbitrary
    precision, so that the scan into [int64] fails.  That case is [None],
    and nothing is said about it. *)
Definition GetTotals (t : table) (from to : Z) : option (gmap NodeID (list Z)) :=
  if totals_fit t from to then Some (collect_totals t from to) else None.

(** A run of settlements: the orders saved one after the other, each at
    its time, whether accepted or refused. *)
Definition settle (NodeID_String : NodeID -> string) (t : table) (orders : list (Z * Order)) : table :=
  fold_left (fun t o => (SaveOrder NodeID_String o.1 t o.2).1) orders t.

(** The number of rows stored for a serial number and a storage node. *)
Definition credited (NodeID_String : NodeID -> string) (t : table) (rba : Order) : nat :=
  length (List.filter (fun r => bool_decide (serialnum r = order_key NodeID_String rba)) t).

End Bandwidth.

(** ** The repair queue: the [injuredsegments] table *)

Module RepairQueue.

(** [pb.InjuredSegment] *)
Record InjuredSegment : Type := mkInjuredSegment {
  Path : string;
  LostPieces : list Z
}.

#[global] Instance InjuredSegment_eq_dec : EqDecision InjuredSegment.
Proof. solve_decision. Defined.

(** The protobuf encoding of a segment: [proto.Marshal] and
    [proto.Unmarshal], which reads back what was written. *)
Class Codec : Type := mkCodec {
  Info : Type;
  Info_eq_dec :: EqDecision Info;
  Marshal : InjuredSegment -> Info;
  Unmarshal : Info -> option InjuredSegment;
  Unmarshal_Marshal : forall seg, Unmarshal (Marshal seg) = Some seg
}.

(** A row of [injuredsegments]: [id bigserial PRIMARY KEY], [info bytea]. *)
Record Row `{Codec} : Type := mkRow {
  id : Z;
  info : Info
}.
Arguments mkRow {_} _ _.

(** The table: its rows in the order of insertion, which is the order in
    which the database hands them out, and the next value of the serial. *)
Record Queue `{Codec} : Type := mkQueue {
  rows : list Row;
  next_id : Z
}.
Arguments mkQueue {_} _ _.

Inductive queue_error : Type :=
| ErrEmptyQueue
| ErrNotDeleted
| ErrUnmarshal.

Definition empty_queue `{Codec} : Queue := mkQueue [] 1.

(** [Create_Injuredsegment] *)
Definition Enqueue `{Codec} (q : Queue) (seg : InjuredSegment) : Queue :=
  mkQueue (rows q ++ [mkRow (next_id q) (Marshal seg)]) (next_id q + 1).

(** [Delete_Injuredsegment_By_Info]: every row with this info goes. *)
Definition delete_by_info `{Codec} (rs : list Row) (i : Info) : list Row :=
  List.filter (fun r => negb (bool_decide (info r = i))) rs.

(** [Dequeue]: the first row is read, the rows with its info are deleted
    and the transaction is committed; an error rolls it back. *)
Definition Dequeue `{Codec} (q : Queue) : Queue * (InjuredSegment + queue_error) :=
  match rows q with
  | [] => (q, inr ErrEmptyQueue)
  | res :: _ =>
      let rest := delete_by_info (rows q) (info res) in
      if bool_decide (length rest = length (rows q)) then (q, inr ErrNotDeleted)
      else
        match Unmarshal (info res) with
        | None => (q, inr ErrUnmarshal)
        | Some seg => (mkQueue rest (next_id q), inl seg)
        end
  end.

(** [Enqueue] of a list of segments, one after the other. *)
Definition enqueue_all `{Codec} (q : Queue) (segs : list InjuredSegment) : Queue :=
  fold_left Enqueue segs q.

(** The encoding that stores a segment as it is. *)
Definition plain_codec : Codec :=
  mkCodec InjuredSegment _ (fun seg => seg) Some (fun seg => eq_refl).

End RepairQueue.

(** ** Scenarios *)

(** Concrete segments and node behaviours, on the repetition code, that
    the statements below are run on. *)
Module Scenarios.
Import Audit.

Definition segment_path : string := "project/l/bucket/object".

(** A download that succeeds with the given data. *)
Definition serves (data : bytes) : ShareError + bytes := inr data.

(** The errors a download can end with. *)
Definition dial_timeout : ShareError :=
  mkShareError true true (fun c => bool_decide (c = Unknown)).

Definition share_missing : ShareError :=
  mkShareError false false (fun c => bool_decide (c = NotFound)).

Definition download_timeout : ShareError :=
  mkShareError false false (fun c => bool_decide (c = DeadlineExceeded)).

(** An error of class [rpc.Error] whose status is NotFound. *)
Definition transport_not_found : ShareError :=
  mkShareError true false (fun c => bool_decide (c = NotFound)).

(** Four pieces on the nodes 11 to 14, two shares of one byte rebuild a
    stripe, the segment is one stripe long. *)
Definition pointer_2_of_4 : Pointer :=
  mkPointer (mkRedundancyScheme 2 4 2 3 1) 900
    [mkRemotePiece 0 11; mkRemotePiece 1 12; mkRemotePiece 2 13; mkRemotePiece 3 14] 2 1000.

Definition limits_of (nodes : list NodeID) : list (option AddressedOrderLimit) :=
  (fun n => Some (mkLimit n (500 + n))) <$> nodes.

(** Node 11 serves its share; node 12 has lost it; node 13 cannot be
    dialed in time; node 14 got no order limit. *)
Definition world_few_shares : VerifyWorld :=
  mkVerifyWorld (Ok pointer_2_of_4) 5 (Ok (limits_of [11; 12; 13] ++ [None]))
    (fun limit _ _ =>
       if StorageNodeId limit =? 11 then serves [Byte.x2a]
       else if StorageNodeId limit =? 12 then inl share_missing
       else inl dial_timeout)
    (Ok pointer_2_of_4) (fun _ => None).

(** The same, but the segment was uploaded again while the shares were
    downloaded: the pointer read afterwards has another creation date. *)
Definition world_altered : VerifyWorld :=
  mkVerifyWorld (Ok pointer_2_of_4) 5 (Ok (limits_of [11; 12; 13] ++ [None]))
    (piecestore_Download world_few_shares)
    (Ok (mkPointer (Redundancy pointer_2_of_4) 901 (RemotePieces pointer_2_of_4) 2 2000))
    (fun _ => None).

(** All four nodes serve a share; that of node 13 was tampered with. *)
Definition world_tampered : VerifyWorld :=
  mkVerifyWorld (Ok pointer_2_of_4) 5 (Ok (limits_of [11; 12; 13; 14]))
    (fun limit _ _ =>
       if StorageNodeId limit =? 13 then serves [Byte.xff] else serves [Byte.x2a])
    (Ok pointer_2_of_4) (fun _ => None).

(** Node 13 has lost its share, and the three shares that are served
    disagree with each other. *)
Definition world_beyond_correction : VerifyWorld :=
  mkVerifyWorld (Ok pointer_2_of_4) 5 (Ok (limits_of [11; 12; 13; 14]))
    (fun limit _ _ =>
       if StorageNodeId limit =? 11 then serves [Byte.x2a]
       else if StorageNodeId limit =? 12 then serves [Byte.xff]
       else if StorageNodeId limit =? 13 then inl share_missing
       else serves [Byte.x01])
    (Ok pointer_2_of_4) (fun _ => None).

(** Nodes 11 to 13 serve their shares; dialing node 14 ends with an error
    of class [rpc.Error] that carries the status NotFound. *)
Definition world_transport_not_found : VerifyWorld :=
  mkVerifyWorld (Ok pointer_2_of_4) 5 (Ok (limits_of [11; 12; 13; 14]))
    (fun limit _ _ =>
       if StorageNodeId limit =? 14 then inl transport_not_found else serves [Byte.x2a])
    (Ok pointer_2_of_4) (fun _ => None).

(** [Reverify] of that segment.  Node 13 is contained for a share of
    another segment, whose pointer no longer lists it; node 14 is
    contained for a share of this segment and now serves it; the nodes 11
    and 12 are not contained. *)
Definition other_path : string := "project/l/bucket/other".

Definition pending_13 : PendingAudit := mkPendingAudit 13 901 0 1 [Byte.x2a] other_path.

Definition pending_14 : PendingAudit := mkPendingAudit 14 900 0 1 [Byte.x2a] segment_path.

Definition pointer_other : Pointer :=
  mkPointer (mkRedundancyScheme 2 4 2 3 1) 901
    [mkRemotePiece 0 21; mkRemotePiece 1 22; mkRemotePiece 2 23; mkRemotePiece 3 24] 2 1500.

Definition pointers (path : string) : result Pointer :=
  if bool_decide (path = segment_path) then Ok pointer_2_of_4
  else if bool_decide (path = other_path) then Ok pointer_other
  else Err ErrKeyNotFound.

Definition containment (node : NodeID) : result PendingAudit :=
  if node =? 13 then Ok pending_13
  else if node =? 14 then Ok pending_14
  else Err ErrContainedNotFound.

Definition world_vanished : ReverifyWorld :=
  mkReverifyWorld pointers containment containment
    (fun node _ _ _ => Ok (mkLimit node (500 + node)))
    (fun _ _ _ => serves [Byte.x2a])
    pointers (fun _ => None).

End Scenarios.

(** ** More of the same packages *)

From stdpp Require Import sorting.

Open Scope Z_scope.

(** *** Schema snapshots (package dbschema) *)

Module DBSchema.

Section Snapshots.

(** The schema and the data a snapshot points to. *)
Variables (Schema Data : Type).

Record Snapshot : Type := mkSnapshot {
  Version : Z;
  Script : string;
  Snapshot_Schema : option Schema;
  Snapshot_Data : option Data
}.

(** [Snapshots.List] *)
Definition Snapshots : Type := list Snapshot.

Definition Add (snapshots : Snapshots) (snap : Snapshot) : Snapshots :=
  snapshots ++ [snap].

Fixpoint FindVersion (snapshots : Snapshots) (version : Z) : option Snapshot :=
  match snapshots with
  | [] => None
  | snap :: rest =>
      if bool_decide (Version snap = version) then Some snap else FindVersion rest version
  end.

End Snapshots.

Arguments Version {Schema Data} _.
Arguments Script {Schema Data} _.
Arguments Add {Schema Data} _ _.
Arguments FindVersion {Schema Data} _ _.

End DBSchema.

(** *** The verifier: observations on a run *)

Module AuditMore.
Import Audit.

(** The pointer updates a call of [Verify] issued. *)
Definition issued (r : VerifyResult) : list UpdatePiecesCall :=
  match r with
  | Returned ret => ret_updates ret
  | Panicked ups => ups
  end.

End AuditMore.

(** *** The overlay cache: reading, creating and batch updates *)

Module OverlayMore.
Import Overlay.

Inductive overlay_error : Type :=
| ErrNodeNotFound
| ErrDB (e : db_error).

(** [GetStats]: [Find_Node_By_Id] yields nil for a node without row. *)
Definition GetStats (db : gmap NodeID Node) (nodeID : NodeID) : NodeStats + overlay_error :=
  match db !! nodeID with
  | None => inr ErrNodeNotFound
  | Some dbNode => inl (getNodeStats nodeID dbNode)
  end.

Definition CreateEntryIfNotExists (db : gmap NodeID Node) (nodeID : NodeID)
    : gmap NodeID Node * (NodeStats + overlay_error) :=
  match GetStats db nodeID with
  | inr ErrNodeNotFound =>
      match Create db nodeID None with
      | (db', inl stats) => (db', inl stats)
      | (db', inr e) => (db', inr (ErrDB e))
      end
  | getStats => (db, getStats)
  end.

(** The state of the loop of [UpdateBatch]. *)
Record Batch : Type := mkBatch {
  batch_db : gmap NodeID Node;
  nodeStatsList : list NodeStats;
  allErrors : list db_error;
  failedUpdateReqs : list UpdateRequest
}.

Definition UpdateBatch_step (b : Batch) (updateReq : UpdateRequest) : Batch :=
  match UpdateStats (batch_db b) updateReq with
  | (db', inr err) =>
      mkBatch db' (nodeStatsList b) (allErrors b ++ [err]) (failedUpdateReqs b ++ [updateReq])
  | (db', inl nodeStats) =>
      mkBatch db' (nodeStatsList b ++ [nodeStats]) (allErrors b) (failedUpdateReqs b)
  end.

(** [UpdateBatch]: the table afterwards, the stats of the updated nodes,
    the requests that failed, and the errors combined (none is nil). *)
Definition UpdateBatch (db : gmap NodeID Node) (updateReqList : list UpdateRequest)
    : gmap NodeID Node * (list NodeStats * list UpdateRequest * list db_error) :=
  let b := fold_left UpdateBatch_step updateReqList (mkBatch db [] [] []) in
  match allErrors b with
  | [] => (batch_db b, (nodeStatsList b, [], []))
  | _ :: _ => (batch_db b, (nodeStatsList b, failedUpdateReqs b, allErrors b))
  end.

Section FindInvalidNodes.

(** [<] on [double precision] values, as the database compares them. *)
Variable sql_lt : float -> float -> bool.

(** The [WHERE] clause of [findInvalidNodesQuery]. *)
Definition invalid_row (nodeIds : list NodeID) (auditSuccess uptime : float) (n : Node) : bool :=
  bool_decide (Id n ∈ nodeIds)
  && (TotalAuditCount n >? 0)
  && (TotalUptimeCount n >? 0)
  && (sql_lt (AuditSuccessRatio n) auditSuccess || sql_lt (UptimeRatio n) uptime).

(** [FindInvalidNodes]: the query text is built with
    [strings.Repeat(", ?", len(nodeIds)-1)], which panics on a negative
    count; the rows come in the order of the table. *)
Definition FindInvalidNodes (db : gmap NodeID Node) (nodeIDs : list NodeID) (maxStats : NodeStats)
    : outcome (list NodeID) :=
  match nodeIDs with
  | [] => Panics
  | _ :: _ =>
      Returns (Id <$> List.filter
                 (invalid_row nodeIDs (NS_AuditSuccessRatio maxStats) (NS_UptimeRatio maxStats))
                 (map_to_list db).*2)
  end.

End FindInvalidNodes.

(** Every row is stored under its own id. *)
Definition keyed_by_id (db : gmap NodeID Node) : Prop :=
  forall nodeID row, db !! nodeID = Some row -> Id row = nodeID.

End OverlayMore.

(** *** Settlement: expiry and uplink statistics *)

Module BandwidthMore.
Import Bandwidth.

(** [bwagreement.SavedOrder] has the columns of a row. *)
Definition GetExpired (t : table) (before expiredAt : Z) : list Row :=
  List.filter (fun r => (created_at r <? before) && (expires_at r <? expiredAt)) t.

Definition DeleteExpired (t : table) (before expiredAt : Z) : table :=
  List.filter (fun r => negb ((created_at r <? before) && (expires_at r <? expiredAt))) t.

(** [bwagreement.UplinkStat] *)
Record UplinkStat : Type := mkUplinkStat {
  US_NodeID : NodeID;
  TotalBytes : Z;
  PutActionCount : Z;
  GetActionCount : Z;
  TotalTransactions : Z
}.

(** [COUNT(CASE WHEN action = a THEN total ELSE null END)] *)
Definition count_action (rows : list Row) (a : BandwidthAction) : Z :=
  Z.of_nat (length (List.filter (fun r => action r =? action_value a) rows)).

Definition sum_total (rows : list Row) : Z :=
  foldr (fun r acc => total r + acc) 0 rows.

Definition uplink_rows (t : table) (from to : Z) (uplink : NodeID) : list Row :=
  List.filter (fun r => in_window from to r && bool_decide (uplink_id r = uplink)) t.

(** [GROUP BY uplink_id ORDER BY uplink_id]: the uplinks of the window,
    each once, in ascending order. *)
Definition uplinks (t : table) (from to : Z) : list NodeID :=
  merge_sort Z.le (remove_dups (uplink_id <$> List.filter (in_window from to) t)).

(** [SUM(total)] of a group stays within [int64] in whatever order the
    rows are added. *)
Definition total_fits (rows : list Row) : bool :=
  (Int64.min_int64 <=? sum_total (List.filter (fun r => total r <? 0) rows))
  && (sum_total (List.filter (fun r => 0 <? total r) rows) <=? Int64.max_int64).

(** The records that the loop over the rows of the query appends. *)
Definition collect_stats (t : table) (from to : Z) : list UplinkStat :=
  (fun uplink =>
     let rows := uplink_rows t from to uplink in
     mkUplinkStat uplink (sum_total rows) (count_action rows PUT) (count_action rows GET)
       (Z.of_nat (length rows)))
    <$> uplinks t from to.

(** [GetUplinkStats].  As for [GetTotals], the sum of the bytes of an
    uplink is scanned into an [int64]; when it can leave that range the
    outcome is that of the database, and is [None] here. *)
Definition GetUplinkStats (t : table) (from to : Z) : option (list UplinkStat) :=
  if forallb (fun uplink => total_fits (uplink_rows t from to uplink)) (uplinks t from to)
  then Some (collect_stats t from to)
  else None.

(** The calls that change the table. *)
Inductive call : Type :=
| Save (now : Z) (rba : Order)
| Sweep (before expiredAt : Z).

(** A run of [SaveOrder] and [DeleteExpired] calls, one after the other,
    the orders accepted or refused. *)
Definition run (NodeID_String : NodeID -> string) (t : table) (calls : list call) : table :=
  fold_left
    (fun t c =>
       match c with
       | Save now rba => (SaveOrder NodeID_String now t rba).1
       | Sweep before expiredAt => DeleteExpired t before expiredAt
       end)
    calls t.

End BandwidthMore.

(** *** The repair queue: peeking and draining *)

Module RepairQueueMore.
Import RepairQueue.

Section Peek.

Context `{Codec}.

(** [storage.LookupLimit] *)
Variable LookupLimit : Z.

Fixpoint unmarshal_all (entries : list Row) (segments : list InjuredSegment)
    : list InjuredSegment + queue_error :=
  match entries with
  | [] => inl segments
  | entry :: rest =>
      match Unmarshal (info entry) with
      | None => inr ErrUnmarshal
      | Some seg => unmarshal_all rest (segments ++ [seg])
      end
  end.

(** [Peekqueue]: [Limited_Injuredsegment(limit, 0)] reads the first
    [limit] rows. *)
Definition Peekqueue (q : Queue) (limit : Z) : list InjuredSegment + queue_error :=
  let limit := if (limit <=? 0) || (limit >? LookupLimit) then LookupLimit else limit in
  unmarshal_all (take (Z.to_nat limit) (rows q)) [].

End Peek.

(** [n] calls of [Dequeue], stopping at the first error: the queue that
    is left and the segments handed out. *)
Fixpoint drain `{Codec} (n : nat) (q : Queue)
    : Queue * list InjuredSegment * option queue_error :=
  match n with
  | O => (q, [], None)
  | S n' =>
      match Dequeue q with
      | (q', inr e) => (q', [], Some e)
      | (q', inl seg) =>
          let '(q'', segs, e) := drain n' q' in
          (q'', seg :: segs, e)
      end
  end.

(** The segments of a list without those seen before: of a segment that
    occurs more than once the first occurrence stays. *)
Fixpoint first_occurrences (seen segs : list InjuredSegment) : list InjuredSegment :=
  match segs with
  | [] => []
  | seg :: rest =>
      if bool_decide (seg ∈ seen) then first_occurrences seen rest
      else seg :: first_occurrences (seg :: seen) rest
  end.

End RepairQueueMore.

(** *** The overlay cache: node information *)

(** The table [overlay_cache_nodes], keyed by its primary key [node_id],
    on a database that answers every statement. *)
Module OverlayCache.

(** [pb.NodeAddress], [pb.NodeMetadata], [pb.NodeRestrictions] and
    [pb.NodeStats], with the fields that the cache stores. *)
Record NodeAddress : Type := mkNodeAddress {
  Transport : Z;
  NA_Address : string
}.

Record NodeMetadata : Type := mkNodeMetadata {
  NM_Email : string;
  NM_Wallet : string
}.

Record NodeRestrictions : Type := mkNodeRestrictions {
  NR_FreeBandwidth : Z;
  NR_FreeDisk : Z
}.

Record Reputation : Type := mkReputation {
  R_NodeId : NodeID;
  Latency_90 : Z;
  R_AuditSuccessRatio : float;
  R_UptimeRatio : float;
  R_AuditCount : Z;
  R_AuditSuccessCount : Z;
  R_UptimeCount : Z;
  R_UptimeSuccessCount : Z
}.

(** [pb.Node]: the four messages are pointers, nil is [None]. *)
Record pb_Node : Type := mk_pb_Node {
  N_Id : NodeID;
  N_Type : Z;
  N_Address : option NodeAddress;
  N_Metadata : option NodeMetadata;
  N_Restrictions : option NodeRestrictions;
  N_Reputation : option Reputation
}.

(** A row of [overlay_cache_nodes] ([dbx.OverlayCacheNode]). *)
Record OverlayCacheNode : Type := mkOverlayCacheNode {
  NodeId : NodeID;
  NodeType : Z;
  Address : string;
  Protocol : Z;
  OperatorEmail : string;
  OperatorWallet : string;
  FreeBandwidth : Z;
  FreeDisk : Z;
  Latency90 : Z;
  AuditSuccessRatio : float;
  AuditUptimeRatio : float;
  AuditCount : Z;
  AuditSuccessCount : Z;
  UptimeCount : Z;
  UptimeSuccessCount : Z
}.

Inductive cache_error : Type :=
| ErrEmptyNode
| ErrNodeNotFound
| ErrMissingInfo.

(** [storj.NodeID.IsZero]: the id whose bytes are all zero. *)
Definition IsZero (id : NodeID) : bool := id =? 0.

(** [convertOverlayNode]; the id of a stored row was written from a node
    id, so [storj.NodeIDFromBytes] reads it back. *)
Definition convertOverlayNode (info : option OverlayCacheNode) : pb_Node + cache_error :=
  match info with
  | None => inr ErrMissingInfo
  | Some info =>
      let id := NodeId info in
      inl (mk_pb_Node id (NodeType info)
             (if bool_decide (Address info = "") then None
              else Some (mkNodeAddress (Protocol info) (Address info)))
             (if bool_decide (OperatorEmail info = "")
                 && bool_decide (OperatorWallet info = "")
              then None
              else Some (mkNodeMetadata (OperatorEmail info) (OperatorWallet info)))
             (if (FreeBandwidth info <? 0) && (FreeDisk info <? 0) then None
              else Some (mkNodeRestrictions (FreeBandwidth info) (FreeDisk info)))
             (if Latency90 info <? 0 then None
              else Some (mkReputation id (Latency90 info) (AuditSuccessRatio info)
                           (AuditUptimeRatio info) (AuditCount info) (AuditSuccessCount info)
                           (UptimeCount info) (UptimeSuccessCount info))))
  end.

(** [Get]: the row of the id, converted. *)
Definition Get (db : gmap NodeID OverlayCacheNode) (id : NodeID) : pb_Node + cache_error :=
  if IsZero id then inr ErrEmptyNode
  else
    match db !! id with
    | None => inr ErrNodeNotFound
    | Some node => convertOverlayNode (Some node)
    end.

(** [Update]: a node without row gets one, with defaults for the messages
    that are nil; the row of a stored node is updated, and there the
    reputation is read through [info.Reputation] itself, which panics when
    it is nil. *)
Definition Update (db : gmap NodeID OverlayCacheNode) (info : option pb_Node)
    : outcome (gmap NodeID OverlayCacheNode * option cache_error) :=
  match info with
  | None => Returns (db, Some ErrEmptyNode)
  | Some info =>
      if IsZero (N_Id info) then Returns (db, Some ErrEmptyNode)
      else
        let address := default (mkNodeAddress 0 "") (N_Address info) in
        let metadata := default (mkNodeMetadata "" "") (N_Metadata info) in
        let restrictions := default (mkNodeRestrictions (-1) (-1)) (N_Restrictions info) in
        let reputation := default (mkReputation 0 0 0 0 0 0 0 0) (N_Reputation info) in
        match db !! N_Id info with
        | None =>
            Returns
              (<[N_Id info :=
                   mkOverlayCacheNode (N_Id info) (N_Type info) (NA_Address address)
                     (Transport address) (NM_Email metadata) (NM_Wallet metadata)
                     (NR_FreeBandwidth restrictions) (NR_FreeDisk restrictions)
                     (Latency_90 reputation) (R_AuditSuccessRatio reputation)
                     (R_UptimeRatio reputation) (R_AuditCount reputation)
                     (R_AuditSuccessCount reputation) (R_UptimeCount reputation)
                     (R_UptimeSuccessCount reputation)]> db, None)
        | Some row =>
            match N_Reputation info with
            | None => Panics
            | Some stats =>
                let operator :=
                  match N_Metadata info with
                  | Some metadata => (NM_Email metadata, NM_Wallet metadata)
                  | None => (OperatorEmail row, OperatorWallet row)
                  end in
                let free :=
                  match N_Restrictions info with
                  | Some _ => (NR_FreeBandwidth restrictions, NR_FreeDisk restrictions)
                  | None => (FreeBandwidth row, FreeDisk row)
                  end in
                Returns
                  (<[N_Id info :=
                       mkOverlayCacheNode (NodeId row) (NodeType row) (NA_Address address)
                         (Transport address) operator.1 operator.2 free.1 free.2
                         (Latency_90 stats) (R_AuditSuccessRatio stats) (R_UptimeRatio stats)
                         (R_AuditCount stats) (R_AuditSuccessCount stats) (R_UptimeCount stats)
                         (R_UptimeSuccessCount stats)]> db, None)
            end
        end
  end.

End OverlayCache.

(** *** More scenarios *)

Module ScenariosMore.
Import Audit Scenarios.

(** A segment whose scheme has an erasure share size of zero. *)
Definition pointer_no_stripes : Pointer :=
  mkPointer (mkRedundancyScheme 2 4 2 3 0) 900 (RemotePieces pointer_2_of_4) 2 1000.

Definition world_no_stripes : VerifyWorld :=
  mkVerifyWorld (Ok pointer_no_stripes) 5 (Ok (limits_of [11; 12; 13; 14]))
    (fun _ _ _ => serves [Byte.x2a]) (Ok pointer_no_stripes) (fun _ => None).

(** [Reverify] of the segment of the scenarios when no node is contained. *)
Definition world_uncontained : ReverifyWorld :=
  mkReverifyWorld pointers (fun _ => Err ErrContainedNotFound)
    (fun _ => Err ErrContainedNotFound)
    (fun node _ _ _ => Ok (mkLimit node (500 + node)))
    (fun _ _ _ => serves [Byte.x2a])
    pointers (fun _ => None).

(** Node 14 is contained for a share of the segment and now serves other
    bytes than those expected. *)
Definition world_wrong_share : ReverifyWorld :=
  mkReverifyWorld pointers containment containment
    (fun _ _ _ _ => Ok (mkLimit 14 514))
    (fun _ _ _ => serves [Byte.xff])
    pointers (fun _ => None).

End ScenariosMore.

(** * Properties *)

(** ** Machine integers *)

Module Int64Facts.
Import Int64.

Lemma wrap_in_range z : in_range (wrap z).
Proof.
  unfold in_range, wrap, min_int64, max_int64.
  pose proof (Z.mod_pos_bound (z + 2 ^ 63) (2 ^ 64) ltac:(lia)). lia.
Qed.

Lemma wrap_small z : in_range z -> wrap z = z.
Proof.
  unfold in_range, wrap, min_int64, max_int64. intros Hz.
  rewrite Z.mod_small; lia.
Qed.

Lemma incr_small z : min_int64 <= z < max_int64 -> incr z = z + 1.
Proof.
  unfold incr, min_int64, max_int64. intros Hz.
  apply wrap_small. unfold in_range, min_int64, max_int64. lia.
Qed.

Lemma incr_max : incr max_int64 = min_int64.
Proof. reflexivity. Qed.

End Int64Facts.

(** ** The audit verifier *)

Module AuditProofs.
Import Audit.

Section Classification.

Implicit Types (b : Buckets) (l : list (Z * Share)) (k : Z) (s : Share) (n : NodeID).

(** What one iteration does to each of the four accumulators, by the
    outcome conditions. *)
Lemma classify_step_offline b k s :
  offlineNodes (classify_step b (k, s)) =
    match Error s with
    | Some e => if goes_offline e then offlineNodes b ++ [Share_NodeID s] else offlineNodes b
    | None => offlineNodes b
    end.
Proof.
  unfold classify_step, classify_tail, goes_offline.
  destruct (Error s) as [e|]; [|done].
  destruct (rpc_Error_Has e), (Is_context_DeadlineExceeded e), (IsRPC e Unknown),
    (IsRPC e NotFound), (IsRPC e DeadlineExceeded); done.
Qed.

Lemma classify_step_failed b k s :
  failedNodes (classify_step b (k, s)) =
    match Error s with
    | Some e => if goes_failed e then failedNodes b ++ [Share_NodeID s] else failedNodes b
    | None => failedNodes b
    end.
Proof.
  unfold classify_step, classify_tail, goes_failed, goes_offline.
  destruct (Error s) as [e|]; [|done].
  destruct (rpc_Error_Has e), (Is_context_DeadlineExceeded e), (IsRPC e Unknown),
    (IsRPC e NotFound), (IsRPC e DeadlineExceeded); done.
Qed.

Lemma classify_step_contained b k s :
  containedNodes (classify_step b (k, s)) =
    match Error s with
    | Some e => if goes_contained e then <[k := Share_NodeID s]> (containedNodes b)
                else containedNodes b
    | None => containedNodes b
    end.
Proof.
  unfold classify_step, classify_tail, goes_contained, goes_offline.
  destruct (Error s) as [e|]; [|done].
  destruct (rpc_Error_Has e), (Is_context_DeadlineExceeded e), (IsRPC e Unknown),
    (IsRPC e NotFound), (IsRPC e DeadlineExceeded); simpl;
    rewrite ?insert_insert_eq; done.
Qed.

Lemma classify_step_candidates b k s :
  sharesToAudit (classify_step b (k, s)) =
    match Error s with
    | Some _ => sharesToAudit b
    | None => <[k := s]> (sharesToAudit b)
    end.
Proof.
  unfold classify_step, classify_tail.
  destruct (Error s) as [e|]; [|done].
  repeat case_match; done.
Qed.

(** The loop over a list of entries.  The two list buckets grow in the
    same way, each under its own condition; one script proves both. *)
Ltac list_bucket_fold IH step_eq :=
  let Hn := fresh "Hn" in
  let Hin := fresh "Hin" in
  let He := fresh "He" in
  let Hg := fresh "Hg" in
  rewrite IH, step_eq; split;
  [ intros [Hn|(k' & s' & e & Hin & ?)];
    [ match goal with
      | Hn : context [Error ?s] |- _ => destruct (Error s) as [e|] eqn:He; [|auto]
      end;
      match type of Hn with
      | context [if ?g then _ else _] => destruct g eqn:Hg; [|auto]
      end;
      apply elem_of_app in Hn as [?|Hn]; [auto|];
      apply list_elem_of_singleton in Hn; right;
      match goal with
      | He : Error ?s = Some ?e |- context [(?k, ?s) :: _] => exists k, s, e
      end;
      rewrite elem_of_cons; auto
    | right; exists k', s', e; rewrite elem_of_cons; auto ]
  | intros [Hn|(k' & s' & e & Hin & He & Hg & ?)];
    [ left; repeat case_match; [apply elem_of_app|..]; auto
    | apply elem_of_cons in Hin as [[= -> ->]|Hin];
      [ left; rewrite He, Hg; apply elem_of_app; right; by apply list_elem_of_singleton
      | right; eauto 10 ] ] ].

Lemma fold_offline l b n :
  n ∈ offlineNodes (fold_left classify_step l b) <->
  n ∈ offlineNodes b \/
  exists k s e, (k, s) ∈ l /\ Error s = Some e /\ goes_offline e = true /\ Share_NodeID s = n.
Proof.
  revert b. induction l as [|[k s] l IH]; intros b; cbn [fold_left].
  - split; [auto|]. intros [?|(?&?&?&Hin&_)]; [done|]. by apply elem_of_nil in Hin.
  - list_bucket_fold IH classify_step_offline.
Qed.

Lemma fold_failed l b n :
  n ∈ failedNodes (fold_left classify_step l b) <->
  n ∈ failedNodes b \/
  exists k s e, (k, s) ∈ l /\ Error s = Some e /\ goes_failed e = true /\ Share_NodeID s = n.
Proof.
  revert b. induction l as [|[k s] l IH]; intros b; cbn [fold_left].
  - split; [auto|]. intros [?|(?&?&?&Hin&_)]; [done|]. by apply elem_of_nil in Hin.
  - list_bucket_fold IH classify_step_failed.
Qed.

Lemma fold_candidates l b :
  NoDup l.*1 ->
  sharesToAudit (fold_left classify_step l b) =
    filter (fun kv => no_error kv.2 = true) (list_to_map l : gmap Z Share) ∪ sharesToAudit b.
Proof.
  revert b. induction l as [|[k s] l IH]; intros b Hnd; cbn [fold_left].
  - by rewrite list_to_map_nil, map_filter_empty, (left_id_L ∅ (∪)).
  - rewrite fmap_cons in Hnd. apply NoDup_cons in Hnd as [Hk Hnd]. simpl in Hk.
    assert ((list_to_map l : gmap Z Share) !! k = None) as Hnone
      by (by apply not_elem_of_list_to_map_1).
    rewrite IH, classify_step_candidates, list_to_map_cons by done.
    destruct (Error s) as [e|] eqn:He.
    + rewrite map_filter_insert_False by (unfold no_error; simpl; by rewrite He).
      by rewrite delete_id.
    + rewrite map_filter_insert_True by (unfold no_error; simpl; by rewrite He).
      rewrite <- insert_union_l. symmetry. apply insert_union_r.
      by apply map_lookup_filter_None_2; left.
Qed.

Lemma fold_contained l b :
  NoDup l.*1 ->
  containedNodes (fold_left classify_step l b) =
    (Share_NodeID <$> filter (fun kv => contained_error kv.2 = true) (list_to_map l : gmap Z Share))
      ∪ containedNodes b.
Proof.
  revert b. induction l as [|[k s] l IH]; intros b Hnd; cbn [fold_left].
  - by rewrite list_to_map_nil, map_filter_empty, fmap_empty, (left_id_L ∅ (∪)).
  - rewrite fmap_cons in Hnd. apply NoDup_cons in Hnd as [Hk Hnd]. simpl in Hk.
    assert ((list_to_map l : gmap Z Share) !! k = None) as Hnone
      by (by apply not_elem_of_list_to_map_1).
    rewrite IH, classify_step_contained, list_to_map_cons by done.
    unfold contained_error at 2.
    destruct (Error s) as [e|] eqn:He; [destruct (goes_contained e) eqn:Hg|].
    + rewrite map_filter_insert_True by (unfold contained_error; simpl; by rewrite He).
      rewrite fmap_insert, <- insert_union_l. symmetry. apply insert_union_r.
      rewrite lookup_fmap, map_lookup_filter_None_2; [done|by left].
    + rewrite map_filter_insert_False by (unfold contained_error; simpl; rewrite He; congruence).
      by rewrite delete_id.
    + rewrite map_filter_insert_False by (unfold contained_error; simpl; by rewrite He).
      by rewrite delete_id.
Qed.

(** *** The four buckets after the loop, for the map of downloaded shares *)

Lemma classify_candidates offline (shares : gmap Z Share) :
  sharesToAudit (classify (empty_Buckets offline) shares) = candidates shares.
Proof.
  unfold classify. rewrite fold_candidates by apply NoDup_fst_map_to_list.
  simpl. by rewrite list_to_map_to_list, (right_id_L ∅ (∪)).
Qed.

Lemma classify_contained offline (shares : gmap Z Share) :
  containedNodes (classify (empty_Buckets offline) shares) =
    Share_NodeID <$> filter (fun kv => contained_error kv.2 = true) shares.
Proof.
  unfold classify. rewrite fold_contained by apply NoDup_fst_map_to_list.
  simpl. by rewrite list_to_map_to_list, (right_id_L ∅ (∪)).
Qed.

Lemma classify_offline offline (shares : gmap Z Share) n :
  n ∈ offlineNodes (classify (empty_Buckets offline) shares) <->
  n ∈ offline \/
  exists k s e, shares !! k = Some s /\ Error s = Some e /\ goes_offline e = true
                /\ Share_NodeID s = n.
Proof.
  unfold classify. rewrite fold_offline. simpl.
  by setoid_rewrite elem_of_map_to_list.
Qed.

Lemma classify_failed offline (shares : gmap Z Share) n :
  n ∈ failedNodes (classify (empty_Buckets offline) shares) <->
  exists k s e, shares !! k = Some s /\ Error s = Some e /\ goes_failed e = true
                /\ Share_NodeID s = n.
Proof.
  unfold classify. rewrite fold_failed. simpl.
  setoid_rewrite elem_of_map_to_list. split; [|auto].
  intros [Hn|?]; [|done]. by apply elem_of_nil in Hn.
Qed.

End Classification.

(** Membership in a list filtered by a boolean test. *)
Lemma elem_of_List_filter {A} (f : A -> bool) (l : list A) (x : A) :
  x ∈ List.filter f l <-> x ∈ l /\ f x = true.
Proof. rewrite !list_elem_of_In. apply filter_In. Qed.

Lemma bytes_Equal_false (a b : bytes) : negb (bytes_Equal a b) = true <-> a <> b.
Proof.
  unfold bytes_Equal. rewrite negb_true_iff, bool_decide_eq_false. done.
Qed.

Lemma candidates_lookup (shares : gmap Z Share) k s :
  candidates shares !! k = Some s <-> shares !! k = Some s /\ Error s = None.
Proof.
  unfold candidates. rewrite map_lookup_filter_Some. simpl. unfold no_error.
  destruct (Error s); split; intros [? ?]; done.
Qed.

Lemma removeFailedPieces_updates update path pointer failed :
  (removeFailedPieces update path pointer failed).2 =
    match failed with
    | [] => []
    | _ :: _ => [mkUpdatePiecesCall path pointer [] (toRemove pointer failed)]
    end.
Proof. by destruct failed. Qed.

Lemma elem_of_toRemove pointer failed piece :
  piece ∈ toRemove pointer failed <-> piece ∈ RemotePieces pointer /\ NodeId piece ∈ failed.
Proof. unfold toRemove. rewrite elem_of_List_filter, bool_decide_eq_true. done. Qed.

Section Verify.

Context `{Libraries}.

Implicit Types (w : VerifyWorld) (pointer : Pointer) (skip : gmap NodeID bool).

(** [GetShare] returns for a share size that is not negative, so no
    goroutine of [DownloadShares] panics. *)
Lemma GetShare_returns download limit stripeIndex shareSize pieceNum :
  0 <= shareSize ->
  GetShare download limit stripeIndex shareSize pieceNum =
    Returns match download limit (Int64.wrap (shareSize * stripeIndex)) shareSize with
            | inl e => inl e
            | inr buf => inr (mkShare None pieceNum (StorageNodeId limit) buf)
            end.
Proof.
  intros Hsize. unfold GetShare, make_bytes.
  rewrite (proj2 (Z.ltb_ge shareSize 0)) by done. by destruct (download _ _ _).
Qed.

Lemma DownloadShares_returns download limits stripeIndex shareSize :
  0 <= shareSize -> DownloadShares_panics download limits stripeIndex shareSize = false.
Proof.
  intros Hsize. unfold DownloadShares_panics. generalize 0.
  induction limits as [|[limit|] limits IH]; intros i; simpl; [done| |apply IH].
  rewrite GetShare_returns by done. apply IH.
Qed.

(** The run of [Verify] up to the classification loop. *)
Lemma Verify_reaches_classification w path skip pointer randomIndex limits newPointer :
  metainfo_Get w = Ok pointer ->
  0 <= ErasureShareSize (Redundancy pointer) ->
  GetRandomStripe (random_draw w) pointer = Returns (Ok randomIndex) ->
  CreateAuditOrderLimits w = Ok limits ->
  checkIfSegmentAltered (metainfo_Get_again w) path (Some pointer) = Ok newPointer ->
  Verify w path skip =
    Verify_classified w path pointer randomIndex (getOfflineNodes pointer limits skip)
      (DownloadShares (piecestore_Download w) limits randomIndex
         (ErasureShareSize (Redundancy pointer))).
Proof.
  intros Hget Hsize Hstripe Hlimits Hcheck. unfold Verify.
  by rewrite Hget, Hstripe, Hlimits, DownloadShares_returns, Hcheck.
Qed.

(** C2. When fewer than [k] shares were downloaded without error, [Verify]
    returns the error [ErrNotEnoughShares] and a report that has the
    offline nodes (those without an order limit and those that could not
    be dialed) and the failed nodes (those that answered not found), no
    success and no pending audit; no pointer update is issued.  The
    erasure share size of the pointer is not negative, so that the
    downloads return. *)
Theorem Verify_not_enough_shares w path skip pointer randomIndex limits newPointer :
  metainfo_Get w = Ok pointer ->
  0 <= ErasureShareSize (Redundancy pointer) ->
  GetRandomStripe (random_draw w) pointer = Returns (Ok randomIndex) ->
  CreateAuditOrderLimits w = Ok limits ->
  checkIfSegmentAltered (metainfo_Get_again w) path (Some pointer) = Ok newPointer ->
  let shares := DownloadShares (piecestore_Download w) limits randomIndex
                  (ErasureShareSize (Redundancy pointer)) in
  let got := Z.of_nat (size (candidates shares)) in
  got < MinReq (Redundancy pointer) ->
  exists report,
    Verify w path skip =
      Returned (mkVerifyReturn (Some report)
                  (Some (ErrNotEnoughShares got (MinReq (Redundancy pointer)))) [])
    /\ Successes report = []
    /\ PendingAudits report = []
    /\ (forall n, n ∈ Offlines report <->
          n ∈ getOfflineNodes pointer limits skip \/
          exists k s e, shares !! k = Some s /\ Error s = Some e /\ goes_offline e = true
                        /\ Share_NodeID s = n)
    /\ (forall n, n ∈ Fails report <->
          exists k s e, shares !! k = Some s /\ Error s = Some e /\ goes_failed e = true
                        /\ Share_NodeID s = n).
Proof.
  intros Hget Hsize Hstripe Hlimits Hcheck shares got Hfew.
  rewrite (Verify_reaches_classification _ _ _ _ _ _ _ Hget Hsize Hstripe Hlimits Hcheck).
  fold shares. unfold Verify_classified.
  rewrite classify_candidates. fold got.
  apply Z.ltb_lt in Hfew. rewrite Hfew.
  eexists. split; [reflexivity|]. simpl.
  repeat split; try apply classify_offline; try apply classify_failed.
Qed.

(** C3. When the pointer read after the download is gone, or carries
    another creation date than the one the audit started from, [Verify]
    ends with [ErrSegmentDeleted]; its report has the nodes that got no
    order limit as offline and nothing else: no success, no failure, no
    pending audit, and no pointer update is issued.  The erasure share
    size of the pointer is not negative, so that the downloads, which
    come before the second read, return. *)
Theorem Verify_segment_altered w path skip pointer randomIndex limits :
  metainfo_Get w = Ok pointer ->
  0 <= ErasureShareSize (Redundancy pointer) ->
  GetRandomStripe (random_draw w) pointer = Returns (Ok randomIndex) ->
  CreateAuditOrderLimits w = Ok limits ->
  (metainfo_Get_again w = Err ErrKeyNotFound \/
   exists newPointer, metainfo_Get_again w = Ok newPointer
                      /\ CreationDate newPointer <> CreationDate pointer) ->
  Verify w path skip =
    Returned (mkVerifyReturn
                (Some (mkReport [] [] (getOfflineNodes pointer limits skip) []))
                (Some (ErrSegmentDeleted path)) []).
Proof.
  intros Hget Hsize Hstripe Hlimits Haltered. unfold Verify.
  rewrite Hget, Hstripe, Hlimits, DownloadShares_returns by done.
  destruct Haltered as [Hgone|(newPointer & Hagain & Hdate)].
  - by rewrite Hgone.
  - rewrite Hagain. simpl. rewrite bool_decide_eq_true_2; [done|congruence].
Qed.

(** What [auditShares] returns when it returns no error: the corrected
    shares of [Correct], and the piece numbers of those among them whose
    data differ from the download. *)
Lemma auditShares_Ok required total (originals : gmap Z Share) pieceNums corrected :
  auditShares required total originals = Ok (pieceNums, corrected) ->
  pieceNums = altered originals corrected
  /\ exists f, NewFEC required total = Ok f /\ Correct f (makeCopies originals) = Ok corrected.
Proof.
  unfold auditShares. destruct (NewFEC required total) as [f|]; [|discriminate].
  destruct (Correct f (makeCopies originals)) as [copies|] eqn:Hcorrect; [|discriminate].
  intros [= <- <-]. eauto.
Qed.

(** The run of [Verify] in which [auditShares] returns the corrected
    shares. *)
Lemma Verify_audit_succeeds w path skip pointer randomIndex limits newPointer pieceNums corrected :
  metainfo_Get w = Ok pointer ->
  0 <= ErasureShareSize (Redundancy pointer) ->
  GetRandomStripe (random_draw w) pointer = Returns (Ok randomIndex) ->
  CreateAuditOrderLimits w = Ok limits ->
  checkIfSegmentAltered (metainfo_Get_again w) path (Some pointer) = Ok newPointer ->
  let shares := DownloadShares (piecestore_Download w) limits randomIndex
                  (ErasureShareSize (Redundancy pointer)) in
  MinReq (Redundancy pointer) <= Z.of_nat (size (candidates shares)) ->
  auditShares (MinReq (Redundancy pointer)) (Total (Redundancy pointer)) (candidates shares) =
    Ok (pieceNums, corrected) ->
  exists successes failed offlines contained,
    let updates :=
      match failed with
      | [] => []
      | _ :: _ => [mkUpdatePiecesCall path pointer [] (toRemove pointer failed)]
      end in
    Verify w path skip =
      match createPendingAudits contained corrected pointer randomIndex path with
      | Panics => Panicked updates
      | Returns (Err e) =>
          Returned (mkVerifyReturn (Some (mkReport successes failed offlines [])) (Some e) updates)
      | Returns (Ok pending) =>
          Returned (mkVerifyReturn (Some (mkReport successes failed offlines pending)) None updates)
      end
    /\ (forall n, n ∈ failed <->
          (exists k s e, shares !! k = Some s /\ Error s = Some e /\ goes_failed e = true
                         /\ Share_NodeID s = n) \/
          (exists c, c ∈ corrected
                     /\ Data (original_at (candidates shares) (Number c)) <> IData c
                     /\ Share_NodeID (original_at shares (Number c)) = n))
    /\ (forall c s, c ∈ corrected -> candidates shares !! Number c = Some s ->
          Data s <> IData c -> Share_NodeID s ∈ failed)
    /\ (forall piece, piece ∈ toRemove pointer failed <->
          piece ∈ RemotePieces pointer /\ NodeId piece ∈ failed).
Proof.
  intros Hget Hsize Hstripe Hlimits Hcheck shares Henough Haudit.
  rewrite (Verify_reaches_classification _ _ _ _ _ _ _ Hget Hsize Hstripe Hlimits Hcheck).
  fold shares. unfold Verify_classified.
  rewrite classify_candidates.
  apply Z.ltb_ge in Henough. rewrite Henough, Haudit.
  apply auditShares_Ok in Haudit as [-> _].
  set (b := classify _ shares).
  set (failed := failedNodes b ++ _).
  assert (forall n, n ∈ failed <->
            (exists k s e, shares !! k = Some s /\ Error s = Some e /\ goes_failed e = true
                           /\ Share_NodeID s = n) \/
            (exists c, c ∈ corrected
                       /\ Data (original_at (candidates shares) (Number c)) <> IData c
                       /\ Share_NodeID (original_at shares (Number c)) = n)) as Hfailed.
  { intros n. unfold failed, altered_nodes, altered. rewrite elem_of_app.
    unfold b. rewrite classify_failed.
    apply or_iff_compat_l.
    rewrite <- list_fmap_compose, list_elem_of_fmap.
    setoid_rewrite elem_of_List_filter. setoid_rewrite bytes_Equal_false.
    simpl. split; intros (c & ? & ? & ?); exists c; subst; auto. }
  exists (getSuccessNodes shares failed (offlineNodes b) (containedNodes b)),
    failed, (offlineNodes b), (containedNodes b).
  cbv zeta. rewrite removeFailedPieces_updates.
  split; [reflexivity|]. split; [exact Hfailed|]. split.
  - intros c s Hc Hs Hneq. apply Hfailed. right. exists c.
    pose proof Hs as [Hs' _]%candidates_lookup.
    unfold original_at. rewrite Hs, Hs'. simpl. done.
  - intros piece. apply elem_of_toRemove.
Qed.

(** The run of [Verify] in which [auditShares] returns an error. *)
Lemma Verify_audit_fails w path skip pointer randomIndex limits newPointer e :
  metainfo_Get w = Ok pointer ->
  0 <= ErasureShareSize (Redundancy pointer) ->
  GetRandomStripe (random_draw w) pointer = Returns (Ok randomIndex) ->
  CreateAuditOrderLimits w = Ok limits ->
  checkIfSegmentAltered (metainfo_Get_again w) path (Some pointer) = Ok newPointer ->
  let shares := DownloadShares (piecestore_Download w) limits randomIndex
                  (ErasureShareSize (Redundancy pointer)) in
  MinReq (Redundancy pointer) <= Z.of_nat (size (candidates shares)) ->
  auditShares (MinReq (Redundancy pointer)) (Total (Redundancy pointer)) (candidates shares) =
    Err e ->
  exists failed offlines,
    Verify w path skip =
      Returned (mkVerifyReturn (Some (mkReport [] failed offlines [])) (Some e) [])
    /\ (forall n, n ∈ failed <->
          exists k s e, shares !! k = Some s /\ Error s = Some e /\ goes_failed e = true
                        /\ Share_NodeID s = n).
Proof.
  intros Hget Hsize Hstripe Hlimits Hcheck shares Henough Haudit.
  rewrite (Verify_reaches_classification _ _ _ _ _ _ _ Hget Hsize Hstripe Hlimits Hcheck).
  fold shares. unfold Verify_classified.
  rewrite classify_candidates.
  apply Z.ltb_ge in Henough. rewrite Henough, Haudit.
  eexists _, _. split; [reflexivity|]. intros n. apply classify_failed.
Qed.

(** C4, as the code has it.  With at least [k] shares downloaded without
    error, [auditShares] runs [Correct] on them.  When it returns the
    corrected shares, the nodes [Verify] reports as failed are the nodes
    that answered not found and the nodes of the shares whose data differ
    from the corrected data, so every candidate that differs from its
    corrected share is among them; and unless no node failed, one call of
    [UpdatePieces] is issued, for the segment and the pointer the audit
    read, adding nothing and removing the pieces of the pointer that sit
    on a failed node.  When it returns an error, [Verify] returns that
    error with the nodes that answered not found as failed and issues no
    call of [UpdatePieces].  The erasure share size of the pointer is not
    negative, so that the downloads return. *)
Theorem Verify_removes_altered w path skip pointer randomIndex limits newPointer :
  metainfo_Get w = Ok pointer ->
  0 <= ErasureShareSize (Redundancy pointer) ->
  GetRandomStripe (random_draw w) pointer = Returns (Ok randomIndex) ->
  CreateAuditOrderLimits w = Ok limits ->
  checkIfSegmentAltered (metainfo_Get_again w) path (Some pointer) = Ok newPointer ->
  let shares := DownloadShares (piecestore_Download w) limits randomIndex
                  (ErasureShareSize (Redundancy pointer)) in
  MinReq (Redundancy pointer) <= Z.of_nat (size (candidates shares)) ->
  match auditShares (MinReq (Redundancy pointer)) (Total (Redundancy pointer))
          (candidates shares) with
  | Ok (pieceNums, corrected) =>
      exists successes failed offlines contained,
        let updates :=
          match failed with
          | [] => []
          | _ :: _ => [mkUpdatePiecesCall path pointer [] (toRemove pointer failed)]
          end in
        Verify w path skip =
          match createPendingAudits contained corrected pointer randomIndex path with
          | Panics => Panicked updates
          | Returns (Err e) =>
              Returned (mkVerifyReturn (Some (mkReport successes failed offlines [])) (Some e)
                          updates)
          | Returns (Ok pending) =>
              Returned (mkVerifyReturn (Some (mkReport successes failed offlines pending)) None
                          updates)
          end
        /\ (forall n, n ∈ failed <->
              (exists k s e, shares !! k = Some s /\ Error s = Some e /\ goes_failed e = true
                             /\ Share_NodeID s = n) \/
              (exists c, c ∈ corrected
                         /\ Data (original_at (candidates shares) (Number c)) <> IData c
                         /\ Share_NodeID (original_at shares (Number c)) = n))
        /\ (forall c s, c ∈ corrected -> candidates shares !! Number c = Some s ->
              Data s <> IData c -> Share_NodeID s ∈ failed)
        /\ (forall piece, piece ∈ toRemove pointer failed <->
              piece ∈ RemotePieces pointer /\ NodeId piece ∈ failed)
  | Err e =>
      exists failed offlines,
        Verify w path skip =
          Returned (mkVerifyReturn (Some (mkReport [] failed offlines [])) (Some e) [])
        /\ (forall n, n ∈ failed <->
              exists k s e, shares !! k = Some s /\ Error s = Some e /\ goes_failed e = true
                            /\ Share_NodeID s = n)
  end.
Proof.
  intros Hget Hsize Hstripe Hlimits Hcheck shares Henough.
  destruct (auditShares _ _ (candidates shares)) as [[pieceNums corrected]|e] eqn:Haudit.
  - by apply (Verify_audit_succeeds w path skip pointer randomIndex limits newPointer
                pieceNums corrected).
  - by apply (Verify_audit_fails w path skip pointer randomIndex limits newPointer e).
Qed.

End Verify.

(** *** The classification table *)

(** The loop sorts a failed download as the table of the specification
    does, case by case, with one exception: an error of class [rpc.Error]
    that is neither a dial timeout nor Unknown and carries NotFound is a
    failure by the table and is both failed and contained by the loop. *)
Lemma classify_agrees_with_table (e : ShareError) :
  (goes_offline e = true <-> spec_table e = Offline)
  /\ (goes_failed e = true <-> spec_table e = Fail)
  /\ (spec_table e = Contained -> goes_contained e = true)
  /\ (goes_contained e = true ->
        spec_table e = Contained \/ (rpc_Error_Has e = true /\ spec_table e = Fail)).
Proof.
  unfold goes_failed, goes_contained, goes_offline, spec_table.
  destruct (rpc_Error_Has e), (Is_context_DeadlineExceeded e), (IsRPC e Unknown),
    (IsRPC e NotFound), (IsRPC e DeadlineExceeded); simpl;
    repeat split; intros; try discriminate; auto.
Qed.

(** The buckets of [Verify] for one downloaded share, by the row of the
    table its error falls in.  A share without error is a candidate and
    its piece is not contained.  A share with an error is no candidate;
    its node is offline or failed where the table says so, and its piece
    is contained where the table says so, and otherwise only in the case
    that [classify_agrees_with_table] singles out. *)
Theorem classify_by_table (offline : list NodeID) (shares : gmap Z Share) (k : Z) (s : Share) :
  shares !! k = Some s ->
  let b := classify (empty_Buckets offline) shares in
  match Error s with
  | None => sharesToAudit b !! k = Some s /\ containedNodes b !! k = None
  | Some e =>
      sharesToAudit b !! k = None
      /\ match spec_table e with
         | Offline => Share_NodeID s ∈ offlineNodes b /\ containedNodes b !! k = None
         | Fail => Share_NodeID s ∈ failedNodes b
                   /\ (rpc_Error_Has e = false -> containedNodes b !! k = None)
         | Contained => containedNodes b !! k = Some (Share_NodeID s)
         end
  end.
Proof.
  intros Hk b. unfold b.
  rewrite classify_candidates, classify_contained.
  assert (forall P `{!forall kv, Decision (P kv)},
             ~ P (k, s) -> (filter P shares : gmap Z Share) !! k = None) as Hout.
  { intros P ? HP. apply map_lookup_filter_None_2. right. intros s' Hs'.
    rewrite Hk in Hs'. by injection Hs' as <-. }
  assert (forall P `{!forall kv, Decision (P kv)},
             P (k, s) -> (filter P shares : gmap Z Share) !! k = Some s) as Hin.
  { intros P ? HP. by apply map_lookup_filter_Some_2. }
  destruct (Error s) as [e|] eqn:He.
  - destruct (classify_agrees_with_table e) as (Hoff & Hfail & Hcont & Hcont').
    split; [apply Hout; unfold no_error; simpl; by rewrite He|].
    destruct (spec_table e) eqn:Htable.
    + split; [apply classify_offline; right; exists k, s, e; intuition|].
      rewrite lookup_fmap, Hout; [done|].
      unfold contained_error. simpl. rewrite He. intros Hc.
      destruct (Hcont' Hc) as [?|[_ ?]]; congruence.
    + split; [apply classify_failed; exists k, s, e; intuition|].
      intros Hrpc. rewrite lookup_fmap, Hout; [done|].
      unfold contained_error. simpl. rewrite He. intros Hc.
      destruct (Hcont' Hc) as [?|[? _]]; congruence.
    + rewrite lookup_fmap, Hin; [done|].
      unfold contained_error. simpl. rewrite He. auto.
  - split; [apply Hin; unfold no_error; simpl; by rewrite He|].
    rewrite lookup_fmap, Hout; [done|].
    unfold contained_error. simpl. by rewrite He.
Qed.

(** *** The runs of [Verify] on the scenarios *)

Section Runs.

Import Scenarios.

#[local] Existing Instance repetition_code.

(** A download that timed out after the dial: the piece is contained. *)
Lemma classify_by_table_witness :
  let b := classify (empty_Buckets []) {[ 0 := mkShare (Some download_timeout) 0 11 [] ]} in
  sharesToAudit b !! 0 = None /\ containedNodes b !! 0 = Some 11.
Proof.
  exact (classify_by_table [] {[ 0 := mkShare (Some download_timeout) 0 11 [] ]} 0
           (mkShare (Some download_timeout) 0 11 []) eq_refl).
Defined.

(** C1. A node whose download ends with an error of class [rpc.Error]
    carrying NotFound is a failure by the table; [Verify] reports it as
    failed and, in the same report, holds a pending audit for it: the
    transport branch of the loop contains the node and runs on into the
    test for NotFound. *)
Theorem Verify_transport_not_found_in_two_buckets :
  spec_table transport_not_found = Fail
  /\ exists successes pending update,
       Verify world_transport_not_found segment_path ∅ =
         Returned (mkVerifyReturn (Some (mkReport successes [14] [] [pending])) None [update])
       /\ PA_NodeID pending = 14
       /\ 14 ∉ successes.
Proof.
  split; [reflexivity|].
  eexists _, _, _. split; [vm_compute; reflexivity|].
  split; [reflexivity|].
  intros Hin. repeat (apply elem_of_cons in Hin as [Hin|Hin]; [discriminate|]).
  by apply elem_of_nil in Hin.
Qed.

(** C4, counterexample. Three shares are downloaded, with [k = 2], and
    [Correct] fails on them. Node 13, which answered not found, is
    reported as failed; its piece is in the pointer, and no call of
    [UpdatePieces] is issued. *)
Lemma Verify_correct_fails_keeps_failed_pieces :
  exists e,
    Verify world_beyond_correction segment_path ∅ =
      Returned (mkVerifyReturn (Some (mkReport [] [13] [] [])) (Some e) [])
    /\ size (candidates (DownloadShares (piecestore_Download world_beyond_correction)
                           (limits_of [11; 12; 13; 14]) 0 1)) = 3%nat
    /\ mkRemotePiece 2 13 ∈ RemotePieces pointer_2_of_4.
Proof.
  eexists. split; [vm_compute; reflexivity|]. split; [vm_compute; reflexivity|].
  unfold pointer_2_of_4. simpl. rewrite !elem_of_cons. auto.
Qed.

(** C2 on the scenario with one served share, one lost share, one dial
    timeout and one node without order limit. *)
Lemma Verify_not_enough_shares_witness :
  exists report,
    Verify world_few_shares segment_path ∅ =
      Returned (mkVerifyReturn (Some report) (Some (ErrNotEnoughShares 1 2)) [])
    /\ Successes report = []
    /\ PendingAudits report = []
    /\ (forall n, n ∈ Offlines report <->
          n ∈ [14] \/
          exists k s e,
            DownloadShares (piecestore_Download world_few_shares)
              (limits_of [11; 12; 13] ++ [None]) 0 1 !! k = Some s
            /\ Error s = Some e /\ goes_offline e = true /\ Share_NodeID s = n)
    /\ (forall n, n ∈ Fails report <->
          exists k s e,
            DownloadShares (piecestore_Download world_few_shares)
              (limits_of [11; 12; 13] ++ [None]) 0 1 !! k = Some s
            /\ Error s = Some e /\ goes_failed e = true /\ Share_NodeID s = n).
Proof.
  assert (0 <= ErasureShareSize (Redundancy pointer_2_of_4)) as Hsize
    by (vm_compute; discriminate).
  exact (Verify_not_enough_shares world_few_shares segment_path ∅ pointer_2_of_4 0
           (limits_of [11; 12; 13] ++ [None]) pointer_2_of_4
           eq_refl Hsize eq_refl eq_refl eq_refl eq_refl).
Defined.

(** C3 on the scenario in which the segment was uploaded again. *)
Lemma Verify_segment_altered_witness :
  Verify world_altered segment_path ∅ =
    Returned (mkVerifyReturn (Some (mkReport [] [] [14] []))
                (Some (ErrSegmentDeleted segment_path)) []).
Proof.
  assert (CreationDate pointer_2_of_4 + 1000 <> CreationDate pointer_2_of_4) as Hdate
    by (vm_compute; discriminate).
  assert (0 <= ErasureShareSize (Redundancy pointer_2_of_4)) as Hsize
    by (vm_compute; discriminate).
  exact (Verify_segment_altered world_altered segment_path ∅ pointer_2_of_4 0
           (limits_of [11; 12; 13] ++ [None]) eq_refl Hsize eq_refl eq_refl
           (or_intror (ex_intro _ _ (conj eq_refl Hdate)))).
Defined.

(** C4 on the scenario with the tampered share of node 13: [Correct]
    restores it, the node fails and its piece is put on the remove list. *)
Lemma Verify_removes_altered_witness :
  exists successes failed offlines contained,
    Verify world_tampered segment_path ∅ =
      match createPendingAudits contained
              ((fun n => mkIShare n [Byte.x2a]) <$> [3; 2; 1; 0]) pointer_2_of_4 0 segment_path with
      | Panics =>
          Panicked match failed with
                   | [] => []
                   | _ :: _ => [mkUpdatePiecesCall segment_path pointer_2_of_4 []
                                  (toRemove pointer_2_of_4 failed)]
                   end
      | Returns (Err e) =>
          Returned (mkVerifyReturn (Some (mkReport successes failed offlines [])) (Some e)
                      match failed with
                      | [] => []
                      | _ :: _ => [mkUpdatePiecesCall segment_path pointer_2_of_4 []
                                     (toRemove pointer_2_of_4 failed)]
                      end)
      | Returns (Ok pending) =>
          Returned (mkVerifyReturn (Some (mkReport successes failed offlines pending)) None
                      match failed with
                      | [] => []
                      | _ :: _ => [mkUpdatePiecesCall segment_path pointer_2_of_4 []
                                     (toRemove pointer_2_of_4 failed)]
                      end)
      end
    /\ (forall n, n ∈ failed <->
          (exists k s e,
              DownloadShares (piecestore_Download world_tampered) (limits_of [11; 12; 13; 14]) 0 1
                !! k = Some s
              /\ Error s = Some e /\ goes_failed e = true /\ Share_NodeID s = n) \/
          (exists c, c ∈ (fun n => mkIShare n [Byte.x2a]) <$> [3; 2; 1; 0]
                     /\ Data (original_at
                                (candidates
                                   (DownloadShares (piecestore_Download world_tampered)
                                      (limits_of [11; 12; 13; 14]) 0 1)) (Number c)) <> IData c
                     /\ Share_NodeID
                          (original_at
                             (DownloadShares (piecestore_Download world_tampered)
                                (limits_of [11; 12; 13; 14]) 0 1) (Number c)) = n))
    /\ (forall c s, c ∈ (fun n => mkIShare n [Byte.x2a]) <$> [3; 2; 1; 0] ->
          candidates (DownloadShares (piecestore_Download world_tampered)
                        (limits_of [11; 12; 13; 14]) 0 1) !! Number c = Some s ->
          Data s <> IData c -> Share_NodeID s ∈ failed)
    /\ (forall piece, piece ∈ toRemove pointer_2_of_4 failed <->
          piece ∈ RemotePieces pointer_2_of_4 /\ NodeId piece ∈ failed).
Proof.
  assert (MinReq (Redundancy pointer_2_of_4) <= 4) as Henough by (vm_compute; discriminate).
  assert (0 <= ErasureShareSize (Redundancy pointer_2_of_4)) as Hsize
    by (vm_compute; discriminate).
  exact (Verify_removes_altered world_tampered segment_path ∅ pointer_2_of_4 0
           (limits_of [11; 12; 13; 14]) pointer_2_of_4
           eq_refl Hsize eq_refl eq_refl eq_refl Henough).
Defined.

End Runs.

(** *** [Reverify]: a pending audit whose node left its pointer *)

Section Reverify.

Context `{Libraries}.

(** The search finds a node exactly when a piece of the pointer is on it. *)
Lemma find_piece_found pieces node pieceNum found :
  (find_piece pieces node pieceNum found).2 =
    found || bool_decide (node ∈ NodeId <$> pieces).
Proof.
  revert pieceNum found.
  induction pieces as [|piece pieces IH]; intros pieceNum found; cbn [find_piece].
  - rewrite fmap_nil, bool_decide_eq_false_2; [by rewrite orb_false_r|]. apply not_elem_of_nil.
  - rewrite fmap_cons.
    destruct (bool_decide (NodeId piece = node)) eqn:Hpiece; rewrite IH.
    + apply bool_decide_eq_true in Hpiece.
      rewrite (bool_decide_eq_true_2 (node ∈ _ :: _)); [by rewrite orb_true_r|].
      rewrite Hpiece. apply elem_of_cons. by left.
    + apply bool_decide_eq_false in Hpiece.
      f_equal. apply bool_decide_ext. rewrite elem_of_cons.
      split; [auto|]. intros [Heq|Hin]; [by symmetry in Heq|done].
Qed.

(** The goroutine of a pending audit whose node is on no piece of the
    pointer of its segment sends two messages for the node, the first
    with the status [erred] and a nil error, the second with the status
    [skipped], and deletes the node from containment. *)
Lemma reverify_pending_vanished (w : ReverifyWorld) (pending : PendingAudit) (pendingPointer : Pointer) :
  rv_metainfo_Get w (PA_Path pending) = Ok pendingPointer ->
  RootPieceId pendingPointer = PA_PieceID pending ->
  PA_NodeID pending ∉ NodeId <$> RemotePieces pendingPointer ->
  reverify_pending w pending =
    mkSent [mkMessage (PA_NodeID pending) erred None None;
            mkMessage (PA_NodeID pending) skipped None None]
      [PA_NodeID pending] [].
Proof.
  intros Hget Hroot Hgone. unfold reverify_pending. rewrite Hget.
  rewrite bool_decide_eq_false_2 by (intros Hne; by apply Hne).
  pose proof (find_piece_found (RemotePieces pendingPointer) (PA_NodeID pending) 0 false) as Hf.
  destruct (find_piece _ _ _ _) as [pieceNum found]. simpl in Hf.
  rewrite bool_decide_eq_false_2 in Hf by done. by subst found.
Qed.

End Reverify.

Section ReverifyRun.

Import Scenarios.

#[local] Existing Instance repetition_code.

(** C9. In the scenario the pending audit of node 13 is for a segment
    whose pointer no longer lists the node.  Its goroutine deletes the
    node from containment and sends two messages for it; the collector
    takes one message per piece, so under the schedule of [Reverify_sent]
    the message of node 14, whose share verified, is never received and
    the report credits nobody. *)
Theorem Reverify_vanished_node_reported_twice :
  reverify_piece world_vanished (mkRemotePiece 2 13) =
    mkSent [mkMessage 13 erred None None; mkMessage 13 skipped None None] [13] []
  /\ sent (reverify_piece world_vanished (mkRemotePiece 3 14)) = [mkMessage 14 success None None]
  /\ length (Reverify_sent world_vanished (RemotePieces pointer_2_of_4)) = 5%nat
  /\ Reverify world_vanished segment_path = (Some empty_Report, []).
Proof.
  split.
  - unfold reverify_piece. simpl.
    apply (reverify_pending_vanished world_vanished pending_13 pointer_other); [done|done|].
    vm_compute. intros Hin.
    repeat (apply elem_of_cons in Hin as [Hin|Hin]; [discriminate|]).
    by apply elem_of_nil in Hin.
  - repeat split; vm_compute; reflexivity.
Qed.

End ReverifyRun.

(** *** [GetRandomStripe] *)

Section RandomStripe.

Context `{Libraries}.

(** C10. For a pointer whose redundancy scheme is accepted and has a
    positive stripe size, [GetRandomStripe] returns an index, whatever the
    random source yields: index 0 when the segment is shorter than one
    stripe, and otherwise an index that is at least 0 and below the number
    of whole stripes in the segment. *)
Theorem GetRandomStripe_in_range (draw : Z) (pointer : Pointer) (redundancy : RedundancyStrategy) :
  NewRedundancyStrategyFromProto (Redundancy pointer) = Ok redundancy ->
  0 < StripeSize redundancy ->
  exists index,
    GetRandomStripe draw pointer = Returns (Ok index)
    /\ (SegmentSize pointer < StripeSize redundancy -> index = 0)
    /\ (StripeSize redundancy <= SegmentSize pointer ->
        0 <= index < SegmentSize pointer / StripeSize redundancy).
Proof.
  intros Hnew Hpos. unfold GetRandomStripe. rewrite Hnew.
  destruct (SegmentSize pointer <? StripeSize redundancy) eqn:Hsmall.
  - apply Z.ltb_lt in Hsmall. exists 0. repeat split; lia.
  - apply Z.ltb_ge in Hsmall. unfold go_div.
    rewrite (proj2 (Z.eqb_neq _ _)) by lia.
    rewrite Z.quot_div_nonneg by lia.
    assert (1 <= SegmentSize pointer / StripeSize redundancy) as Hstripes
      by (apply Z.div_le_lower_bound; lia).
    unfold Int63n. rewrite (proj2 (Z.leb_gt _ _)) by lia.
    eexists. split; [reflexivity|]. split; [lia|].
    intros _. apply Z.mod_pos_bound. lia.
Qed.

End RandomStripe.

Section RandomStripeRun.

Import Scenarios.

#[local] Existing Instance repetition_code.

(** C10 on the segment of the scenarios, which is one stripe long. *)
Lemma GetRandomStripe_in_range_witness :
  exists index,
    GetRandomStripe 5 pointer_2_of_4 = Returns (Ok index)
    /\ (SegmentSize pointer_2_of_4 < 2 -> index = 0)
    /\ (2 <= SegmentSize pointer_2_of_4 -> 0 <= index < SegmentSize pointer_2_of_4 / 2).
Proof.
  assert (0 < 2) as Hpos by (vm_compute; reflexivity).
  exact (GetRandomStripe_in_range 5 pointer_2_of_4 (Redundancy pointer_2_of_4) eq_refl Hpos).
Defined.

(** A scheme with an erasure share size of zero has a stripe size of
    zero: the guard for short segments does not apply and the division
    panics. *)
Example GetRandomStripe_zero_stripe_size :
  GetRandomStripe 5 (mkPointer (mkRedundancyScheme 2 4 2 3 0) 900 [] 2 1000) = Panics.
Proof. reflexivity. Qed.

End RandomStripeRun.

End AuditProofs.

(** ** Reputation updates *)

Module OverlayProofs.
Import Int64 Int64Facts Overlay.

(** C5, counterexample. Whatever the two flags of the request are, a call
    of [UpdateStats] counts one audit and one uptime check: on a fresh row
    a failed audit (with the node up, or not) moves the uptime counter,
    and an offline node (with the audit flag off, or on) moves the audit
    counter. *)
Lemma UpdateStats_counts_audit_and_uptime :
  let row := mkNode 7 0 0 0 0 0 0 "" "" in
  let db : gmap NodeID Node := {[ 7 := row ]} in
  let after req := (UpdateStats db req).1 !! 7 in
  (TotalUptimeCount <$> after (mkUpdateRequest 7 false true)) = Some 1
  /\ (UptimeSuccessCount <$> after (mkUpdateRequest 7 false true)) = Some 1
  /\ (TotalUptimeCount <$> after (mkUpdateRequest 7 true true)) = Some 1
  /\ (TotalAuditCount <$> after (mkUpdateRequest 7 false false)) = Some 1
  /\ (TotalAuditCount <$> after (mkUpdateRequest 7 true false)) = Some 1
  /\ (AuditSuccessCount <$> after (mkUpdateRequest 7 true false)) = Some 1.
Proof. vm_compute. repeat split. Qed.

(** The counters and the ratio that [updateRatioVars] returns. *)
Lemma updateRatioVars_eq newStatus successCount totalCount :
  updateRatioVars newStatus successCount totalCount =
    let successCount' := if newStatus then incr successCount else successCount in
    (successCount', incr totalCount, ratio_of successCount' (incr totalCount)).
Proof. reflexivity. Qed.

(** C5, as the code has it.  [UpdateStats] on a stored row increments the
    audit count and the uptime count, the audit success count when the
    request says [AuditSuccess] and the uptime success count when it says
    [IsUp] (as 64-bit integers); it stores the two ratios of the new
    counters; the id, the wallet and the e-mail of the row stay, and so
    does every other row. *)
Theorem UpdateStats_counters (db : gmap NodeID Node) (req : UpdateRequest) (row : Node) :
  db !! Req_NodeID req = Some row ->
  exists row',
    UpdateStats db req = (<[Req_NodeID req := row']> db, inl (getNodeStats (Req_NodeID req) row'))
    /\ TotalAuditCount row' = incr (TotalAuditCount row)
    /\ TotalUptimeCount row' = incr (TotalUptimeCount row)
    /\ AuditSuccessCount row' =
         (if AuditSuccess req then incr (AuditSuccessCount row) else AuditSuccessCount row)
    /\ UptimeSuccessCount row' =
         (if IsUp req then incr (UptimeSuccessCount row) else UptimeSuccessCount row)
    /\ AuditSuccessRatio row' = ratio_of (AuditSuccessCount row') (TotalAuditCount row')
    /\ UptimeRatio row' = ratio_of (UptimeSuccessCount row') (TotalUptimeCount row')
    /\ Id row' = Id row /\ Wallet row' = Wallet row /\ Email row' = Email row
    /\ forall other, other <> Req_NodeID req -> (UpdateStats db req).1 !! other = db !! other.
Proof.
  intros Hrow. exists (UpdateStats_row row req).
  unfold UpdateStats. rewrite Hrow. split; [reflexivity|].
  unfold UpdateStats_row. rewrite !updateRatioVars_eq. simpl.
  repeat split. intros other Hother. by rewrite lookup_insert_ne.
Qed.

(** C5 on a row with counters 1 of 2 and 3 of 4, for a failed audit of a
    node that is up. *)
Lemma UpdateStats_counters_witness :
  exists row',
    UpdateStats {[ 7 := mkNode 7 1 2 0.5 3 4 0.75 "wallet" "mail" ]} (mkUpdateRequest 7 false true) =
      (<[7 := row']> {[ 7 := mkNode 7 1 2 0.5 3 4 0.75 "wallet" "mail" ]}, inl (getNodeStats 7 row'))
    /\ TotalAuditCount row' = incr 2
    /\ TotalUptimeCount row' = incr 4
    /\ AuditSuccessCount row' = 1
    /\ UptimeSuccessCount row' = incr 3
    /\ AuditSuccessRatio row' = ratio_of (AuditSuccessCount row') (TotalAuditCount row')
    /\ UptimeRatio row' = ratio_of (UptimeSuccessCount row') (TotalUptimeCount row')
    /\ Id row' = 7 /\ Wallet row' = "wallet" /\ Email row' = "mail"
    /\ forall other, other <> 7 ->
         (UpdateStats {[ 7 := mkNode 7 1 2 0.5 3 4 0.75 "wallet" "mail" ]}
            (mkUpdateRequest 7 false true)).1 !! other
         = ({[ 7 := mkNode 7 1 2 0.5 3 4 0.75 "wallet" "mail" ]} : gmap NodeID Node) !! other.
Proof.
  exact (UpdateStats_counters {[ 7 := mkNode 7 1 2 0.5 3 4 0.75 "wallet" "mail" ]}
           (mkUpdateRequest 7 false true) (mkNode 7 1 2 0.5 3 4 0.75 "wallet" "mail") eq_refl).
Defined.

(** [UpdateUptime] leaves the audit half of the row alone, and
    [UpdateAuditSuccess] the uptime half. *)
Lemma UpdateUptime_row_frame row isUp :
  let row' := UpdateUptime_row row isUp in
  TotalUptimeCount row' = incr (TotalUptimeCount row)
  /\ UptimeSuccessCount row' = (if isUp then incr (UptimeSuccessCount row) else UptimeSuccessCount row)
  /\ AuditSuccessCount row' = AuditSuccessCount row
  /\ TotalAuditCount row' = TotalAuditCount row
  /\ AuditSuccessRatio row' = AuditSuccessRatio row.
Proof. unfold UpdateUptime_row. rewrite updateRatioVars_eq. simpl. repeat split. Qed.

Lemma UpdateAuditSuccess_row_frame row auditSuccess :
  let row' := UpdateAuditSuccess_row row auditSuccess in
  TotalAuditCount row' = incr (TotalAuditCount row)
  /\ AuditSuccessCount row' =
       (if auditSuccess then incr (AuditSuccessCount row) else AuditSuccessCount row)
  /\ UptimeSuccessCount row' = UptimeSuccessCount row
  /\ TotalUptimeCount row' = TotalUptimeCount row
  /\ UptimeRatio row' = UptimeRatio row.
Proof. unfold UpdateAuditSuccess_row. rewrite updateRatioVars_eq. simpl. repeat split. Qed.

(** *** The invariant of a row *)

(** One half of a row after [updateRatioVars], below the largest [int64]. *)
Lemma updateRatioVars_ok newStatus successCount totalCount :
  counts_ok successCount totalCount ->
  totalCount < max_int64 ->
  let '(successCount', totalCount', ratio) := updateRatioVars newStatus successCount totalCount in
  counts_ok successCount' totalCount' /\ ratio_ok successCount' totalCount' ratio.
Proof.
  unfold counts_ok. intros Hcounts Hmax. rewrite updateRatioVars_eq. cbv zeta.
  rewrite (incr_small totalCount) by (unfold min_int64; lia).
  split; [|intros _; reflexivity].
  destruct newStatus; [|lia].
  rewrite incr_small by (unfold min_int64; lia). lia.
Qed.

Lemma UpdateStats_row_ok row req :
  row_ok row -> TotalAuditCount row < max_int64 -> TotalUptimeCount row < max_int64 ->
  row_ok (UpdateStats_row row req).
Proof.
  intros (Haudit & Huptime & _ & _) Hmax_audit Hmax_uptime. unfold UpdateStats_row.
  pose proof (updateRatioVars_ok (AuditSuccess req) _ _ Haudit Hmax_audit) as Ha.
  pose proof (updateRatioVars_ok (IsUp req) _ _ Huptime Hmax_uptime) as Hu.
  destruct (updateRatioVars (AuditSuccess req) _ _) as [[? ?] ?].
  destruct (updateRatioVars (IsUp req) _ _) as [[? ?] ?].
  unfold row_ok. simpl. tauto.
Qed.

Lemma UpdateUptime_row_ok row isUp :
  row_ok row -> TotalUptimeCount row < max_int64 -> row_ok (UpdateUptime_row row isUp).
Proof.
  intros (Haudit & Huptime & Hratio & _) Hmax. unfold UpdateUptime_row.
  pose proof (updateRatioVars_ok isUp _ _ Huptime Hmax) as Hu.
  destruct (updateRatioVars isUp _ _) as [[? ?] ?].
  unfold row_ok. simpl. tauto.
Qed.

Lemma UpdateAuditSuccess_row_ok row auditSuccess :
  row_ok row -> TotalAuditCount row < max_int64 -> row_ok (UpdateAuditSuccess_row row auditSuccess).
Proof.
  intros (Haudit & Huptime & _ & Hratio) Hmax. unfold UpdateAuditSuccess_row.
  pose proof (updateRatioVars_ok auditSuccess _ _ Haudit Hmax) as Ha.
  destruct (updateRatioVars auditSuccess _ _) as [[? ?] ?].
  unfold row_ok. simpl. tauto.
Qed.

(** A ratio that passed [checkRatioVars] belongs to ordered counters. *)
Lemma checkRatioVars_ok successCount totalCount ratio :
  checkRatioVars successCount totalCount = inl ratio ->
  counts_ok successCount totalCount /\ ratio_ok successCount totalCount ratio.
Proof.
  unfold checkRatioVars, counts_ok, ratio_ok.
  destruct (successCount <? 0) eqn:H1; [discriminate|].
  destruct (totalCount <? 0) eqn:H2; [discriminate|].
  destruct (successCount >? totalCount) eqn:H3; [discriminate|].
  apply Z.ltb_ge in H1, H2. rewrite Z.gtb_ltb in H3. apply Z.ltb_ge in H3.
  destruct (totalCount =? 0) eqn:H4; intros [= <-]; (split; [lia|]).
  - apply Z.eqb_eq in H4. lia.
  - done.
Qed.

(** Every row that [Create] inserts satisfies the invariant. *)
Lemma Create_row_ok nodeID startingStats row :
  Create_row nodeID startingStats = inl row -> row_ok row.
Proof.
  unfold Create_row. destruct startingStats as [st|].
  - destruct (checkRatioVars (NS_AuditSuccessCount st) _) as [ra|] eqn:Ha; [|discriminate].
    destruct (checkRatioVars (NS_UptimeSuccessCount st) _) as [ru|] eqn:Hu; [|discriminate].
    intros [= <-]. apply checkRatioVars_ok in Ha as [? ?], Hu as [? ?].
    unfold row_ok. simpl. tauto.
  - intros [= <-]. unfold row_ok, counts_ok, ratio_ok. simpl. repeat split; lia.
Qed.

(** C6, counterexample. A row with an audit count at the largest [int64]
    passes the checks of [Create] and satisfies the invariant; the next
    update wraps its audit count around to the smallest [int64], below the
    success count. *)
Lemma UpdateStats_overflow_breaks_row_ok :
  exists row,
    Create_row 7 (Some (mkNodeStats 7 0 0 max_int64 0 0 0 "" "")) = inl row
    /\ row_ok row
    /\ TotalAuditCount (UpdateStats_row row (mkUpdateRequest 7 true true)) = min_int64
    /\ ~ row_ok (UpdateStats_row row (mkUpdateRequest 7 true true)).
Proof.
  destruct (Create_row 7 (Some (mkNodeStats 7 0 0 max_int64 0 0 0 "" ""))) as [row|] eqn:Hcreate;
    [|by vm_compute in Hcreate].
  exists row. split; [reflexivity|]. split; [by apply (Create_row_ok _ _ _ Hcreate)|].
  vm_compute in Hcreate. injection Hcreate as <-. split; [reflexivity|].
  intros ([_ Hle] & _). vm_compute in Hle. by apply Hle.
Qed.

(** C6, as the code has it.  A stored row that satisfies the invariant
    and whose two total counters are below the largest [int64] satisfies
    it again after [UpdateStats], after [UpdateUptime] and after
    [UpdateAuditSuccess]: the success counters lie between 0 and the
    totals, and each ratio is the quotient, in binary64, of its
    counters.  Every row that [Create] inserts satisfies it. *)
Theorem reputation_updates_keep_row_ok (db : gmap NodeID Node) (nodeID : NodeID) (row : Node)
    (auditSuccess isUp : bool) :
  db !! nodeID = Some row ->
  row_ok row ->
  TotalAuditCount row < max_int64 ->
  TotalUptimeCount row < max_int64 ->
  (exists row', (UpdateStats db (mkUpdateRequest nodeID auditSuccess isUp)).1 !! nodeID = Some row'
                /\ row_ok row')
  /\ (exists row', (UpdateUptime db nodeID isUp).1 !! nodeID = Some row' /\ row_ok row')
  /\ (exists row', (UpdateAuditSuccess db nodeID auditSuccess).1 !! nodeID = Some row'
                   /\ row_ok row')
  /\ (forall startingStats created, Create_row nodeID startingStats = inl created -> row_ok created).
Proof.
  intros Hrow Hok Hmax_audit Hmax_uptime.
  unfold UpdateStats, UpdateUptime, UpdateAuditSuccess. simpl. rewrite Hrow. simpl.
  rewrite !lookup_insert_eq.
  split; [|split; [|split]]; [eexists; (split; [reflexivity|])..|].
  - by apply UpdateStats_row_ok.
  - by apply UpdateUptime_row_ok.
  - by apply UpdateAuditSuccess_row_ok.
  - intros startingStats created. apply Create_row_ok.
Qed.

Lemma example_row_ok : row_ok (mkNode 7 1 2 0.5 3 4 0.75 "wallet" "mail").
Proof.
  unfold row_ok, counts_ok, ratio_ok. simpl.
  repeat split; try lia; intros _; vm_compute; reflexivity.
Qed.

(** C6 on the same row. *)
Lemma reputation_updates_keep_row_ok_witness :
  (exists row', (UpdateStats {[ 7 := mkNode 7 1 2 0.5 3 4 0.75 "wallet" "mail" ]}
                   (mkUpdateRequest 7 true false)).1 !! 7 = Some row'
                /\ row_ok row')
  /\ (exists row', (UpdateUptime {[ 7 := mkNode 7 1 2 0.5 3 4 0.75 "wallet" "mail" ]} 7 false).1
                     !! 7 = Some row'
                   /\ row_ok row')
  /\ (exists row', (UpdateAuditSuccess {[ 7 := mkNode 7 1 2 0.5 3 4 0.75 "wallet" "mail" ]} 7 true).1
                     !! 7 = Some row'
                   /\ row_ok row')
  /\ (forall startingStats created, Create_row 7 startingStats = inl created -> row_ok created).
Proof.
  assert (2 < max_int64) as Hmax_audit by (vm_compute; reflexivity).
  assert (4 < max_int64) as Hmax_uptime by (vm_compute; reflexivity).
  exact (reputation_updates_keep_row_ok {[ 7 := mkNode 7 1 2 0.5 3 4 0.75 "wallet" "mail" ]} 7
           (mkNode 7 1 2 0.5 3 4 0.75 "wallet" "mail") true false eq_refl example_row_ok
           Hmax_audit Hmax_uptime).
Defined.

End OverlayProofs.

(** ** Settlement of orders *)

Module BandwidthProofs.
Import Bandwidth BandwidthMore.

Section Settlement.

Variable NodeID_String : NodeID -> string.

Implicit Types (t : table) (rba : Order).

(** An insert either appends the row or changes nothing. *)
Lemma sql_insert_cases t r :
  (serialnum r ∈ serialnum <$> t /\ sql_insert t r = (t, Some (UniqueViolation (serialnum r))))
  \/ ((serialnum r ∉ serialnum <$> t) /\ sql_insert t r = (t ++ [r], None)).
Proof.
  unfold sql_insert. case_bool_decide; [left|right]; done.
Qed.

(** The key of an order depends on its serial number and its storage
    node only. *)
Lemma order_key_eq rba rba' :
  SerialNumber (Allocation rba') = SerialNumber (Allocation rba) ->
  StorageNodeId rba' = StorageNodeId rba ->
  order_key NodeID_String rba' = order_key NodeID_String rba.
Proof. unfold order_key. by intros -> ->. Qed.

Lemma credited_app t1 t2 rba :
  credited NodeID_String (t1 ++ t2) rba =
    (credited NodeID_String t1 rba + credited NodeID_String t2 rba)%nat.
Proof. unfold credited. by rewrite List.filter_app, length_app. Qed.

Lemma credited_absent t rba :
  order_key NodeID_String rba ∉ serialnum <$> t -> credited NodeID_String t rba = 0%nat.
Proof.
  unfold credited. induction t as [|r t IH]; [done|].
  rewrite fmap_cons, not_elem_of_cons. intros [Hne Hnotin]. simpl.
  rewrite bool_decide_eq_false_2 by done. by apply IH.
Qed.

(** Once a key is stored, no later settlement changes the number of rows
    that carry it, and it stays stored. *)
Lemma SaveOrder_keeps_credit now t rba rba0 :
  order_key NodeID_String rba0 ∈ serialnum <$> t ->
  let t' := (SaveOrder NodeID_String now t rba).1 in
  order_key NodeID_String rba0 ∈ serialnum <$> t'
  /\ credited NodeID_String t' rba0 = credited NodeID_String t rba0.
Proof.
  intros Hstored. unfold SaveOrder.
  destruct (sql_insert_cases t
    (mkRow (order_key NodeID_String rba) (StorageNodeId rba) (UplinkId (Allocation rba))
       (action_value (Action (Allocation rba))) (Total rba) now
       (ExpirationUnixSec (Allocation rba)))) as [[_ ->]|[Hfresh ->]]; simpl in *.
  - done.
  - split; [rewrite fmap_app; apply elem_of_app; by left|].
    rewrite credited_app. unfold credited at 2. simpl.
    rewrite bool_decide_eq_false_2; [simpl; lia|].
    intros Heq. apply Hfresh. by rewrite Heq.
Qed.

Lemma settle_keeps_credit orders t rba0 :
  order_key NodeID_String rba0 ∈ serialnum <$> t ->
  credited NodeID_String (settle NodeID_String t orders) rba0 = credited NodeID_String t rba0.
Proof.
  revert t. induction orders as [|[now rba] orders IH]; intros t Hstored; [done|].
  unfold settle in *. cbn [fold_left].
  destruct (SaveOrder_keeps_credit now t rba rba0 Hstored) as [Hstored' Hsame].
  simpl. by rewrite IH.
Qed.

Lemma credited_present t rba :
  order_key NodeID_String rba ∈ serialnum <$> t -> (1 <= credited NodeID_String t rba)%nat.
Proof.
  unfold credited. induction t as [|r t IH]; [by intros ?%elem_of_nil|].
  rewrite fmap_cons. intros [Heq|Hin]%elem_of_cons; simpl.
  - rewrite bool_decide_eq_true_2 by done. simpl. lia.
  - specialize (IH Hin). destruct (bool_decide _); simpl; lia.
Qed.

(** A sweep removes rows and adds none. *)
Lemma credited_DeleteExpired t before expiredAt rba :
  (credited NodeID_String (DeleteExpired t before expiredAt) rba <= credited NodeID_String t rba)%nat.
Proof.
  unfold credited, DeleteExpired. induction t as [|r t IH]; simpl; [lia|].
  destruct (negb _); simpl; destruct (bool_decide _); simpl; lia.
Qed.

(** A settlement adds a row for a pair only when none carries it. *)
Lemma SaveOrder_credit_le now t rba rba0 :
  (credited NodeID_String t rba0 <= 1)%nat ->
  (credited NodeID_String (SaveOrder NodeID_String now t rba).1 rba0 <= 1)%nat.
Proof.
  intros Hle. unfold SaveOrder.
  destruct (sql_insert_cases t
    (mkRow (order_key NodeID_String rba) (StorageNodeId rba) (UplinkId (Allocation rba))
       (action_value (Action (Allocation rba))) (Total rba) now
       (ExpirationUnixSec (Allocation rba)))) as [[_ ->]|[Hfresh ->]]; simpl in *; [done|].
  rewrite credited_app. unfold credited at 2. simpl.
  case_bool_decide as Hkey; simpl; [|lia].
  rewrite Hkey in Hfresh. rewrite credited_absent by done. lia.
Qed.

Lemma run_credit_le calls t rba0 :
  (credited NodeID_String t rba0 <= 1)%nat ->
  (credited NodeID_String (run NodeID_String t calls) rba0 <= 1)%nat.
Proof.
  revert t. induction calls as [|[now rba|before expiredAt] calls IH]; intros t Hle; [done|..];
    unfold run in *; cbn [fold_left]; apply IH.
  - by apply SaveOrder_credit_le.
  - pose proof (credited_DeleteExpired t before expiredAt rba0). lia.
Qed.

(** C7. After an order was settled, an order with the same serial number
    and storage node is refused with a violation of the primary key and
    the table stays as it is, so the totals of every window are those
    after the first settlement; one row carries the pair, and that remains
    so through every later run of settlements.  Through a run in which
    [DeleteExpired] is called as well, at most one row carries the pair
    at any time; while one does, the order is refused and the table stays
    as it is, and once it has been deleted the order is accepted again. *)
Theorem SaveOrder_duplicate_is_refused now now' t rba rba' :
  (SaveOrder NodeID_String now t rba).2 = None ->
  SerialNumber (Allocation rba') = SerialNumber (Allocation rba) ->
  StorageNodeId rba' = StorageNodeId rba ->
  let t1 := (SaveOrder NodeID_String now t rba).1 in
  SaveOrder NodeID_String now' t1 rba' = (t1, Some (UniqueViolation (order_key NodeID_String rba)))
  /\ (forall from to,
        GetTotals (SaveOrder NodeID_String now' t1 rba').1 from to = GetTotals t1 from to)
  /\ credited NodeID_String t1 rba = 1%nat
  /\ (forall later, credited NodeID_String (settle NodeID_String t1 later) rba = 1%nat)
  /\ (forall calls,
        let t2 := run NodeID_String t1 calls in
        (credited NodeID_String t2 rba <= 1)%nat
        /\ (credited NodeID_String t2 rba = 1%nat ->
            SaveOrder NodeID_String now' t2 rba'
            = (t2, Some (UniqueViolation (order_key NodeID_String rba))))
        /\ (credited NodeID_String t2 rba = 0%nat ->
            (SaveOrder NodeID_String now' t2 rba').2 = None)).
Proof.
  intros Hsettled Hserial Hnode t1.
  pose proof (order_key_eq rba rba' Hserial Hnode) as Hkey.
  set (row := mkRow (order_key NodeID_String rba) (StorageNodeId rba) (UplinkId (Allocation rba))
                (action_value (Action (Allocation rba))) (Total rba) now
                (ExpirationUnixSec (Allocation rba))).
  assert ((order_key NodeID_String rba ∉ serialnum <$> t) /\ t1 = t ++ [row]) as [Hfresh Ht1].
  { unfold t1. unfold SaveOrder in *. fold row in Hsettled |- *.
    destruct (sql_insert_cases t row) as [[_ Heq]|[Hfresh Heq]]; rewrite Heq in *; done. }
  assert (order_key NodeID_String rba ∈ serialnum <$> t1) as Hstored.
  { rewrite Ht1, fmap_app. apply elem_of_app. right. simpl. by apply list_elem_of_singleton. }
  assert (forall t2, order_key NodeID_String rba ∈ serialnum <$> t2 ->
            SaveOrder NodeID_String now' t2 rba' =
              (t2, Some (UniqueViolation (order_key NodeID_String rba)))) as Hrefused.
  { intros t2 Hin. unfold SaveOrder, sql_insert. simpl. rewrite Hkey.
    by rewrite bool_decide_eq_true_2. }
  assert (credited NodeID_String t1 rba = 1%nat) as Hone.
  { rewrite Ht1, credited_app, credited_absent by done.
    unfold credited. simpl. by rewrite bool_decide_eq_true_2. }
  split; [by apply Hrefused|]. split; [by rewrite Hrefused|]. split; [exact Hone|].
  split; [intros later; by rewrite settle_keeps_credit|].
  intros calls t2. split; [apply run_credit_le; lia|].
  destruct (decide (order_key NodeID_String rba ∈ serialnum <$> t2)) as [Hin|Hout].
  - split; [intros _; by apply Hrefused|].
    pose proof (credited_present t2 rba Hin). lia.
  - rewrite credited_absent by done. split; [done|]. intros _.
    unfold SaveOrder, sql_insert. simpl. rewrite Hkey. by rewrite bool_decide_eq_false_2.
Qed.

End Settlement.

(** C7 on two settlements of one order, starting from an empty table. *)
Lemma SaveOrder_duplicate_is_refused_witness :
  let text (n : NodeID) : string := if n =? 11 then "node11" else "node" in
  let order := mkOrder (mkPayerAllocation "serial-1" 5 GET 2000) 11 4096 in
  let t1 := (SaveOrder text 100 [] order).1 in
  SaveOrder text 200 t1 order = (t1, Some (UniqueViolation (order_key text order)))
  /\ (forall from to, GetTotals (SaveOrder text 200 t1 order).1 from to = GetTotals t1 from to)
  /\ credited text t1 order = 1%nat
  /\ (forall later, credited text (settle text t1 later) order = 1%nat)
  /\ (forall calls,
        let t2 := run text t1 calls in
        (credited text t2 order <= 1)%nat
        /\ (credited text t2 order = 1%nat ->
            SaveOrder text 200 t2 order = (t2, Some (UniqueViolation (order_key text order))))
        /\ (credited text t2 order = 0%nat -> (SaveOrder text 200 t2 order).2 = None)).
Proof.
  exact (SaveOrder_duplicate_is_refused
           (fun n : NodeID => if n =? 11 then "node11" else "node") 100 200 []
           (mkOrder (mkPayerAllocation "serial-1" 5 GET 2000) 11 4096)
           (mkOrder (mkPayerAllocation "serial-1" 5 GET 2000) 11 4096)
           eq_refl eq_refl eq_refl).
Defined.

(** C7, counterexample.  An order for 4096 bytes is settled at time 100
    and credited to node 11 in the window from 0 to 200.  It expires at
    2000 and its row is deleted by the sweep at 3000.  The same order,
    saved again at 3100, is accepted: a second row is inserted for the
    serial number and the storage node, the totals change, and the bytes
    are credited to node 11 a second time, in the window from 3000 to
    3200. *)
Lemma swept_order_is_credited_twice :
  let text (n : NodeID) : string := if n =? 11 then "node11" else "node" in
  let order := mkOrder (mkPayerAllocation "serial-1" 5 GET 2000) 11 4096 in
  let first := SaveOrder text 100 [] order in
  let swept := DeleteExpired first.1 2500 3000 in
  let second := SaveOrder text 3100 swept order in
  first.2 = None
  /\ (exists totals,
        GetTotals first.1 0 200 = Some totals /\ totals !! 11 = Some [0; 4096; 0; 0; 0])
  /\ swept = []
  /\ second.2 = None
  /\ second.1 = [mkRow (order_key text order) 11 5 1 4096 3100 2000]
  /\ (exists totals,
        GetTotals second.1 3000 3200 = Some totals /\ totals !! 11 = Some [0; 4096; 0; 0; 0])
  /\ GetTotals second.1 0 4000 <> GetTotals swept 0 4000.
Proof.
  cbv zeta. split; [reflexivity|]. split; [eexists; split; reflexivity|].
  split; [reflexivity|]. split; [reflexivity|]. split; [reflexivity|].
  split; [eexists; split; reflexivity|].
  intros Heq.
  assert (forall m m' : option (gmap NodeID (list Z)),
            m = m' -> m ≫= (fun totals => totals !! 11) = m' ≫= (fun totals => totals !! 11))
    as Hlookup by (by intros ? ? ->).
  apply Hlookup in Heq. vm_compute in Heq. discriminate.
Qed.

End BandwidthProofs.

(** ** The repair queue *)

Module RepairQueueProofs.
Import RepairQueue.

(** C8, counterexample. With the segment [a] enqueued, then [b], which
    lost more pieces, then [a] again, the queue holds three rows, and
    [Dequeue] hands out [a]. *)
Lemma repair_queue_neither_sorts_nor_deduplicates :
  let a := mkInjuredSegment "a" [1] in
  let b := mkInjuredSegment "b" [1; 2; 3] in
  let q := enqueue_all (H:=plain_codec) empty_queue [a; b; a] in
  length (rows q) = 3%nat /\ (Dequeue q).2 = inl a.
Proof. vm_compute. split; reflexivity. Qed.

Section Queue.

Context `{Codec}.

Implicit Types (q : Queue) (seg : InjuredSegment) (segs : list InjuredSegment).

Lemma rows_enqueue_all q segs :
  info <$> rows (enqueue_all q segs) = (info <$> rows q) ++ (Marshal <$> segs).
Proof.
  revert q. induction segs as [|seg segs IH]; intros q; simpl.
  - by rewrite app_nil_r.
  - unfold enqueue_all in *. rewrite IH. simpl.
    by rewrite fmap_app, <- app_assoc.
Qed.

Lemma delete_by_info_length (rs : list Row) (i : Info) :
  (length (delete_by_info rs i) <= length rs)%nat.
Proof.
  unfold delete_by_info. induction rs as [|r rs IH]; simpl; [lia|].
  destruct (negb _); simpl; lia.
Qed.

Lemma delete_by_info_infos (rs : list Row) (i : Info) :
  info <$> delete_by_info rs i = List.filter (fun j => negb (bool_decide (j = i))) (info <$> rs).
Proof.
  unfold delete_by_info. induction rs as [|r rs IH]; [done|].
  rewrite fmap_cons. cbn [List.filter].
  destruct (negb (bool_decide (info r = i))); [rewrite fmap_cons; f_equal|]; exact IH.
Qed.

(** [Dequeue] of a queue that has rows: the segment of its first row, and
    the rows with other infos remain. *)
Lemma Dequeue_first q r rest seg :
  rows q = r :: rest ->
  Unmarshal (info r) = Some seg ->
  Dequeue q = (mkQueue (delete_by_info rest (info r)) (next_id q), inl seg).
Proof.
  intros Hrows Hseg. unfold Dequeue. rewrite Hrows.
  assert (delete_by_info (r :: rest) (info r) = delete_by_info rest (info r)) as ->.
  { unfold delete_by_info. simpl. by rewrite bool_decide_eq_true_2. }
  rewrite bool_decide_eq_false_2.
  - by rewrite Hseg.
  - pose proof (delete_by_info_length rest (info r)). simpl. lia.
Qed.

(** C8, as the code has it.  [Enqueue] appends a row for the segment,
    also when a row for it is there already; the queue hands its segments
    out in the order of their arrival: after a run of [Enqueue] on the
    empty queue, [Dequeue] returns the segment that was enqueued first,
    and removes the rows that carry the same encoded segment, so what
    remains are the later segments with another encoding, in their
    order. *)
Theorem repair_queue_is_fifo q seg segs :
  rows (Enqueue q seg) = rows q ++ [mkRow (next_id q) (Marshal seg)]
  /\ length (rows (enqueue_all empty_queue (seg :: segs))) = S (length segs)
  /\ exists q',
       Dequeue (enqueue_all empty_queue (seg :: segs)) = (q', inl seg)
       /\ info <$> rows q' =
            List.filter (fun j => negb (bool_decide (j = Marshal seg))) (Marshal <$> segs).
Proof.
  split; [reflexivity|].
  assert (info <$> rows (enqueue_all empty_queue (seg :: segs)) =
            Marshal seg :: (Marshal <$> segs)) as Hinfos
    by (rewrite rows_enqueue_all; reflexivity).
  split.
  - rewrite <- (length_fmap info), Hinfos. simpl. by rewrite length_fmap.
  - destruct (rows (enqueue_all empty_queue (seg :: segs))) as [|r rest] eqn:Hrows;
      [discriminate|].
    rewrite fmap_cons in Hinfos. injection Hinfos as Hr Hrest.
    eexists. split.
    + apply (Dequeue_first _ r rest seg Hrows). rewrite Hr. apply Unmarshal_Marshal.
    + simpl. by rewrite delete_by_info_infos, Hr, Hrest.
Qed.

End Queue.

End RepairQueueProofs.

(** ** Schema snapshots *)

Module DBSchemaProofs.
Import DBSchema.

Section Snapshots.

Context {Schema Data : Type}.

Implicit Types (snapshots : list (Snapshot Schema Data)) (snap : Snapshot Schema Data).

(** [FindVersion] finds the first snapshot of the version: the snapshots
    before it have other versions, and none is found exactly when no
    snapshot has the version.  So a snapshot that [Add] appends is found
    under its version only if the version is new; otherwise the snapshot
    that had the version before is found, as it was. *)
Theorem FindVersion_first snapshots version :
  match FindVersion snapshots version with
  | Some snap =>
      (exists before after,
         snapshots = before ++ snap :: after
         /\ Version snap = version
         /\ Forall (fun other => Version other <> version) before)
      /\ forall added, FindVersion (Add snapshots added) version = Some snap
  | None =>
      Forall (fun other => Version other <> version) snapshots
      /\ forall added,
           FindVersion (Add snapshots added) version =
             if bool_decide (Version added = version) then Some added else None
  end.
Proof.
  unfold Add. induction snapshots as [|first rest IH]; simpl; [done|].
  case_bool_decide as Hversion.
  - split; [|done]. exists [], rest. done.
  - destruct (FindVersion rest version) as [snap|].
    + destruct IH as [(before & after & -> & ? & ?) Hadded]. split; [|done].
      exists (first :: before), after. repeat split; [done|]. by constructor.
    + destruct IH as [? Hadded]. split; [by constructor|done].
Qed.

End Snapshots.

End DBSchemaProofs.

(** ** More on the verifier *)

Module AuditMoreProofs.
Import Audit AuditMore AuditProofs.

(** *** The downloaded shares *)

Section Downloads.

Variable download : AddressedOrderLimit -> Z -> Z -> ShareError + bytes.
Variables stripeIndex shareSize : Z.

(** Keys below the index the loop has reached are not written any more. *)
Lemma DownloadShares_from_below limits i (shares : gmap Z Share) k :
  k < i ->
  DownloadShares_from download stripeIndex shareSize i limits shares !! k = shares !! k.
Proof.
  revert i shares. induction limits as [|[limit|] limits IH]; intros i shares Hk; simpl.
  - done.
  - rewrite IH by lia. destruct (downloaded_share _ _ _ _ _); [|done].
    apply lookup_insert_ne. lia.
  - apply IH. lia.
Qed.

Lemma DownloadShares_from_lookup limits i (shares : gmap Z Share) k :
  i <= k ->
  DownloadShares_from download stripeIndex shareSize i limits shares !! k =
    match limits !! Z.to_nat (k - i) with
    | Some (Some limit) =>
        match downloaded_share download limit stripeIndex shareSize k with
        | Some share => Some share
        | None => shares !! k
        end
    | _ => shares !! k
    end.
Proof.
  revert i shares. induction limits as [|limit limits IH]; intros i shares Hk.
  - done.
  - destruct (decide (k = i)) as [->|Hne].
    + replace (Z.to_nat (i - i)) with 0%nat by lia. simpl.
      destruct limit as [limit|]; rewrite DownloadShares_from_below by lia; [|done].
      destruct (downloaded_share _ _ _ _ _); [apply lookup_insert_eq|done].
    + replace (Z.to_nat (k - i)) with (S (Z.to_nat (k - (i + 1)))) by lia. simpl.
      destruct limit as [limit|]; rewrite IH by lia; [|done].
      assert (match downloaded_share download limit stripeIndex shareSize i with
              | Some share => <[i := share]> shares
              | None => shares
              end !! k = shares !! k) as ->; [|done].
      destruct (downloaded_share _ _ _ _ i); [|done]. apply lookup_insert_ne. lia.
Qed.

(** The share that the goroutine of a limit sends. *)
Lemma downloaded_share_fields limit k s :
  downloaded_share download limit stripeIndex shareSize k = Some s ->
  Share_PieceNum s = k /\ Share_NodeID s = StorageNodeId limit
  /\ match download limit (Int64.wrap (shareSize * stripeIndex)) shareSize with
     | inl e => Error s = Some e /\ Data s = []
     | inr data => Error s = None /\ Data s = data
     end.
Proof.
  unfold downloaded_share, GetShare.
  destruct (download limit _ shareSize) as [e|data]; simpl.
  - by intros [= <-].
  - destruct (make_bytes shareSize); [|done]. by intros [= <-].
Qed.

Lemma DownloadShares_cases limits k :
  DownloadShares download limits stripeIndex shareSize !! k =
    if decide (0 <= k) then
      match limits !! Z.to_nat k with
      | Some (Some limit) => downloaded_share download limit stripeIndex shareSize k
      | _ => None
      end
    else None.
Proof.
  unfold DownloadShares. destruct (decide (0 <= k)) as [Hk|Hk].
  - rewrite DownloadShares_from_lookup by done. rewrite Z.sub_0_r.
    destruct (limits !! Z.to_nat k) as [[limit|]|]; [|done..].
    by destruct (downloaded_share _ _ _ _ _).
  - rewrite DownloadShares_from_below by lia. apply lookup_empty.
Qed.

(** Every downloaded share is stored under its piece number. *)
Lemma DownloadShares_piece_number limits k s :
  DownloadShares download limits stripeIndex shareSize !! k = Some s -> Share_PieceNum s = k.
Proof.
  rewrite DownloadShares_cases. destruct (decide (0 <= k)); [|done].
  destruct (limits !! Z.to_nat k) as [[limit|]|]; [|done..].
  intros Hs. by apply downloaded_share_fields in Hs as [? _].
Qed.

(** For a share size that is not negative no goroutine of
    [DownloadShares] panics, and it returns one share for every order
    limit that is not nil and none else: the share of the limit at index
    [k] is stored under [k], carries [k] as its piece number and the
    storage node of the limit, and either the error of the download from
    that node and no data, or no error and the data that were read. *)
Theorem DownloadShares_lookup limits k s :
  0 <= shareSize ->
  DownloadShares_panics download limits stripeIndex shareSize = false
  /\ (DownloadShares download limits stripeIndex shareSize !! k = Some s <->
      exists limit,
        0 <= k /\ limits !! Z.to_nat k = Some (Some limit)
        /\ Share_PieceNum s = k
        /\ Share_NodeID s = StorageNodeId limit
        /\ match download limit (Int64.wrap (shareSize * stripeIndex)) shareSize with
           | inl e => Error s = Some e /\ Data s = []
           | inr data => Error s = None /\ Data s = data
           end).
Proof.
  intros Hsize. split; [by apply DownloadShares_returns|].
  rewrite DownloadShares_cases. destruct (decide (0 <= k)) as [Hk|Hk].
  - destruct (limits !! Z.to_nat k) as [[limit|]|] eqn:Hlimit.
    + split.
      * intros Hs. exists limit. apply downloaded_share_fields in Hs as (? & ? & ?). done.
      * intros (limit' & _ & [= <-] & Hnum & Hnode & Hdata).
        unfold downloaded_share. rewrite GetShare_returns by done.
        destruct s as [e' num node data']. simpl in *. subst num node.
        destruct (download limit _ shareSize) as [e|data]; destruct Hdata as [-> ->]; done.
    + split; [done|]. by intros (? & _ & ? & _).
    + split; [done|]. by intros (? & _ & ? & _).
  - split; [done|]. intros (? & ? & _). lia.
Qed.

End Downloads.

(** *** Writing into the stripe *)

Lemma copy_at_length stripe off data stripe' :
  copy_at stripe off data = Returns stripe' ->
  length stripe' = length stripe /\ 0 <= off <= Z.of_nat (length stripe).
Proof.
  unfold copy_at. destruct (_ || _) eqn:Hrange; [discriminate|].
  apply orb_false_iff in Hrange as [Hlow Hhigh]. apply Z.ltb_ge in Hlow, Hhigh.
  intros [= <-]. split; [|lia].
  rewrite !length_app, !length_take, length_drop. lia.
Qed.

Lemma copy_shares_length shares stripe shareSize stripe' :
  copy_shares stripe shareSize shares = Returns stripe' ->
  length stripe' = length stripe
  /\ Forall (fun share => 0 <= Number share * shareSize <= Z.of_nat (length stripe)) shares.
Proof.
  revert stripe. induction shares as [|share shares IH]; intros stripe; simpl.
  - intros [= <-]. split; [done|constructor].
  - destruct (copy_at stripe _ _) as [stripe1|] eqn:Hcopy; [|discriminate].
    apply copy_at_length in Hcopy as [Hlen Hoff].
    intros [Hlen' Hall]%IH. rewrite Hlen in Hlen', Hall. split; [done|]. by constructor.
Qed.

Lemma toRemove_sublist pointer failed : sublist (toRemove pointer failed) (RemotePieces pointer).
Proof.
  unfold toRemove. induction (RemotePieces pointer) as [|piece pieces IH]; simpl; [done|].
  destruct (bool_decide _); by constructor.
Qed.

Lemma getSuccessNodes_not_failed (shares : gmap Z Share) failed offline
    (contained : gmap Z NodeID) n :
  n ∈ getSuccessNodes shares failed offline contained ->
  (n ∉ failed) /\ (n ∉ offline) /\ (n ∉ (map_to_list contained).*2).
Proof.
  unfold getSuccessNodes. intros (s & -> & Hs)%list_elem_of_fmap.
  apply elem_of_List_filter in Hs as [_ Hs].
  apply negb_true_iff, bool_decide_eq_false in Hs.
  rewrite !elem_of_app in Hs. tauto.
Qed.

Lemma elem_of_getOfflineNodes pointer limits (skip : gmap NodeID bool) n :
  n ∈ getOfflineNodes pointer limits skip <->
  n ∈ NodeId <$> RemotePieces pointer
  /\ (n ∉ nodesWithLimit limits) /\ flag skip n = false.
Proof.
  unfold getOfflineNodes. rewrite !list_elem_of_fmap. split.
  - intros (piece & -> & [Hpiece Htest]%elem_of_List_filter).
    apply andb_true_iff in Htest as [Hlimit Hskip].
    apply negb_true_iff in Hlimit, Hskip. apply bool_decide_eq_false in Hlimit.
    split; [by exists piece|done].
  - intros ((piece & -> & Hpiece) & Hlimit & Hskip). exists piece. split; [done|].
    apply elem_of_List_filter. split; [done|].
    by rewrite bool_decide_eq_false_2, Hskip.
Qed.

Section More.

Context `{Libraries}.

(** *** Shares that need no correction *)

(** Shares stored under their own piece number are found again through
    their copies. *)
Lemma altered_makeCopies (originals : gmap Z Share) :
  (forall k s, originals !! k = Some s -> Share_PieceNum s = k) ->
  altered originals (makeCopies originals) = [].
Proof.
  intros Hkeys. unfold altered, makeCopies.
  assert (forall l : list (Z * Share),
            (forall k s, (k, s) ∈ l -> originals !! k = Some s) ->
            List.filter
              (fun share => negb (bytes_Equal (Data (original_at originals (Number share)))
                                    (IData share)))
              ((fun original => mkIShare (Share_PieceNum original) (Data original)) <$> l.*2)
            = []) as Hall.
  { induction l as [|[k s] l IH]; intros Hl; [done|].
    rewrite !fmap_cons. cbn [List.filter]. simpl.
    pose proof (Hl k s ltac:(apply elem_of_cons; by left)) as Hs.
    unfold original_at at 1. rewrite (Hkeys _ _ Hs), Hs. simpl.
    unfold bytes_Equal at 1. rewrite bool_decide_eq_true_2 by done. simpl.
    apply IH. intros k' s' Hin. apply Hl. apply elem_of_cons. by right. }
  rewrite Hall; [done|]. intros k s. apply elem_of_map_to_list.
Qed.

(** When [Correct] hands the shares that were downloaded without error
    back as they are, [auditShares] names no piece: no node of a
    candidate fails the audit. *)
Theorem auditShares_unaltered download limits stripeIndex shareSize required total f :
  NewFEC required total = Ok f ->
  Correct f (makeCopies (candidates (DownloadShares download limits stripeIndex shareSize)))
    = Ok (makeCopies (candidates (DownloadShares download limits stripeIndex shareSize))) ->
  auditShares required total (candidates (DownloadShares download limits stripeIndex shareSize))
    = Ok ([], makeCopies (candidates (DownloadShares download limits stripeIndex shareSize))).
Proof.
  intros Hfec Hcorrect. unfold auditShares. rewrite Hfec, Hcorrect.
  rewrite altered_makeCopies; [done|].
  intros k s [Hs _]%candidates_lookup. by apply DownloadShares_piece_number in Hs.
Qed.

(** *** Pending audits *)

Lemma pending_of_spec fec stripeData pointer randomIndex path contained pending result :
  pending_of fec stripeData pointer randomIndex path contained pending = Returns (Ok result) ->
  exists created,
    result = pending ++ created
    /\ Forall2 (fun kn p =>
                  PA_NodeID p = kn.2
                  /\ PA_PieceID p = RootPieceId pointer
                  /\ StripeIndex p = randomIndex
                  /\ ShareSize p = ErasureShareSize (Redundancy pointer)
                  /\ PA_Path p = path
                  /\ exists share,
                       EncodeSingle fec stripeData (ErasureShareSize (Redundancy pointer)) kn.1
                         = Ok share
                       /\ ExpectedShareHash p = SHA256Hash share)
         contained created.
Proof.
  revert pending. induction contained as [|[pieceNum nodeID] contained IH]; intros pending; simpl.
  - intros [= <-]. exists []. split; [by rewrite app_nil_r|constructor].
  - destruct (make_bytes _); [|discriminate].
    destruct (EncodeSingle _ _ _ _) as [share|] eqn:Hshare; [|discriminate].
    intros Hrest. apply IH in Hrest as (created & -> & Hcreated).
    eexists (_ :: created). split; [by rewrite <- app_assoc|].
    constructor; [|done]. simpl. repeat split. eauto.
Qed.

(** The pending audits that [createPendingAudits] returns, one by one. *)
Lemma createPendingAudits_created (containedNodes : gmap Z NodeID) corrected pointer randomIndex
    path pending :
  createPendingAudits containedNodes corrected pointer randomIndex path = Returns (Ok pending) ->
  (pending = [] /\ map_to_list containedNodes = [])
  \/ exists fec stripeData,
       NewFEC (MinReq (Redundancy pointer)) (Total (Redundancy pointer)) = Ok fec
       /\ rebuildStripe fec corrected (ErasureShareSize (Redundancy pointer))
            = Returns (Ok stripeData)
       /\ Forall2 (fun kn p =>
                     PA_NodeID p = kn.2
                     /\ PA_PieceID p = RootPieceId pointer
                     /\ StripeIndex p = randomIndex
                     /\ ShareSize p = ErasureShareSize (Redundancy pointer)
                     /\ PA_Path p = path
                     /\ exists share,
                          EncodeSingle fec stripeData (ErasureShareSize (Redundancy pointer)) kn.1
                            = Ok share
                          /\ ExpectedShareHash p = SHA256Hash share)
            (map_to_list containedNodes) pending.
Proof.
  unfold createPendingAudits. case_bool_decide as Hempty.
  - intros [= <-]. by left.
  - destruct (NewFEC _ _) as [fec|] eqn:Hfec; [|discriminate].
    destruct (rebuildStripe _ _ _) as [[stripeData|]|] eqn:Hstripe; try discriminate.
    intros (created & -> & Hcreated)%pending_of_spec. right. by exists fec, stripeData.
Qed.

(** Every pending audit that [createPendingAudits] returns is for one
    contained piece and each contained piece gets one: it names the node
    of the piece, the root piece of the pointer, the audited stripe, the
    share size and the path, and its expected hash is the hash of the
    share that [EncodeSingle] computes for the piece number from the
    rebuilt stripe. *)
Theorem createPendingAudits_spec (containedNodes : gmap Z NodeID) corrected pointer randomIndex
    path pending :
  createPendingAudits containedNodes corrected pointer randomIndex path = Returns (Ok pending) ->
  length pending = size containedNodes
  /\ forall p, p ∈ pending ->
       PA_PieceID p = RootPieceId pointer
       /\ StripeIndex p = randomIndex
       /\ ShareSize p = ErasureShareSize (Redundancy pointer)
       /\ PA_Path p = path
       /\ exists pieceNum fec stripeData share,
            containedNodes !! pieceNum = Some (PA_NodeID p)
            /\ NewFEC (MinReq (Redundancy pointer)) (Total (Redundancy pointer)) = Ok fec
            /\ rebuildStripe fec corrected (ErasureShareSize (Redundancy pointer))
                 = Returns (Ok stripeData)
            /\ EncodeSingle fec stripeData (ErasureShareSize (Redundancy pointer)) pieceNum
                 = Ok share
            /\ ExpectedShareHash p = SHA256Hash share.
Proof.
  intros [[-> Hempty]|(fec & stripeData & Hfec & Hstripe & Hcreated)]%createPendingAudits_created.
  - split.
    + apply map_to_list_empty_iff in Hempty. by rewrite Hempty, map_size_empty.
    + intros p Hp. by apply elem_of_nil in Hp.
  - split.
    + apply Forall2_length in Hcreated. by rewrite <- Hcreated, length_map_to_list.
    + intros p Hp.
      destruct (proj1 (list_elem_of_lookup _ _) Hp) as [i Hi].
      destruct (Forall2_lookup_r _ _ _ _ _ Hcreated Hi)
        as ([pieceNum nodeID] & Hkn & Hnode & ? & ? & ? & ? & share & ? & ?).
      repeat split; try done.
      exists pieceNum, fec, stripeData, share. repeat split; try done.
      simpl in Hnode. rewrite Hnode. apply elem_of_map_to_list.
      by apply (list_elem_of_lookup_2 _ i).
Qed.

(** The nodes of the pending audits are contained nodes. *)
Lemma createPendingAudits_nodes (containedNodes : gmap Z NodeID) corrected pointer randomIndex
    path pending :
  createPendingAudits containedNodes corrected pointer randomIndex path = Returns (Ok pending) ->
  forall n, n ∈ PA_NodeID <$> pending -> n ∈ (map_to_list containedNodes).*2.
Proof.
  intros [[-> _]|(fec & stripeData & _ & _ & Hcreated)]%createPendingAudits_created n.
  - by intros ?%elem_of_nil.
  - intros (p & -> & Hp)%list_elem_of_fmap.
    destruct (proj1 (list_elem_of_lookup _ _) Hp) as [i Hi].
    destruct (Forall2_lookup_r _ _ _ _ _ Hcreated Hi) as (kn & Hkn & Hnode & _).
    apply list_elem_of_fmap. exists kn. split; [done|]. by apply (list_elem_of_lookup_2 _ i).
Qed.

(** The stripe that [rebuildStripe] returns is [fec.Required()] shares
    long, and every share that [Rebuild] put out was copied to an offset
    within it; a share that starts beyond its end makes the copy panic. *)
Theorem rebuildStripe_length fec corrected shareSize stripe :
  rebuildStripe fec corrected shareSize = Returns (Ok stripe) ->
  Z.of_nat (length stripe) = FEC_Required fec * shareSize
  /\ exists outputs,
       Rebuild fec corrected = Ok outputs
       /\ copy_shares (replicate (Z.to_nat (FEC_Required fec * shareSize)) Byte.x00) shareSize outputs
            = Returns stripe
       /\ Forall (fun share => 0 <= Number share * shareSize <= FEC_Required fec * shareSize)
            outputs.
Proof.
  unfold rebuildStripe, make_bytes.
  destruct (_ <? 0) eqn:Hneg; [discriminate|]. apply Z.ltb_ge in Hneg.
  destruct (Rebuild fec corrected) as [outputs|]; [|discriminate].
  destruct (copy_shares _ _ _) as [stripe'|] eqn:Hcopy; [|discriminate].
  intros [= <-]. pose proof Hcopy as [Hlen Hall]%copy_shares_length.
  rewrite length_replicate in Hlen, Hall. rewrite Z2Nat.id in Hall by done.
  split; [lia|]. by exists outputs.
Qed.

(** *** What a report of [Verify] holds *)

(** No node that a report of [Verify] credits with a success is, in the
    same report, failed, offline or the node of a pending audit. *)
Theorem Verify_success_in_no_other_bucket (w : VerifyWorld) path (skip : gmap NodeID bool)
    ret report :
  Verify w path skip = Returned ret ->
  ret_report ret = Some report ->
  forall n, n ∈ Successes report ->
    (n ∉ Fails report) /\ (n ∉ Offlines report) /\ (n ∉ PA_NodeID <$> PendingAudits report).
Proof.
  assert (forall report : Report, Successes report = [] ->
            forall n, n ∈ Successes report ->
              (n ∉ Fails report) /\ (n ∉ Offlines report)
              /\ (n ∉ PA_NodeID <$> PendingAudits report))
    as Hnone by (intros ? -> n Hn; by apply elem_of_nil in Hn).
  unfold Verify.
  destruct (metainfo_Get w) as [pointer|e];
    [|destruct (ErrKeyNotFound_Has e); intros [= <-]; discriminate].
  destruct (GetRandomStripe _ _) as [[randomIndex|e]|]; [|intros [= <-]; discriminate|discriminate].
  destruct (CreateAuditOrderLimits w) as [limits|e]; [|intros [= <-]; discriminate].
  destruct (DownloadShares_panics _ _ _ _); [discriminate|].
  destruct (checkIfSegmentAltered _ _ _) as [newPointer|e];
    [|intros [= <-] [= <-]; by apply Hnone].
  unfold Verify_classified.
  destruct (_ <? _); [intros [= <-] [= <-]; by apply Hnone|].
  destruct (auditShares _ _ _) as [[pieceNums corrected]|e];
    [|intros [= <-] [= <-]; by apply Hnone].
  destruct (createPendingAudits _ _ _ _ _) as [[pending|e]|] eqn:Hcreate; [| |discriminate].
  - intros [= <-] [= <-] n Hn. simpl in *.
    apply getSuccessNodes_not_failed in Hn as (? & ? & Hcontained).
    repeat split; try done. intros Hp. apply Hcontained.
    by apply (createPendingAudits_nodes _ _ _ _ _ _ Hcreate).
  - intros [= <-] [= <-] n Hn. simpl in *.
    apply getSuccessNodes_not_failed in Hn as (? & ? & _).
    repeat split; try done. simpl. apply not_elem_of_nil.
Qed.

(** Whenever [Verify] returns a report, the report lists as offline every
    node of the pointer that got no order limit and is not skipped; the
    other nodes it lists as offline are nodes whose download ended with a
    dial timeout or an unknown transport error. *)
Theorem Verify_offline_nodes (w : VerifyWorld) path (skip : gmap NodeID bool) pointer limits
    ret report :
  metainfo_Get w = Ok pointer ->
  CreateAuditOrderLimits w = Ok limits ->
  Verify w path skip = Returned ret ->
  ret_report ret = Some report ->
  (forall n, n ∈ NodeId <$> RemotePieces pointer ->
     n ∉ nodesWithLimit limits -> flag skip n = false -> n ∈ Offlines report)
  /\ (forall n, n ∈ Offlines report ->
        n ∈ getOfflineNodes pointer limits skip
        \/ exists randomIndex k s e,
             GetRandomStripe (random_draw w) pointer = Returns (Ok randomIndex)
             /\ DownloadShares (piecestore_Download w) limits randomIndex
                  (ErasureShareSize (Redundancy pointer)) !! k = Some s
             /\ Error s = Some e /\ goes_offline e = true /\ Share_NodeID s = n).
Proof.
  intros Hget Hlimits. unfold Verify. rewrite Hget.
  destruct (GetRandomStripe _ _) as [[randomIndex|e]|] eqn:Hstripe;
    [|intros [= <-]; discriminate|discriminate].
  rewrite Hlimits.
  assert (forall offlines : list NodeID,
            (forall n, n ∈ offlines <->
               n ∈ getOfflineNodes pointer limits skip
               \/ exists k s e,
                    DownloadShares (piecestore_Download w) limits randomIndex
                      (ErasureShareSize (Redundancy pointer)) !! k = Some s
                    /\ Error s = Some e /\ goes_offline e = true /\ Share_NodeID s = n) ->
            (forall n, n ∈ NodeId <$> RemotePieces pointer ->
               n ∉ nodesWithLimit limits -> flag skip n = false -> n ∈ offlines)
            /\ (forall n, n ∈ offlines ->
                  n ∈ getOfflineNodes pointer limits skip
                  \/ exists randomIndex0 k s e,
                       Returns (Ok randomIndex) = Returns (Ok randomIndex0)
                       /\ DownloadShares (piecestore_Download w) limits randomIndex0
                            (ErasureShareSize (Redundancy pointer)) !! k = Some s
                       /\ Error s = Some e /\ goes_offline e = true /\ Share_NodeID s = n))
    as Hclassified.
  { intros offlines Hoff. split.
    - intros n ? ? ?. apply Hoff. left. by apply elem_of_getOfflineNodes.
    - intros n [?|(k & s & e & ?)]%Hoff; [by left|]. right. by exists randomIndex, k, s, e. }
  destruct (DownloadShares_panics _ _ _ _); [discriminate|].
  destruct (checkIfSegmentAltered _ _ _) as [newPointer|e].
  - unfold Verify_classified.
    destruct (_ <? _); [intros [= <-] [= <-]; apply Hclassified, classify_offline|].
    destruct (auditShares _ _ _) as [[pieceNums corrected]|e];
      [|intros [= <-] [= <-]; apply Hclassified, classify_offline].
    destruct (createPendingAudits _ _ _ _ _) as [[pending|e]|]; [| |discriminate];
      intros [= <-] [= <-]; apply Hclassified, classify_offline.
  - intros [= <-] [= <-]. simpl. split.
    + intros n ? ? ?. by apply elem_of_getOfflineNodes.
    + intros n ?. by left.
Qed.

(** *** The pointer updates of [Verify] *)

(** Whatever way [Verify] ends after the classification, its updates are
    those of one call of [removeFailedPieces]. *)
Lemma issued_Verify_classified (w : VerifyWorld) path pointer randomIndex offline
    (shares : gmap Z Share) :
  exists failed,
    issued (Verify_classified w path pointer randomIndex offline shares) =
      (removeFailedPieces (metainfo_UpdatePieces w) path pointer failed).2.
Proof.
  unfold Verify_classified.
  destruct (_ <? _); [by exists []|].
  destruct (auditShares _ _ _) as [[pieceNums corrected]|e]; [|by exists []].
  eexists. by destruct (createPendingAudits _ _ _ _ _) as [[?|?]|].
Qed.

(** A call of [Verify] issues at most one [UpdatePieces], also when it
    panics.  The update is for the path of the audit and the pointer read
    at its start, it adds no piece, and the pieces it removes are pieces
    of that pointer, in its order. *)
Theorem Verify_issues_one_removal (w : VerifyWorld) path (skip : gmap NodeID bool) :
  (length (issued (Verify w path skip)) <= 1)%nat
  /\ forall call, call ∈ issued (Verify w path skip) ->
       UP_path call = path
       /\ metainfo_Get w = Ok (UP_ref call)
       /\ UP_toAdd call = []
       /\ sublist (UP_toRemove call) (RemotePieces (UP_ref call)).
Proof.
  assert (forall r, issued r = [] ->
            (length (issued r) <= 1)%nat
            /\ forall call, call ∈ issued r ->
                 UP_path call = path /\ metainfo_Get w = Ok (UP_ref call) /\ UP_toAdd call = []
                 /\ sublist (UP_toRemove call) (RemotePieces (UP_ref call))) as Hnone.
  { intros r ->. split; [simpl; lia|]. intros call Hcall. by apply elem_of_nil in Hcall. }
  unfold Verify.
  destruct (metainfo_Get w) as [pointer|e] eqn:Hget;
    [|destruct (ErrKeyNotFound_Has e); by apply Hnone].
  destruct (GetRandomStripe _ _) as [[randomIndex|e]|]; [|by apply Hnone..].
  destruct (CreateAuditOrderLimits w) as [limits|e]; [|by apply Hnone].
  destruct (DownloadShares_panics _ _ _ _); [by apply Hnone|].
  destruct (checkIfSegmentAltered _ _ _) as [newPointer|e]; [|by apply Hnone].
  destruct (issued_Verify_classified w path pointer randomIndex
              (getOfflineNodes pointer limits skip)
              (DownloadShares (piecestore_Download w) limits randomIndex
                 (ErasureShareSize (Redundancy pointer)))) as [failed ->].
  rewrite removeFailedPieces_updates. destruct failed as [|n failed]; simpl.
  - split; [lia|]. intros call Hcall. by apply elem_of_nil in Hcall.
  - split; [lia|]. intros call ->%list_elem_of_singleton. simpl.
    repeat split. apply toRemove_sublist.
Qed.

(** *** A pointer without stripes *)

(** With a stripe size that is not positive, the guard for short segments
    lets every segment of a size of at least 0 pass, and the division or
    the drawing of the index panics; [Verify] then panics before it has
    asked any node. *)
Theorem GetRandomStripe_panics (w : VerifyWorld) path (skip : gmap NodeID bool) pointer redundancy :
  metainfo_Get w = Ok pointer ->
  NewRedundancyStrategyFromProto (Redundancy pointer) = Ok redundancy ->
  StripeSize redundancy <= 0 ->
  0 <= SegmentSize pointer ->
  GetRandomStripe (random_draw w) pointer = Panics
  /\ Verify w path skip = Panicked [].
Proof.
  intros Hget Hnew Hsize Hsegment.
  assert (GetRandomStripe (random_draw w) pointer = Panics) as Hpanics.
  { unfold GetRandomStripe. rewrite Hnew.
    destruct (SegmentSize pointer <? StripeSize redundancy) eqn:Hsmall;
      [apply Z.ltb_lt in Hsmall; lia|].
    unfold go_div. destruct (StripeSize redundancy =? 0) eqn:Hzero; [done|].
    apply Z.eqb_neq in Hzero. unfold Int63n.
    rewrite (proj2 (Z.leb_le _ 0)); [done|].
    rewrite <- (Z.opp_involutive (StripeSize redundancy)), Z.quot_opp_r by lia.
    pose proof (Z.quot_pos (SegmentSize pointer) (- StripeSize redundancy)). lia. }
  split; [done|]. unfold Verify. by rewrite Hget, Hpanics.
Qed.

(** *** [Reverify] *)

Implicit Types (rw : ReverifyWorld) (pending : PendingAudit).

(** A segment none of whose nodes is contained: [Reverify] returns an
    empty report and no error. *)
Theorem Reverify_nothing_contained rw path pointer :
  rv_metainfo_Get rw path = Ok pointer ->
  (forall piece, piece ∈ RemotePieces pointer ->
     rv_containment_Get rw (NodeId piece) = Err ErrContainedNotFound) ->
  Reverify rw path = (Some empty_Report, []).
Proof.
  intros Hget Hnone. unfold Reverify. rewrite Hget.
  assert (forall pieces,
            (forall piece, piece ∈ pieces ->
               rv_containment_Get rw (NodeId piece) = Err ErrContainedNotFound) ->
            Reverify_sent rw pieces
            = (fun piece => mkMessage (NodeId piece) skipped None None) <$> pieces)
    as Hsent.
  { unfold Reverify_sent. induction pieces as [|piece pieces IH]; intros Hp; [done|].
    rewrite !fmap_cons. simpl. rewrite IH by (intros; apply Hp, elem_of_cons; by right).
    unfold reverify_piece. by rewrite Hp by (apply elem_of_cons; by left). }
  rewrite Hsent by done.
  rewrite <- (length_fmap (fun piece => mkMessage (NodeId piece) skipped None None)), firstn_all.
  assert (forall pieces acc,
            fold_left collect ((fun piece => mkMessage (NodeId piece) skipped None None) <$> pieces) acc
            = acc) as Hfold.
  { induction pieces as [|piece pieces IH]; intros [report err]; [done|].
    rewrite fmap_cons. simpl. apply IH. }
  by rewrite Hfold.
Qed.

(** A share that does not verify.  The pending node holds a piece of the
    pointer of its segment, gets an order limit and is still contained
    after the download, and the download either answers not found or
    brings data whose hash is not the expected one.  Then the segment is
    read again: if it is gone or was created anew, the node is credited
    with a success; otherwise the node fails and one [UpdatePieces]
    removes its pieces from the pointer just read.  The share size of the
    pending audit is not negative, so that the download returns. *)
Theorem reverify_wrong_share rw pending pendingPointer limit stillPending :
  0 <= ShareSize pending ->
  rv_metainfo_Get rw (PA_Path pending) = Ok pendingPointer ->
  RootPieceId pendingPointer = PA_PieceID pending ->
  PA_NodeID pending ∈ NodeId <$> RemotePieces pendingPointer ->
  (forall pieceNum,
     rv_CreateAuditOrderLimit rw (PA_NodeID pending) pieceNum (PA_PieceID pending)
       (ShareSize pending) = Ok limit) ->
  rv_containment_Get_again rw (PA_NodeID pending) = Ok stillPending ->
  (forall offset,
     match rv_piecestore_Download rw limit offset (ShareSize pending) with
     | inl e => rpc_Error_Has e = false /\ IsRPC e NotFound = true
     | inr data => SHA256Hash data <> ExpectedShareHash pending
     end) ->
  reverify_pending rw pending =
    match checkIfSegmentAltered (rv_metainfo_Get_again rw (PA_Path pending)) (PA_Path pending)
            (Some pendingPointer) with
    | Err _ => mkSent [mkMessage (PA_NodeID pending) success None None] [] []
    | Ok oldPtr =>
        mkSent [mkMessage (PA_NodeID pending) failed None None] []
          [mkUpdatePiecesCall (PA_Path pending) oldPtr [] (toRemove oldPtr [PA_NodeID pending])]
    end.
Proof.
  intros Hsize Hget Hroot Hfound Hlimit Hstill Hwrong. unfold reverify_pending. rewrite Hget.
  rewrite bool_decide_eq_false_2 by (intros Hne; by apply Hne).
  pose proof (find_piece_found (RemotePieces pendingPointer) (PA_NodeID pending) 0 false) as Hf.
  destruct (find_piece _ _ _ _) as [pieceNum found]. simpl in Hf.
  rewrite bool_decide_eq_true_2 in Hf by done. subst found. simpl.
  rewrite Hlimit, GetShare_returns, Hstill by done.
  specialize (Hwrong (Int64.wrap (ShareSize pending * StripeIndex pending))).
  assert (reverify_failed rw pending pendingPointer =
            match checkIfSegmentAltered (rv_metainfo_Get_again rw (PA_Path pending))
                    (PA_Path pending) (Some pendingPointer) with
            | Err _ => mkSent [mkMessage (PA_NodeID pending) success None None] [] []
            | Ok oldPtr =>
                mkSent [mkMessage (PA_NodeID pending) failed None None] []
                  [mkUpdatePiecesCall (PA_Path pending) oldPtr []
                     (toRemove oldPtr [PA_NodeID pending])]
            end) as Hfailed.
  { unfold reverify_failed. by destruct (checkIfSegmentAltered _ _ _). }
  destruct (rv_piecestore_Download rw limit _ _) as [e|data].
  - destruct Hwrong as [Hrpc Hnf]. unfold reverify_share_error. by rewrite Hrpc, Hnf.
  - simpl. unfold bytes_Equal. by rewrite bool_decide_eq_false_2.
Qed.

End More.

(** *** On the scenarios *)

Section MoreRuns.

Import Scenarios ScenariosMore.

#[local] Existing Instance repetition_code.

(** The share of node 13 in the scenario of the tampered share. *)
Lemma DownloadShares_lookup_witness :
  let download := piecestore_Download world_tampered in
  let limits := limits_of [11; 12; 13; 14] in
  let s := mkShare None 2 13 [Byte.xff] in
  DownloadShares_panics download limits 0 1 = false
  /\ (DownloadShares download limits 0 1 !! 2 = Some s <->
      exists limit,
        0 <= 2 /\ limits !! Z.to_nat 2 = Some (Some limit)
        /\ Share_PieceNum s = 2
        /\ Share_NodeID s = StorageNodeId limit
        /\ match download limit (Int64.wrap (1 * 0)) 1 with
           | inl e => Error s = Some e /\ Data s = []
           | inr data => Error s = None /\ Data s = data
           end).
Proof.
  assert (0 <= 1) as Hsize by lia.
  exact (DownloadShares_lookup (piecestore_Download world_tampered) 0 1
           (limits_of [11; 12; 13; 14]) 2 (mkShare None 2 13 [Byte.xff]) Hsize).
Defined.

(** The three shares that are served in the scenario of the transport
    error agree, and none is named. *)
Lemma auditShares_unaltered_witness :
  auditShares 2 4
    (candidates (DownloadShares (piecestore_Download world_transport_not_found)
                   (limits_of [11; 12; 13; 14]) 0 1))
  = Ok ([], makeCopies (candidates (DownloadShares (piecestore_Download world_transport_not_found)
                                      (limits_of [11; 12; 13; 14]) 0 1))).
Proof.
  assert (Correct (2, 4)
            (makeCopies (candidates (DownloadShares (piecestore_Download world_transport_not_found)
                                       (limits_of [11; 12; 13; 14]) 0 1)))
          = Ok (makeCopies (candidates (DownloadShares
                                          (piecestore_Download world_transport_not_found)
                                          (limits_of [11; 12; 13; 14]) 0 1)))) as Hcorrect
    by (vm_compute; reflexivity).
  exact (auditShares_unaltered (piecestore_Download world_transport_not_found)
           (limits_of [11; 12; 13; 14]) 0 1 2 4 (2, 4) eq_refl Hcorrect).
Defined.

(** The pending audit for piece 3 on node 14. *)
Lemma createPendingAudits_spec_witness :
  length [mkPendingAudit 14 900 0 1 [Byte.x2a] segment_path] = size ({[3 := 14]} : gmap Z NodeID)
  /\ forall p, p ∈ [mkPendingAudit 14 900 0 1 [Byte.x2a] segment_path] ->
       PA_PieceID p = RootPieceId pointer_2_of_4
       /\ StripeIndex p = 0
       /\ ShareSize p = ErasureShareSize (Redundancy pointer_2_of_4)
       /\ PA_Path p = segment_path
       /\ exists pieceNum fec stripeData share,
            ({[3 := 14]} : gmap Z NodeID) !! pieceNum = Some (PA_NodeID p)
            /\ NewFEC (MinReq (Redundancy pointer_2_of_4)) (Total (Redundancy pointer_2_of_4))
                 = Ok fec
            /\ rebuildStripe fec ((fun n => mkIShare n [Byte.x2a]) <$> [2; 1; 0])
                 (ErasureShareSize (Redundancy pointer_2_of_4)) = Returns (Ok stripeData)
            /\ EncodeSingle fec stripeData (ErasureShareSize (Redundancy pointer_2_of_4)) pieceNum
                 = Ok share
            /\ ExpectedShareHash p = SHA256Hash share.
Proof.
  assert (createPendingAudits {[3 := 14]} ((fun n => mkIShare n [Byte.x2a]) <$> [2; 1; 0])
            pointer_2_of_4 0 segment_path
          = Returns (Ok [mkPendingAudit 14 900 0 1 [Byte.x2a] segment_path])) as Hcreate
    by (vm_compute; reflexivity).
  exact (createPendingAudits_spec {[3 := 14]} ((fun n => mkIShare n [Byte.x2a]) <$> [2; 1; 0])
           pointer_2_of_4 0 segment_path [mkPendingAudit 14 900 0 1 [Byte.x2a] segment_path]
           Hcreate).
Defined.

(** The stripe of two shares of one byte, rebuilt from three shares. *)
Lemma rebuildStripe_length_witness :
  Z.of_nat (length [Byte.x2a; Byte.x00]) = FEC_Required (2, 4) * 1
  /\ exists outputs,
       Rebuild (2, 4) ((fun n => mkIShare n [Byte.x2a]) <$> [2; 1; 0]) = Ok outputs
       /\ copy_shares (replicate (Z.to_nat (FEC_Required (2, 4) * 1)) Byte.x00) 1 outputs
            = Returns [Byte.x2a; Byte.x00]
       /\ Forall (fun share => 0 <= Number share * 1 <= FEC_Required (2, 4) * 1) outputs.
Proof.
  exact (rebuildStripe_length (2, 4) ((fun n => mkIShare n [Byte.x2a]) <$> [2; 1; 0]) 1
           [Byte.x2a; Byte.x00] eq_refl).
Defined.

(** The report for the tampered share: three successes, among them node
    14, and node 13 failed. *)
Lemma Verify_success_in_no_other_bucket_witness :
  (14 ∉ [13]) /\ (14 ∉ ([] : list NodeID)) /\ (14 ∉ PA_NodeID <$> ([] : list PendingAudit)).
Proof.
  assert (Verify world_tampered segment_path ∅ =
            Returned (mkVerifyReturn (Some (mkReport [14; 12; 11] [13] [] [])) None
                        [mkUpdatePiecesCall segment_path pointer_2_of_4 []
                           [mkRemotePiece 2 13]])) as Hverify
    by (vm_compute; reflexivity).
  assert (14 ∈ Successes (mkReport [14; 12; 11] [13] [] [])) as Hsuccess
    by (apply (bool_decide_unpack _); vm_compute; exact I).
  exact (Verify_success_in_no_other_bucket world_tampered segment_path ∅ _
           (mkReport [14; 12; 11] [13] [] []) Hverify eq_refl 14 Hsuccess).
Defined.

(** The report when too few shares arrive: node 14 got no order limit,
    node 13 could not be dialed. *)
Lemma Verify_offline_nodes_witness :
  (forall n, n ∈ NodeId <$> RemotePieces pointer_2_of_4 ->
     n ∉ nodesWithLimit (limits_of [11; 12; 13] ++ [None]) -> flag ∅ n = false ->
     n ∈ [14; 13])
  /\ (forall n, n ∈ [14; 13] ->
        n ∈ getOfflineNodes pointer_2_of_4 (limits_of [11; 12; 13] ++ [None]) ∅
        \/ exists randomIndex k s e,
             GetRandomStripe (random_draw world_few_shares) pointer_2_of_4
               = Returns (Ok randomIndex)
             /\ DownloadShares (piecestore_Download world_few_shares)
                  (limits_of [11; 12; 13] ++ [None]) randomIndex
                  (ErasureShareSize (Redundancy pointer_2_of_4)) !! k = Some s
             /\ Error s = Some e /\ goes_offline e = true /\ Share_NodeID s = n).
Proof.
  assert (Verify world_few_shares segment_path ∅ =
            Returned (mkVerifyReturn (Some (mkReport [] [12] [14; 13] []))
                        (Some (ErrNotEnoughShares 1 2)) [])) as Hverify
    by (vm_compute; reflexivity).
  exact (Verify_offline_nodes world_few_shares segment_path ∅ pointer_2_of_4
           (limits_of [11; 12; 13] ++ [None]) _ (mkReport [] [12] [14; 13] [])
           eq_refl eq_refl Hverify eq_refl).
Defined.

(** A scheme with an erasure share size of zero. *)
Lemma GetRandomStripe_panics_witness :
  GetRandomStripe (random_draw world_no_stripes) pointer_no_stripes = Panics
  /\ Verify world_no_stripes segment_path ∅ = Panicked [].
Proof.
  assert (StripeSize (Redundancy pointer_no_stripes) <= 0) as Hsize
    by (vm_compute; discriminate).
  assert (0 <= SegmentSize pointer_no_stripes) as Hsegment by (vm_compute; discriminate).
  exact (GetRandomStripe_panics world_no_stripes segment_path ∅ pointer_no_stripes
           (Redundancy pointer_no_stripes) eq_refl eq_refl Hsize Hsegment).
Defined.

Lemma Reverify_nothing_contained_witness :
  Reverify world_uncontained segment_path = (Some empty_Report, []).
Proof.
  exact (Reverify_nothing_contained world_uncontained segment_path pointer_2_of_4 eq_refl
           (fun piece _ => eq_refl)).
Defined.

(** Node 14 serves other bytes than expected and loses its piece. *)
Lemma reverify_wrong_share_witness :
  reverify_pending world_wrong_share pending_14 =
    mkSent [mkMessage 14 failed None None] []
      [mkUpdatePiecesCall segment_path pointer_2_of_4 [] (toRemove pointer_2_of_4 [14])].
Proof.
  assert (PA_NodeID pending_14 ∈ NodeId <$> RemotePieces pointer_2_of_4) as Hfound
    by (apply (bool_decide_unpack _); vm_compute; exact I).
  assert (forall offset,
            match rv_piecestore_Download world_wrong_share (mkLimit 14 514) offset
                    (ShareSize pending_14) with
            | inl e => rpc_Error_Has e = false /\ IsRPC e NotFound = true
            | inr data => SHA256Hash data <> ExpectedShareHash pending_14
            end) as Hwrong by (intros offset; simpl; discriminate).
  assert (0 <= ShareSize pending_14) as Hsize by (vm_compute; discriminate).
  exact (reverify_wrong_share world_wrong_share pending_14 pointer_2_of_4 (mkLimit 14 514)
           pending_14 Hsize eq_refl eq_refl Hfound (fun _ => eq_refl) eq_refl Hwrong).
Defined.

End MoreRuns.

End AuditMoreProofs.

(** ** More on the reputation table *)

Module OverlayMoreProofs.
Import Int64 Overlay OverlayMore OverlayProofs.

Implicit Types (db : gmap NodeID Node).

(** [UpdateStats] is [UpdateAuditSuccess] followed by [UpdateUptime]: the
    same table results, and the stats returned are those of the second
    step; for a node without row all three fail and change nothing. *)
Theorem UpdateStats_in_two_steps db nodeID auditSuccess isUp :
  UpdateStats db (mkUpdateRequest nodeID auditSuccess isUp) =
    match UpdateAuditSuccess db nodeID auditSuccess with
    | (db', inl _) => UpdateUptime db' nodeID isUp
    | (db', inr e) => (db', inr e)
    end.
Proof.
  unfold UpdateStats, UpdateAuditSuccess, UpdateUptime. cbn [Req_NodeID].
  destruct (db !! nodeID) as [row|] eqn:Hrow; [|done].
  rewrite lookup_insert_eq, insert_insert_eq.
  unfold UpdateStats_row, UpdateUptime_row, UpdateAuditSuccess_row.
  cbn [AuditSuccess IsUp]. rewrite !updateRatioVars_eq. reflexivity.
Qed.

(** What comes back is what is stored.  The stats that [Create],
    [UpdateStats], [UpdateUptime], [UpdateAuditSuccess] and
    [CreateEntryIfNotExists] return are those that [GetStats] reads for
    the node afterwards; and a call that returns an error has left the
    table as it was. *)
Theorem returned_stats_are_stored db nodeID startingStats auditSuccess isUp :
  let stored (r : gmap NodeID Node * (NodeStats + db_error)) :=
    match r with
    | (db', inl stats) => GetStats db' nodeID = inl stats
    | (db', inr _) => db' = db
    end in
  stored (Create db nodeID startingStats)
  /\ stored (UpdateStats db (mkUpdateRequest nodeID auditSuccess isUp))
  /\ stored (UpdateUptime db nodeID isUp)
  /\ stored (UpdateAuditSuccess db nodeID auditSuccess)
  /\ match CreateEntryIfNotExists db nodeID with
     | (db', inl stats) => GetStats db' nodeID = inl stats
     | (db', inr _) => db' = db
     end.
Proof.
  cbv zeta.
  unfold CreateEntryIfNotExists, Create, UpdateStats, UpdateUptime, UpdateAuditSuccess, GetStats.
  cbn [Req_NodeID Create_row].
  destruct (db !! nodeID) as [old|] eqn:Hold.
  - repeat split; try (by rewrite lookup_insert_eq).
    + by destruct (Create_row nodeID startingStats).
    + by rewrite Hold.
  - rewrite lookup_insert_eq. repeat split; try done.
    destruct (Create_row nodeID startingStats); [by rewrite lookup_insert_eq|done].
Qed.

(** *** [CreateEntryIfNotExists] *)

(** A node that has a row keeps it and gets its stats; a node without row
    gets a row with counters and ratios zero and no operator.  Either way
    the call succeeds, the node has a row afterwards, and a second call
    changes nothing and returns the same stats. *)
Theorem CreateEntryIfNotExists_idempotent db nodeID :
  let '(db', result) := CreateEntryIfNotExists db nodeID in
  exists row,
    db' !! nodeID = Some row
    /\ result = inl (getNodeStats nodeID row)
    /\ match db !! nodeID with
       | Some old => row = old /\ db' = db
       | None => row = mkNode nodeID 0 0 0 0 0 0 "" "" /\ db' = <[nodeID := row]> db
       end
    /\ CreateEntryIfNotExists db' nodeID = (db', result).
Proof.
  unfold CreateEntryIfNotExists, GetStats, Create. cbn [Create_row].
  destruct (db !! nodeID) as [old|] eqn:Hold.
  - exists old. rewrite Hold. done.
  - eexists. rewrite lookup_insert_eq. done.
Qed.

(** *** [UpdateBatch] *)

Lemma UpdateStats_known db req row :
  db !! Req_NodeID req = Some row ->
  UpdateStats db req =
    (<[Req_NodeID req := UpdateStats_row row req]> db,
     inl (getNodeStats (Req_NodeID req) (UpdateStats_row row req))).
Proof. intros Hrow. unfold UpdateStats. by rewrite Hrow. Qed.

Lemma UpdateStats_unknown db req :
  db !! Req_NodeID req = None -> UpdateStats db req = (db, inr ErrNoRows).
Proof. intros Hrow. unfold UpdateStats. by rewrite Hrow. Qed.

Lemma UpdateStats_dom db req : dom (UpdateStats db req).1 = dom db.
Proof.
  unfold UpdateStats. destruct (db !! Req_NodeID req) as [row|] eqn:Hrow; [|done].
  simpl. rewrite dom_insert_L. apply elem_of_dom_2 in Hrow.
  by apply subseteq_union_1_L, singleton_subseteq_l.
Qed.

(** The loop of [UpdateBatch]: the nodes that have a row stay the same,
    and the failed requests are those for the other nodes, in order. *)
Lemma UpdateBatch_fold reqs b :
  let b' := fold_left UpdateBatch_step reqs b in
  dom (batch_db b') = dom (batch_db b)
  /\ failedUpdateReqs b' =
       failedUpdateReqs b
         ++ List.filter (fun req => bool_decide (Req_NodeID req ∉ dom (batch_db b))) reqs
  /\ allErrors b' =
       allErrors b ++ ((fun _ => ErrNoRows) <$>
         List.filter (fun req => bool_decide (Req_NodeID req ∉ dom (batch_db b))) reqs)
  /\ length (nodeStatsList b') =
       (length (nodeStatsList b)
        + length (List.filter (fun req => bool_decide (Req_NodeID req ∈ dom (batch_db b))) reqs))%nat.
Proof.
  revert b. induction reqs as [|req reqs IH]; intros b; cbn [fold_left List.filter].
  - cbv zeta. rewrite !app_nil_r. repeat split; simpl; lia.
  - specialize (IH (UpdateBatch_step b req)). cbv zeta in IH.
    destruct IH as (Hdom & Hfailed & Herrors & Hstats).
    assert (dom (batch_db (UpdateBatch_step b req)) = dom (batch_db b)) as Hstep.
    { unfold UpdateBatch_step. pose proof (UpdateStats_dom (batch_db b) req) as Hd.
      by destruct (UpdateStats _ _) as [? [?|?]]. }
    rewrite Hstep in *. cbv zeta. rewrite Hdom, Hfailed, Herrors, Hstats.
    split; [done|]. unfold UpdateBatch_step.
    destruct (batch_db b !! Req_NodeID req) as [row|] eqn:Hrow.
    + rewrite (UpdateStats_known _ _ _ Hrow). simpl.
      rewrite bool_decide_eq_false_2 by (intros Hn; apply Hn; by apply elem_of_dom_2 in Hrow).
      rewrite bool_decide_eq_true_2 by (by apply elem_of_dom_2 in Hrow).
      rewrite length_app. simpl. repeat split; lia.
    + rewrite (UpdateStats_unknown _ _ Hrow). simpl.
      rewrite bool_decide_eq_true_2 by (by apply not_elem_of_dom).
      rewrite bool_decide_eq_false_2 by (by apply not_elem_of_dom).
      rewrite fmap_cons, <- !app_assoc. repeat split; simpl; lia.
Qed.

(** [UpdateBatch] creates and deletes no row.  The requests it returns as
    failed are the requests for nodes without row, in their order, with
    one error each; the other requests are applied, with one stats record
    each. *)
Theorem UpdateBatch_failed_requests db reqs :
  let '(db', (stats, failed, errors)) := UpdateBatch db reqs in
  dom db' = dom db
  /\ failed = List.filter (fun req => bool_decide (Req_NodeID req ∉ dom db)) reqs
  /\ errors = (fun _ => ErrNoRows) <$> failed
  /\ length stats = length (List.filter (fun req => bool_decide (Req_NodeID req ∈ dom db)) reqs).
Proof.
  unfold UpdateBatch.
  destruct (UpdateBatch_fold reqs (mkBatch db [] [] [])) as (Hdom & Hfailed & Herrors & Hstats).
  cbv zeta in *. simpl in *.
  destruct (allErrors (fold_left UpdateBatch_step reqs (mkBatch db [] [] [])))
    as [|e errors] eqn:Herr.
  - symmetry in Herrors. apply fmap_nil_inv in Herrors. rewrite Herrors. done.
  - by rewrite Hfailed, Herrors.
Qed.

(** *** [FindInvalidNodes] *)

Section Invalid.

Variable sql_lt : float -> float -> bool.

(** [FindInvalidNodes] panics on an empty list of ids.  Otherwise the ids
    it returns are ids that were asked for and have a row, with at least
    one audit and at least one uptime check counted and a ratio below its
    threshold: a node that was never audited, or never checked, is not
    reported, whatever its ratios and the thresholds are. *)
Theorem FindInvalidNodes_reports db nodeIDs maxStats :
  keyed_by_id db ->
  match FindInvalidNodes sql_lt db nodeIDs maxStats with
  | Panics => nodeIDs = []
  | Returns invalidIDs =>
      nodeIDs <> []
      /\ forall nodeID, nodeID ∈ invalidIDs ->
           nodeID ∈ nodeIDs
           /\ exists row, db !! nodeID = Some row
                          /\ 0 < TotalAuditCount row /\ 0 < TotalUptimeCount row
                          /\ (sql_lt (AuditSuccessRatio row) (NS_AuditSuccessRatio maxStats) = true
                              \/ sql_lt (UptimeRatio row) (NS_UptimeRatio maxStats) = true)
  end.
Proof.
  intros Hkeyed. unfold FindInvalidNodes. destruct nodeIDs as [|first rest]; [done|].
  split; [done|]. intros nodeID (row & -> & Hrow)%list_elem_of_fmap.
  apply AuditProofs.elem_of_List_filter in Hrow as [Hin Hinvalid].
  apply list_elem_of_fmap in Hin as ([key row'] & -> & Hin). simpl in *.
  apply elem_of_map_to_list in Hin. pose proof (Hkeyed _ _ Hin) as Hid.
  unfold invalid_row in Hinvalid.
  apply andb_true_iff in Hinvalid as [Hinvalid Hratio].
  apply andb_true_iff in Hinvalid as [Hinvalid Huptime].
  apply andb_true_iff in Hinvalid as [Hasked Haudit].
  apply bool_decide_eq_true in Hasked. apply orb_true_iff in Hratio.
  split; [done|]. exists row'. rewrite Hid. repeat split; try done; lia.
Qed.

End Invalid.

(** On a table with one row, asked for with thresholds of seven eighths. *)
Lemma FindInvalidNodes_reports_witness :
  match FindInvalidNodes PrimFloat.ltb {[ 7 := mkNode 7 1 2 0.5 3 4 0.75 "wallet" "mail" ]} [7]
          (mkNodeStats 0 0.875 0 0 0.875 0 0 "" "") with
  | Panics => [7] = ([] : list NodeID)
  | Returns invalidIDs =>
      [7] <> ([] : list NodeID)
      /\ forall nodeID, nodeID ∈ invalidIDs ->
           nodeID ∈ [7]
           /\ exists row,
                ({[ 7 := mkNode 7 1 2 0.5 3 4 0.75 "wallet" "mail" ]} : gmap NodeID Node) !! nodeID
                  = Some row
                /\ 0 < TotalAuditCount row /\ 0 < TotalUptimeCount row
                /\ (PrimFloat.ltb (AuditSuccessRatio row) 0.875 = true
                    \/ PrimFloat.ltb (UptimeRatio row) 0.875 = true)
  end.
Proof.
  assert (keyed_by_id {[ 7 := mkNode 7 1 2 0.5 3 4 0.75 "wallet" "mail" ]}) as Hkeyed
    by (intros nodeID row [<- <-]%lookup_singleton_Some; reflexivity).
  exact (FindInvalidNodes_reports PrimFloat.ltb
           {[ 7 := mkNode 7 1 2 0.5 3 4 0.75 "wallet" "mail" ]} [7]
           (mkNodeStats 0 0.875 0 0 0.875 0 0 "" "") Hkeyed).
Defined.

End OverlayMoreProofs.

(** ** The overlay cache *)

Module OverlayCacheProofs.
Import OverlayCache.

Implicit Types (db : gmap NodeID OverlayCacheNode) (info : pb_Node).

(** [Update] of a node that has no row, read back with [Get].  The id and
    the type come back as given.  An address comes back unless its text is
    empty, the operator unless e-mail and wallet are both empty, the
    restrictions unless both are negative, and all three come back nil when
    they were nil.  A reputation with a negative latency comes back nil;
    any other comes back under the id of the node, and a nil reputation
    comes back as one with zero counts. *)
Theorem Update_new_then_Get db info :
  IsZero (N_Id info) = false ->
  db !! N_Id info = None ->
  exists db' got,
    Update db (Some info) = Returns (db', None)
    /\ Get db' (N_Id info) = inl got
    /\ (forall id, id <> N_Id info -> db' !! id = db !! id)
    /\ N_Id got = N_Id info
    /\ N_Type got = N_Type info
    /\ N_Address got =
         match N_Address info with
         | Some address => if bool_decide (NA_Address address = "") then None else Some address
         | None => None
         end
    /\ N_Metadata got =
         match N_Metadata info with
         | Some metadata =>
             if bool_decide (NM_Email metadata = "") && bool_decide (NM_Wallet metadata = "")
             then None else Some metadata
         | None => None
         end
    /\ N_Restrictions got =
         match N_Restrictions info with
         | Some restrictions =>
             if (NR_FreeBandwidth restrictions <? 0) && (NR_FreeDisk restrictions <? 0)
             then None else Some restrictions
         | None => None
         end
    /\ N_Reputation got =
         match N_Reputation info with
         | Some stats =>
             if Latency_90 stats <? 0 then None
             else Some (mkReputation (N_Id info) (Latency_90 stats) (R_AuditSuccessRatio stats)
                          (R_UptimeRatio stats) (R_AuditCount stats) (R_AuditSuccessCount stats)
                          (R_UptimeCount stats) (R_UptimeSuccessCount stats))
         | None => Some (mkReputation (N_Id info) 0 0 0 0 0 0 0)
         end.
Proof.
  intros Hid Hnew. unfold Update. rewrite Hid, Hnew. eexists _, _.
  split; [reflexivity|]. unfold Get. rewrite Hid, lookup_insert_eq.
  split; [reflexivity|]. split; [intros id Hne; by apply lookup_insert_ne|].
  cbn. split; [done|]. split; [done|].
  split; [|split; [|split]].
  - by destruct (N_Address info) as [[? ?]|].
  - by destruct (N_Metadata info) as [[? ?]|].
  - by destruct (N_Restrictions info) as [[? ?]|].
  - by destruct (N_Reputation info) as [[]|].
Qed.

(** [Update] of a node that has a row.  Without a reputation in the
    message the call panics, and nothing is written.  With one, the row
    takes the address and the reputation of the message; it keeps its id
    and its type; it keeps its operator when the message has none and its
    restrictions when the message has none. *)
Theorem Update_stored_node db info row :
  IsZero (N_Id info) = false ->
  db !! N_Id info = Some row ->
  match N_Reputation info with
  | None => Update db (Some info) = Panics
  | Some stats =>
      exists row',
        Update db (Some info) = Returns (<[N_Id info := row']> db, None)
        /\ NodeId row' = NodeId row
        /\ NodeType row' = NodeType row
        /\ (Address row', Protocol row') =
             match N_Address info with
             | Some address => (NA_Address address, Transport address)
             | None => ("", 0)
             end
        /\ (OperatorEmail row', OperatorWallet row') =
             match N_Metadata info with
             | Some metadata => (NM_Email metadata, NM_Wallet metadata)
             | None => (OperatorEmail row, OperatorWallet row)
             end
        /\ (FreeBandwidth row', FreeDisk row') =
             match N_Restrictions info with
             | Some restrictions => (NR_FreeBandwidth restrictions, NR_FreeDisk restrictions)
             | None => (FreeBandwidth row, FreeDisk row)
             end
        /\ (Latency90 row', AuditSuccessRatio row', AuditUptimeRatio row', AuditCount row',
            AuditSuccessCount row', UptimeCount row', UptimeSuccessCount row') =
             (Latency_90 stats, R_AuditSuccessRatio stats, R_UptimeRatio stats, R_AuditCount stats,
              R_AuditSuccessCount stats, R_UptimeCount stats, R_UptimeSuccessCount stats)
  end.
Proof.
  intros Hid Hrow. unfold Update. rewrite Hid, Hrow.
  destruct (N_Reputation info) as [stats|]; [|done].
  eexists. split; [reflexivity|]. cbn.
  repeat split.
  - by destruct (N_Address info).
  - by destruct (N_Metadata info).
  - by destruct (N_Restrictions info).
Qed.

(** A node that comes with its address only. *)
Lemma Update_new_then_Get_witness :
  exists db' got,
    Update ∅ (Some (mk_pb_Node 7 2 (Some (mkNodeAddress 0 "node7:7777")) None None None))
      = Returns (db', None)
    /\ Get db' 7 = inl got
    /\ (forall id, id <> 7 -> db' !! id = (∅ : gmap NodeID OverlayCacheNode) !! id)
    /\ N_Id got = 7
    /\ N_Type got = 2
    /\ N_Address got = Some (mkNodeAddress 0 "node7:7777")
    /\ N_Metadata got = None
    /\ N_Restrictions got = None
    /\ N_Reputation got = Some (mkReputation 7 0 0 0 0 0 0 0).
Proof.
  exact (Update_new_then_Get ∅
           (mk_pb_Node 7 2 (Some (mkNodeAddress 0 "node7:7777")) None None None)
           eq_refl eq_refl).
Defined.

(** The same message for the node once it is stored. *)
Lemma Update_stored_node_witness :
  Update {[ 7 := mkOverlayCacheNode 7 2 "node7:7777" 0 "" "" (-1) (-1) 0 0 0 0 0 0 0 ]}
    (Some (mk_pb_Node 7 2 (Some (mkNodeAddress 0 "node7:7777")) None None None))
  = Panics.
Proof.
  exact (Update_stored_node
           {[ 7 := mkOverlayCacheNode 7 2 "node7:7777" 0 "" "" (-1) (-1) 0 0 0 0 0 0 0 ]}
           (mk_pb_Node 7 2 (Some (mkNodeAddress 0 "node7:7777")) None None None)
           (mkOverlayCacheNode 7 2 "node7:7777" 0 "" "" (-1) (-1) 0 0 0 0 0 0 0)
           eq_refl eq_refl).
Defined.

End OverlayCacheProofs.

(** ** More on the settlement table *)

Module BandwidthMoreProofs.
Import Bandwidth BandwidthMore BandwidthProofs.

Implicit Types (t : table) (r : Row).

(** *** Expiry *)

Lemma elem_of_GetExpired t before expiredAt r :
  r ∈ GetExpired t before expiredAt <->
  r ∈ t /\ created_at r < before /\ expires_at r < expiredAt.
Proof.
  unfold GetExpired. rewrite AuditProofs.elem_of_List_filter, andb_true_iff, !Z.ltb_lt. tauto.
Qed.

Lemma elem_of_DeleteExpired t before expiredAt r :
  r ∈ DeleteExpired t before expiredAt <->
  r ∈ t /\ ~ (created_at r < before /\ expires_at r < expiredAt).
Proof.
  unfold DeleteExpired.
  rewrite AuditProofs.elem_of_List_filter, negb_true_iff, andb_false_iff, !Z.ltb_ge. 
  split; intros [? ?]; (split; [done|lia]).
Qed.

Lemma DeleteExpired_sublist t before expiredAt : sublist (DeleteExpired t before expiredAt) t.
Proof.
  unfold DeleteExpired. induction t as [|r t IH]; simpl; [done|].
  destruct (negb _); by constructor.
Qed.

(** [DeleteExpired] deletes the rows that [GetExpired] returns and no
    other: every row is either returned by [GetExpired] or left by
    [DeleteExpired], never both; the rows left keep their order; and
    afterwards [GetExpired], for the same two times, finds nothing. *)
Theorem DeleteExpired_deletes_GetExpired t before expiredAt :
  (forall r, r ∈ t <->
     r ∈ GetExpired t before expiredAt \/ r ∈ DeleteExpired t before expiredAt)
  /\ (forall r, ~ (r ∈ GetExpired t before expiredAt /\ r ∈ DeleteExpired t before expiredAt))
  /\ length t =
       (length (GetExpired t before expiredAt) + length (DeleteExpired t before expiredAt))%nat
  /\ sublist (DeleteExpired t before expiredAt) t
  /\ GetExpired (DeleteExpired t before expiredAt) before expiredAt = [].
Proof.
  split; [|split; [|split; [|split]]].
  - intros r. rewrite elem_of_GetExpired, elem_of_DeleteExpired.
    destruct (decide (created_at r < before /\ expires_at r < expiredAt)); tauto.
  - intros r. rewrite elem_of_GetExpired, elem_of_DeleteExpired. tauto.
  - unfold GetExpired, DeleteExpired. induction t as [|r t IH]; simpl; [done|].
    destruct (_ && _); simpl; lia.
  - apply DeleteExpired_sublist.
  - unfold GetExpired, DeleteExpired. induction t as [|r t IH]; simpl; [done|].
    destruct ((created_at r <? before) && (expires_at r <? expiredAt)) eqn:Hexpired; simpl.
    + exact IH.
    + by rewrite Hexpired.
Qed.

Section Settlement.

Variable NodeID_String : NodeID -> string.

Implicit Types (rba : Order).

(** The row of an order. *)
Lemma SaveOrder_accepted now t rba :
  (SaveOrder NodeID_String now t rba).2 = None ->
  (order_key NodeID_String rba ∉ serialnum <$> t)
  /\ (SaveOrder NodeID_String now t rba).1 =
       t ++ [mkRow (order_key NodeID_String rba) (StorageNodeId rba) (UplinkId (Allocation rba))
               (action_value (Action (Allocation rba))) (Total rba) now
               (ExpirationUnixSec (Allocation rba))].
Proof.
  unfold SaveOrder. intros Haccepted.
  destruct (sql_insert_cases t
    (mkRow (order_key NodeID_String rba) (StorageNodeId rba) (UplinkId (Allocation rba))
       (action_value (Action (Allocation rba))) (Total rba) now
       (ExpirationUnixSec (Allocation rba)))) as [[_ Heq]|[Hfresh Heq]];
    rewrite Heq in *; done.
Qed.

(** The refusal of a settled order lasts as long as its row: once the row
    has expired and [DeleteExpired] has run, the same order is accepted a
    second time. *)
Theorem expired_order_is_accepted_again now now' before expiredAt t rba :
  (SaveOrder NodeID_String now t rba).2 = None ->
  now < before ->
  ExpirationUnixSec (Allocation rba) < expiredAt ->
  let t1 := (SaveOrder NodeID_String now t rba).1 in
  (SaveOrder NodeID_String now' t1 rba).2 = Some (UniqueViolation (order_key NodeID_String rba))
  /\ DeleteExpired t1 before expiredAt = DeleteExpired t before expiredAt
  /\ (SaveOrder NodeID_String now' (DeleteExpired t1 before expiredAt) rba).2 = None.
Proof.
  intros [Hfresh Ht1]%SaveOrder_accepted Hcreated Hexpires t1. unfold t1. rewrite Ht1.
  assert (DeleteExpired
            (t ++ [mkRow (order_key NodeID_String rba) (StorageNodeId rba)
                     (UplinkId (Allocation rba)) (action_value (Action (Allocation rba)))
                     (Total rba) now (ExpirationUnixSec (Allocation rba))]) before expiredAt
          = DeleteExpired t before expiredAt) as Hdeleted.
  { unfold DeleteExpired. rewrite List.filter_app. simpl.
    rewrite (proj2 (Z.ltb_lt _ _) Hcreated), (proj2 (Z.ltb_lt _ _) Hexpires). simpl.
    apply app_nil_r. }
  split; [|split; [exact Hdeleted|]].
  - unfold SaveOrder, sql_insert. simpl. rewrite bool_decide_eq_true_2; [done|].
    rewrite fmap_app. apply elem_of_app. right. simpl. by apply list_elem_of_singleton.
  - rewrite Hdeleted. unfold SaveOrder, sql_insert. simpl.
    rewrite bool_decide_eq_false_2; [done|].
    intros Hin. apply Hfresh.
    eapply elem_of_sublist; [exact Hin|].
    apply fmap_sublist, DeleteExpired_sublist.
Qed.

(** No two rows share a serial number: the table starts empty, and
    [SaveOrder] and [DeleteExpired] keep it so. *)
Theorem serial_numbers_stay_unique now before expiredAt t rba :
  NoDup (serialnum <$> t) ->
  NoDup (serialnum <$> (SaveOrder NodeID_String now t rba).1)
  /\ NoDup (serialnum <$> DeleteExpired t before expiredAt).
Proof.
  intros Hunique. split.
  - unfold SaveOrder.
    destruct (sql_insert_cases t
      (mkRow (order_key NodeID_String rba) (StorageNodeId rba) (UplinkId (Allocation rba))
         (action_value (Action (Allocation rba))) (Total rba) now
         (ExpirationUnixSec (Allocation rba)))) as [[_ ->]|[Hfresh ->]]; [done|].
    simpl in *. rewrite fmap_app. apply NoDup_app. split; [done|]. split.
    + intros key Hkey ->%list_elem_of_singleton. done.
    + apply NoDup_singleton.
  - eapply sublist_NoDup; [exact Hunique|]. apply fmap_sublist, DeleteExpired_sublist.
Qed.

End Settlement.

(** *** Totals *)

Lemma rows_of_nil_iff t from to node :
  rows_of t from to node = [] <->
  node ∉ storage_node_id <$> List.filter (in_window from to) t.
Proof.
  unfold rows_of. induction t as [|r t IH]; simpl.
  - split; [intros _; apply not_elem_of_nil|done].
  - destruct (in_window from to r); simpl; [|exact IH].
    rewrite not_elem_of_cons. case_bool_decide as Hnode.
    + split; [done|]. intros [Hne _]. by destruct Hne.
    + rewrite IH. split; [|tauto]. intros ?. split; [congruence|done].
Qed.

(** The entry of a storage node in the map that [GetTotals] builds. *)
Lemma collect_totals_entry t from to node :
  collect_totals t from to !! node =
    match rows_of t from to node with
    | [] => None
    | _ :: _ => Some (node_totals (rows_of t from to node))
    end.
Proof.
  unfold collect_totals.
  destruct (rows_of t from to node) as [|r rs] eqn:Hrows.
  - apply not_elem_of_list_to_map_1. rewrite <- list_fmap_compose.
    by apply rows_of_nil_iff.
  - rewrite <- Hrows.
    assert (node ∈ storage_node_id <$> List.filter (in_window from to) t) as Hin.
    { destruct (decide (node ∈ storage_node_id <$> List.filter (in_window from to) t)); [done|].
      apply rows_of_nil_iff in n. congruence. }
    apply list_elem_of_fmap in Hin as (r' & -> & Hr').
    apply elem_of_list_to_map_1'.
    + intros y (r'' & Heq & _)%list_elem_of_fmap. injection Heq as Hnode ->.
      by rewrite Hnode.
    + apply list_elem_of_fmap. by exists r'.
Qed.

Lemma elem_of_rows_of t from to node r :
  r ∈ rows_of t from to node <->
  r ∈ t /\ in_window from to r = true /\ storage_node_id r = node.
Proof.
  unfold rows_of. rewrite AuditProofs.elem_of_List_filter, andb_true_iff, bool_decide_eq_true.
  tauto.
Qed.

Lemma action_value_inj a a' : action_value a = action_value a' -> a = a'.
Proof. by destruct a, a'. Qed.

Lemma sum_action_app rows rows' a :
  sum_action (rows ++ rows') a = sum_action rows a + sum_action rows' a.
Proof.
  unfold sum_action. induction rows as [|r rows IH]; simpl; [done|]. rewrite IH. lia.
Qed.

(** *** Sums within [int64] *)

(** The sum of an action lies between the sum of its negative totals and
    the sum of its positive ones. *)
Lemma sum_action_between rows a :
  sum_negative rows a <= sum_action rows a <= sum_positive rows a
  /\ sum_negative rows a <= 0 <= sum_positive rows a.
Proof.
  unfold sum_negative, sum_positive, sum_action.
  induction rows as [|r rows IH]; cbn [List.filter foldr]; [lia|].
  destruct (0 <? total r) eqn:Hpos, (total r <? 0) eqn:Hneg; cbn [foldr];
    try apply Z.ltb_lt in Hpos; try apply Z.ltb_lt in Hneg;
    try apply Z.ltb_ge in Hpos; try apply Z.ltb_ge in Hneg;
    destruct (action r =? action_value a); lia.
Qed.

Lemma sum_positive_app rows rows' a :
  sum_positive (rows ++ rows') a = sum_positive rows a + sum_positive rows' a.
Proof. unfold sum_positive. by rewrite List.filter_app, sum_action_app. Qed.

Lemma sum_negative_app rows rows' a :
  sum_negative (rows ++ rows') a = sum_negative rows a + sum_negative rows' a.
Proof. unfold sum_negative. by rewrite List.filter_app, sum_action_app. Qed.

Lemma sums_fit_spec rows :
  sums_fit rows = true <->
  forall a, Int64.min_int64 <= sum_negative rows a /\ sum_positive rows a <= Int64.max_int64.
Proof.
  unfold sums_fit. rewrite forallb_forall. split.
  - intros Hall a. rewrite <- Z.leb_le, <- (Z.leb_le (sum_positive rows a)), <- andb_true_iff.
    apply Hall. destruct a; simpl; tauto.
  - intros Hall a _. rewrite andb_true_iff, !Z.leb_le. apply Hall.
Qed.

(** What fits for a group fits for the rows of the group that came first. *)
Lemma sums_fit_app_l rows rows' : sums_fit (rows ++ rows') = true -> sums_fit rows = true.
Proof.
  rewrite !sums_fit_spec. intros Hfit a. specialize (Hfit a).
  rewrite sum_positive_app, sum_negative_app in Hfit.
  pose proof (sum_action_between rows' a). lia.
Qed.

Lemma sums_fit_in_range rows a :
  sums_fit rows = true -> Int64.in_range (sum_action rows a).
Proof.
  intros Hfit. pose proof (proj1 (sums_fit_spec rows) Hfit a).
  pose proof (sum_action_between rows a). unfold Int64.in_range. lia.
Qed.

Lemma totals_fit_spec t from to :
  totals_fit t from to = true <->
  forall r, r ∈ t -> in_window from to r = true ->
    sums_fit (rows_of t from to (storage_node_id r)) = true.
Proof.
  unfold totals_fit. rewrite forallb_forall. split.
  - intros Hall r Hr Hwindow. apply Hall, list_elem_of_In, AuditProofs.elem_of_List_filter. done.
  - intros Hall r [Hr Hwindow]%list_elem_of_In%AuditProofs.elem_of_List_filter. by apply Hall.
Qed.

Lemma forallb_false {A} (f : A -> bool) (l : list A) :
  forallb f l = false -> exists x, x ∈ l /\ f x = false.
Proof.
  induction l as [|x l IH]; [done|]. simpl. intros [Hx|Hl]%andb_false_iff.
  - exists x. split; [apply elem_of_cons; by left|done].
  - destruct (IH Hl) as (y & Hy & Hfy). exists y. split; [apply elem_of_cons; by right|done].
Qed.

(** [GetTotals], when every sum fits, has an entry for a storage node
    exactly when the node has a row created in the window.  The entry has
    five sums, and the sum of an action stands at the index that is the
    value of the action: it is the sum of the totals of the rows of that
    node and action in the window, and a value of [int64].  When nothing
    is said about the outcome, some storage node has rows in the window
    whose totals for one action can add up to more than [int64] holds. *)
Theorem GetTotals_lookup t from to :
  match GetTotals t from to with
  | Some totals_of =>
      forall node,
        (totals_of !! node = None <->
           forall r, r ∈ t -> in_window from to r = true -> storage_node_id r <> node)
        /\ forall totals, totals_of !! node = Some totals ->
             length totals = 5%nat
             /\ forall a, totals !! Z.to_nat (action_value a)
                            = Some (sum_action (rows_of t from to node) a)
                          /\ Int64.in_range (sum_action (rows_of t from to node) a)
  | None =>
      exists r a,
        r ∈ t /\ in_window from to r = true
        /\ (sum_negative (rows_of t from to (storage_node_id r)) a < Int64.min_int64
            \/ Int64.max_int64 < sum_positive (rows_of t from to (storage_node_id r)) a)
  end.
Proof.
  unfold GetTotals. destruct (totals_fit t from to) eqn:Hfit.
  - intros node. rewrite collect_totals_entry.
    destruct (rows_of t from to node) as [|row rows] eqn:Hrows.
    + split; [|done]. split; [|done]. intros _ r Hr Hwindow Hnode.
      assert (r ∈ rows_of t from to node) as Hin by (by apply elem_of_rows_of).
      rewrite Hrows in Hin. by apply elem_of_nil in Hin.
    + assert (row ∈ rows_of t from to node) as Hin
        by (rewrite Hrows; apply elem_of_cons; by left).
      apply elem_of_rows_of in Hin as (Hr & Hwindow & Hnode).
      split; [split; [done|]; intros Hnone; by destruct (Hnone row Hr Hwindow)|].
      intros totals [= <-]. split; [done|]. intros a.
      split; [by destruct a|]. rewrite <- Hrows. apply sums_fit_in_range.
      rewrite <- Hnode. by apply (proj1 (totals_fit_spec t from to) Hfit).
  - unfold totals_fit in Hfit. apply forallb_false in Hfit as (r & Hr & Hgroup).
    apply AuditProofs.elem_of_List_filter in Hr as [Hr Hwindow].
    unfold sums_fit in Hgroup. apply forallb_false in Hgroup as (a & _ & Ha).
    exists r, a. split; [done|]. split; [done|].
    apply andb_false_iff in Ha as [Ha|Ha]; apply Z.leb_gt in Ha; [by left|by right].
Qed.

Section Credit.

Variable NodeID_String : NodeID -> string.

(** An accepted order is credited to its storage node, under its action
    and with its total, in every window that contains the time of the
    settlement; the other sums of the node and the entries of the other
    nodes stay as they were.  This is for totals that [GetTotals] returns
    after the settlement; it returned totals before it, then, too. *)
Theorem SaveOrder_credits_total now from to t (rba : Order) totals1 :
  (SaveOrder NodeID_String now t rba).2 = None ->
  from < now <= to ->
  let t1 := (SaveOrder NodeID_String now t rba).1 in
  GetTotals t1 from to = Some totals1 ->
  exists totals0,
    GetTotals t from to = Some totals0
    /\ totals1 !! StorageNodeId rba =
         Some ((fun a => sum_action (rows_of t from to (StorageNodeId rba)) a
                         + (if bool_decide (a = Action (Allocation rba)) then Total rba else 0))
                 <$> [PUT; GET; GET_AUDIT; GET_REPAIR; PUT_REPAIR])
    /\ (forall a,
          Int64.in_range
            (sum_action (rows_of t from to (StorageNodeId rba)) a
             + (if bool_decide (a = Action (Allocation rba)) then Total rba else 0)))
    /\ forall node, node <> StorageNodeId rba -> totals1 !! node = totals0 !! node.
Proof.
  intros [_ Ht1]%SaveOrder_accepted Hwindow t1. unfold t1. rewrite Ht1. clear t1 Ht1.
  set (row := mkRow _ _ _ _ _ _ _).
  assert (in_window from to row = true) as Hin.
  { unfold in_window. simpl. apply andb_true_iff. rewrite Z.ltb_lt, Z.leb_le. lia. }
  assert (forall node, rows_of (t ++ [row]) from to node =
            rows_of t from to node ++ (if bool_decide (StorageNodeId rba = node) then [row] else []))
    as Hrows.
  { intros node. unfold rows_of. rewrite List.filter_app. simpl. rewrite Hin. simpl.
    by case_bool_decide. }
  assert (forall a,
            sum_action (rows_of (t ++ [row]) from to (StorageNodeId rba)) a =
            sum_action (rows_of t from to (StorageNodeId rba)) a
            + (if bool_decide (a = Action (Allocation rba)) then Total rba else 0)) as Hsum.
  { intros a. rewrite Hrows, bool_decide_eq_true_2, sum_action_app by done. f_equal.
    unfold sum_action. simpl. rewrite Z.add_0_r.
    case_bool_decide as Ha.
    - subst a. by rewrite Z.eqb_refl.
    - destruct (_ =? _) eqn:Heq; [|done]. apply Z.eqb_eq, action_value_inj in Heq. congruence. }
  unfold GetTotals.
  destruct (totals_fit (t ++ [row]) from to) eqn:Hfit1; [|done]. intros [= <-].
  pose proof (proj1 (totals_fit_spec _ _ _) Hfit1) as Hall.
  assert (totals_fit t from to = true) as ->.
  { apply totals_fit_spec. intros r Hr Hr'.
    apply (sums_fit_app_l _ (if bool_decide (StorageNodeId rba = storage_node_id r)
                             then [row] else [])).
    rewrite <- Hrows. apply Hall; [|done]. apply elem_of_app. by left. }
  exists (collect_totals t from to). split; [done|]. split; [|split].
  - rewrite collect_totals_entry.
    destruct (rows_of (t ++ [row]) from to (StorageNodeId rba)) as [|r rs] eqn:Hnew.
    { rewrite Hrows, bool_decide_eq_true_2 in Hnew by done. by apply app_eq_nil in Hnew as [_ ?]. }
    rewrite <- Hnew in Hsum |- *. f_equal. unfold node_totals.
    apply list_fmap_ext. intros _ a _. apply Hsum.
  - intros a. rewrite <- Hsum. apply sums_fit_in_range.
    apply (Hall row); [|done]. apply elem_of_app. right. by apply list_elem_of_singleton.
  - intros node Hnode. rewrite !collect_totals_entry, Hrows.
    rewrite bool_decide_eq_false_2 by congruence. by rewrite app_nil_r.
Qed.

End Credit.

(** *** Uplink statistics *)

Lemma uplinks_NoDup t from to : NoDup (uplinks t from to).
Proof.
  unfold uplinks. rewrite merge_sort_Permutation. apply NoDup_remove_dups.
Qed.

Lemma elem_of_uplinks t from to uplink :
  uplink ∈ uplinks t from to <->
  exists r, r ∈ t /\ in_window from to r = true /\ uplink_id r = uplink.
Proof.
  unfold uplinks. rewrite merge_sort_Permutation, elem_of_remove_dups, list_elem_of_fmap.
  split.
  - intros (r & -> & [? ?]%AuditProofs.elem_of_List_filter). by exists r.
  - intros (r & ? & ? & <-). exists r. split; [done|]. by apply AuditProofs.elem_of_List_filter.
Qed.

Lemma sum_pointwise (f g : NodeID -> Z) (keys : list NodeID) :
  foldr Z.add 0 ((fun k => f k + g k) <$> keys)
  = foldr Z.add 0 (f <$> keys) + foldr Z.add 0 (g <$> keys).
Proof. induction keys as [|k keys IH]; [done|]. rewrite !fmap_cons. cbn [foldr]. lia. Qed.

Lemma sum_indicator (keys : list NodeID) (k0 : NodeID) (w : Z) :
  NoDup keys -> k0 ∈ keys ->
  foldr Z.add 0 ((fun k => if bool_decide (k0 = k) then w else 0) <$> keys) = w.
Proof.
  assert (forall keys' : list NodeID, k0 ∉ keys' ->
            foldr Z.add 0 ((fun k => if bool_decide (k0 = k) then w else 0) <$> keys') = 0)
    as Hnone.
  { induction keys' as [|k keys' IH]; [done|]. rewrite not_elem_of_cons. intros [Hne Hnotin].
    rewrite fmap_cons. cbn [foldr]. rewrite bool_decide_eq_false_2, IH by done. lia. }
  induction 1 as [|k keys Hk Hkeys IH]; [by intros ?%elem_of_nil|].
  rewrite fmap_cons. cbn [foldr]. intros [->|Hin]%elem_of_cons.
  - rewrite bool_decide_eq_true_2, Hnone by done. lia.
  - rewrite bool_decide_eq_false_2, IH by (done || congruence). lia.
Qed.

(** The rows of a table, counted by a key that lies in a list without
    duplicates: every row is counted once. *)
Lemma sum_by_key (key : Row -> NodeID) (weight : Row -> Z) (keys : list NodeID) (rows : list Row) :
  NoDup keys ->
  (forall r, r ∈ rows -> key r ∈ keys) ->
  foldr Z.add 0
    ((fun k => foldr Z.add 0 (weight <$> List.filter (fun r => bool_decide (key r = k)) rows))
       <$> keys)
  = foldr Z.add 0 (weight <$> rows).
Proof.
  intros Hkeys. induction rows as [|r rows IH]; intros Hin.
  - clear. induction keys as [|k keys IH]; [done|]. simpl in *. exact IH.
  - rewrite fmap_cons. cbn [foldr]. rewrite <- IH by (intros; apply Hin, elem_of_cons; by right).
    rewrite <- (sum_indicator keys (key r) (weight r) Hkeys)
      by (apply Hin, elem_of_cons; by left).
    rewrite <- sum_pointwise. f_equal. apply list_fmap_ext. intros _ k _.
    cbn [List.filter]. case_bool_decide; [rewrite fmap_cons; cbn [foldr]|]; lia.
Qed.

Lemma filter_filter_window t from to uplink :
  List.filter (fun r => bool_decide (uplink_id r = uplink)) (List.filter (in_window from to) t)
  = uplink_rows t from to uplink.
Proof.
  unfold uplink_rows. induction t as [|r t IH]; simpl; [done|].
  destruct (in_window from to r); simpl; [|done].
  destruct (bool_decide _); by rewrite IH.
Qed.

Lemma count_action_le rows a : 0 <= count_action rows a <= Z.of_nat (length rows).
Proof.
  unfold count_action. split; [lia|].
  apply inj_le. induction rows as [|r rows IH]; simpl; [lia|]. destruct (_ =? _); simpl; lia.
Qed.

Lemma count_two_actions rows :
  count_action rows PUT + count_action rows GET <= Z.of_nat (length rows).
Proof.
  unfold count_action. induction rows as [|r rows IH]; [simpl; lia|].
  cbn [List.filter].
  destruct (action r =? action_value PUT) eqn:Hput, (action r =? action_value GET) eqn:Hget;
    cbn [length]; try lia.
  apply Z.eqb_eq in Hput, Hget. simpl in Hput, Hget. lia.
Qed.

Lemma total_fits_in_range rows :
  total_fits rows = true -> Int64.in_range (sum_total rows).
Proof.
  unfold total_fits, Int64.in_range. rewrite andb_true_iff, !Z.leb_le.
  assert (sum_total (List.filter (fun r => total r <? 0) rows) <= sum_total rows
          <= sum_total (List.filter (fun r => 0 <? total r) rows)); [|lia].
  unfold sum_total. induction rows as [|r rows IH]; cbn [List.filter foldr]; [lia|].
  destruct (0 <? total r) eqn:Hpos, (total r <? 0) eqn:Hneg; cbn [foldr];
    try apply Z.ltb_lt in Hpos; try apply Z.ltb_lt in Hneg;
    try apply Z.ltb_ge in Hpos; try apply Z.ltb_ge in Hneg; lia.
Qed.

(** [GetUplinkStats], when every sum fits, returns one record for every
    uplink that has an order created in the window, in ascending order of
    the uplinks.  A record counts at least one transaction, its counts of
    PUT and of GET orders add up to at most that many, its bytes are a
    value of [int64], and over all records the transactions are the
    orders of the window, each counted once, as are their bytes.  When
    nothing is said about the outcome, some uplink has orders in the
    window whose totals can add up to more than [int64] holds. *)
Theorem GetUplinkStats_groups t from to :
  match GetUplinkStats t from to with
  | Some stats =>
      NoDup (US_NodeID <$> stats)
      /\ Sorted Z.le (US_NodeID <$> stats)
      /\ (forall uplink, uplink ∈ US_NodeID <$> stats <->
            exists r, r ∈ t /\ in_window from to r = true /\ uplink_id r = uplink)
      /\ Forall (fun stat =>
                   0 < TotalTransactions stat
                   /\ 0 <= PutActionCount stat /\ 0 <= GetActionCount stat
                   /\ PutActionCount stat + GetActionCount stat <= TotalTransactions stat
                   /\ Int64.in_range (TotalBytes stat)) stats
      /\ foldr Z.add 0 (TotalTransactions <$> stats)
           = Z.of_nat (length (List.filter (in_window from to) t))
      /\ foldr Z.add 0 (TotalBytes <$> stats)
           = foldr Z.add 0 (total <$> List.filter (in_window from to) t)
  | None =>
      exists r,
        r ∈ t /\ in_window from to r = true
        /\ total_fits (uplink_rows t from to (uplink_id r)) = false
  end.
Proof.
  assert (US_NodeID <$> collect_stats t from to = uplinks t from to) as Hids.
  { unfold collect_stats. rewrite <- list_fmap_compose.
    induction (uplinks t from to) as [|uplink l IH]; [done|].
    rewrite fmap_cons. simpl. by f_equal. }
  unfold GetUplinkStats.
  destruct (forallb _ (uplinks t from to)) eqn:Hfit.
  2:{ apply forallb_false in Hfit as (uplink & (r & Hr & Hwindow & <-)%elem_of_uplinks & Hgroup).
      by exists r. }
  rewrite Hids.
  split; [apply uplinks_NoDup|]. split; [apply Sorted_merge_sort; apply _|].
  split; [apply elem_of_uplinks|]. split; [|split].
  - unfold collect_stats. apply Forall_fmap, Forall_forall. intros uplink Huplink. simpl.
    pose proof (count_action_le (uplink_rows t from to uplink) PUT).
    pose proof (count_action_le (uplink_rows t from to uplink) GET).
    pose proof (count_two_actions (uplink_rows t from to uplink)).
    assert (Int64.in_range (sum_total (uplink_rows t from to uplink))) as [? ?].
    { apply total_fits_in_range.
      apply (proj1 (forallb_forall _ _) Hfit), list_elem_of_In, Huplink. }
    repeat split; try lia; try done.
    apply elem_of_uplinks in Huplink as (r & Hr & Hin & Hid).
    assert (r ∈ uplink_rows t from to uplink) as Hrow.
    { apply AuditProofs.elem_of_List_filter. split; [done|].
      rewrite Hin. simpl. by apply bool_decide_eq_true_2. }
    destruct (uplink_rows t from to uplink); [by apply elem_of_nil in Hrow|]. simpl. lia.
  - unfold collect_stats. rewrite <- list_fmap_compose.
    pose proof (sum_by_key uplink_id (fun _ => 1) (uplinks t from to)
                  (List.filter (in_window from to) t) (uplinks_NoDup t from to)) as Hsum.
    assert (forall rows : list Row,
              foldr Z.add 0 ((fun _ => 1) <$> rows) = Z.of_nat (length rows)) as Hlen.
    { induction rows as [|r rows IH]; [done|]. rewrite fmap_cons. cbn [foldr length]. lia. }
    rewrite Hlen in Hsum. rewrite <- Hsum.
    + f_equal. apply list_fmap_ext. intros _ uplink _. simpl.
      by rewrite Hlen, filter_filter_window.
    + intros r [Hr Hin]%AuditProofs.elem_of_List_filter. apply elem_of_uplinks. by exists r.
  - unfold collect_stats. rewrite <- list_fmap_compose.
    rewrite <- (sum_by_key uplink_id total (uplinks t from to)
                  (List.filter (in_window from to) t) (uplinks_NoDup t from to)).
    + f_equal. apply list_fmap_ext. intros _ uplink _. simpl.
      rewrite filter_filter_window. unfold sum_total.
      induction (uplink_rows t from to uplink) as [|r rows IH]; [done|].
      rewrite fmap_cons. cbn [foldr]. by rewrite IH.
    + intros r [Hr Hin]%AuditProofs.elem_of_List_filter. apply elem_of_uplinks. by exists r.
Qed.

(** *** On a small table *)

(** An order settled at time 100 that expires at 2000, swept at 3000. *)
Lemma expired_order_is_accepted_again_witness :
  let text (n : NodeID) : string := if n =? 11 then "node11" else "node" in
  let order := mkOrder (mkPayerAllocation "serial-1" 5 GET 2000) 11 4096 in
  let t1 := (SaveOrder text 100 [] order).1 in
  (SaveOrder text 200 t1 order).2 = Some (UniqueViolation (order_key text order))
  /\ DeleteExpired t1 150 3000 = DeleteExpired [] 150 3000
  /\ (SaveOrder text 200 (DeleteExpired t1 150 3000) order).2 = None.
Proof.
  exact (expired_order_is_accepted_again
           (fun n : NodeID => if n =? 11 then "node11" else "node") 100 200 150 3000 []
           (mkOrder (mkPayerAllocation "serial-1" 5 GET 2000) 11 4096)
           eq_refl eq_refl eq_refl).
Defined.

Lemma serial_numbers_stay_unique_witness :
  let text (n : NodeID) : string := if n =? 11 then "node11" else "node" in
  let t := [mkRow "serial-1node11" 11 5 1 4096 100 2000] in
  NoDup (serialnum <$> (SaveOrder text 200 t
                          (mkOrder (mkPayerAllocation "serial-2" 5 PUT 2000) 11 512)).1)
  /\ NoDup (serialnum <$> DeleteExpired t 150 3000).
Proof.
  assert (NoDup (serialnum <$> [mkRow "serial-1node11" 11 5 1 4096 100 2000])) as Hunique
    by apply NoDup_singleton.
  exact (serial_numbers_stay_unique
           (fun n : NodeID => if n =? 11 then "node11" else "node") 200 150 3000
           [mkRow "serial-1node11" 11 5 1 4096 100 2000]
           (mkOrder (mkPayerAllocation "serial-2" 5 PUT 2000) 11 512) Hunique).
Defined.

(** A first order for node 11, in the window from 0 to 200. *)
Lemma SaveOrder_credits_total_witness :
  let text (n : NodeID) : string := if n =? 11 then "node11" else "node" in
  let order := mkOrder (mkPayerAllocation "serial-1" 5 GET 2000) 11 4096 in
  let t1 := (SaveOrder text 100 [] order).1 in
  exists totals0,
    GetTotals [] 0 200 = Some totals0
    /\ collect_totals t1 0 200 !! 11 =
         Some ((fun a => sum_action (rows_of [] 0 200 11) a
                         + (if bool_decide (a = GET) then 4096 else 0))
                 <$> [PUT; GET; GET_AUDIT; GET_REPAIR; PUT_REPAIR])
    /\ (forall a,
          Int64.in_range
            (sum_action (rows_of [] 0 200 11) a + (if bool_decide (a = GET) then 4096 else 0)))
    /\ forall node, node <> 11 -> collect_totals t1 0 200 !! node = totals0 !! node.
Proof.
  assert (0 < 100 <= 200) as Hwindow by lia.
  assert (GetTotals
            (SaveOrder (fun n : NodeID => if n =? 11 then "node11" else "node") 100 []
               (mkOrder (mkPayerAllocation "serial-1" 5 GET 2000) 11 4096)).1 0 200
          = Some (collect_totals
                    (SaveOrder (fun n : NodeID => if n =? 11 then "node11" else "node") 100 []
                       (mkOrder (mkPayerAllocation "serial-1" 5 GET 2000) 11 4096)).1 0 200))
    as Htotals by reflexivity.
  exact (SaveOrder_credits_total
           (fun n : NodeID => if n =? 11 then "node11" else "node") 100 0 200 []
           (mkOrder (mkPayerAllocation "serial-1" 5 GET 2000) 11 4096) _ eq_refl Hwindow
           Htotals).
Defined.

End BandwidthMoreProofs.

(** ** More on the repair queue *)

Module RepairQueueMoreProofs.
Import RepairQueue RepairQueueMore RepairQueueProofs.

Section Queue.

Context `{Codec}.

Implicit Types (q : Queue) (seg : InjuredSegment) (segs : list InjuredSegment).

Lemma delete_by_info_head (r : Row) (rest : list Row) :
  delete_by_info (r :: rest) (info r) = delete_by_info rest (info r).
Proof. unfold delete_by_info. simpl. by rewrite bool_decide_eq_true_2. Qed.

(** The ways [Dequeue] ends.  An error leaves the queue as it was; the
    queue is reported empty exactly when it has no row; and the first row
    is always among the deleted ones, so the error for a delete that
    deleted nothing never arises.  A segment handed out is that of the
    first row, and the queue loses this row and those with the same
    encoding, and nothing else. *)
Theorem Dequeue_outcomes q :
  match Dequeue q with
  | (q', inr e) =>
      q' = q /\ e <> ErrNotDeleted /\ (e = ErrEmptyQueue <-> rows q = [])
  | (q', inl seg) =>
      exists r rest,
        rows q = r :: rest
        /\ Unmarshal (info r) = Some seg
        /\ rows q' = delete_by_info rest (info r)
        /\ next_id q' = next_id q
        /\ (length (rows q') < length (rows q))%nat
  end.
Proof.
  unfold Dequeue. destruct (rows q) as [|r rest] eqn:Hrows; [done|].
  rewrite delete_by_info_head.
  pose proof (delete_by_info_length rest (info r)) as Hlen.
  rewrite bool_decide_eq_false_2 by (simpl; lia).
  destruct (Unmarshal (info r)) as [seg|] eqn:Hseg.
  - exists r, rest. simpl. repeat split; try done. lia.
  - repeat split; done.
Qed.

(** *** Draining a queue *)

Lemma Marshal_inj seg seg' : Marshal seg = Marshal seg' -> seg = seg'.
Proof.
  intros Heq. pose proof (Unmarshal_Marshal seg) as Hseg.
  rewrite Heq, Unmarshal_Marshal in Hseg. congruence.
Qed.

Lemma filter_Marshal seg segs :
  List.filter (fun j => negb (bool_decide (j = Marshal seg))) (Marshal <$> segs)
  = Marshal <$> List.filter (fun s => negb (bool_decide (s = seg))) segs.
Proof.
  induction segs as [|s segs IH]; [done|]. rewrite fmap_cons. cbn [List.filter].
  destruct (decide (s = seg)) as [->|Hne].
  - by rewrite !bool_decide_eq_true_2.
  - rewrite !bool_decide_eq_false_2 by (done || by intros ?%Marshal_inj).
    simpl. by rewrite IH.
Qed.

Lemma first_occurrences_seen seen seen' segs :
  (forall seg, seg ∈ seen <-> seg ∈ seen') ->
  first_occurrences seen segs = first_occurrences seen' segs.
Proof.
  revert seen seen'. induction segs as [|s segs IH]; intros seen seen' Hsame; [done|]. simpl.
  rewrite (bool_decide_ext _ _ (Hsame s)). destruct (bool_decide (s ∈ seen')); [by apply IH|].
  f_equal. apply IH. intros seg. rewrite !elem_of_cons, Hsame. done.
Qed.

Lemma first_occurrences_filter seen seg segs :
  first_occurrences seen (List.filter (fun s => negb (bool_decide (s = seg))) segs)
  = first_occurrences (seg :: seen) segs.
Proof.
  revert seen. induction segs as [|s segs IH]; intros seen; [done|]. cbn [List.filter].
  destruct (decide (s = seg)) as [->|Hne].
  - rewrite bool_decide_eq_true_2 by done. simpl.
    rewrite bool_decide_eq_true_2 by (apply elem_of_cons; by left). apply IH.
  - rewrite bool_decide_eq_false_2 by done. simpl.
    rewrite (bool_decide_ext (s ∈ seg :: seen) (s ∈ seen))
      by (rewrite elem_of_cons; tauto).
    destruct (bool_decide (s ∈ seen)); [apply IH|].
    f_equal. rewrite IH. apply first_occurrences_seen.
    intros x. rewrite !elem_of_cons. tauto.
Qed.

Lemma filter_filter_served seg out segs :
  List.filter (fun s => bool_decide (s ∉ out)) (List.filter (fun s => negb (bool_decide (s = seg))) segs)
  = List.filter (fun s => bool_decide (s ∉ seg :: out)) segs.
Proof.
  induction segs as [|s segs IH]; [done|]. cbn [List.filter].
  destruct (decide (s = seg)) as [->|Hne].
  - rewrite bool_decide_eq_true_2 by done. simpl.
    rewrite (bool_decide_eq_false_2 (seg ∉ seg :: out))
      by (intros Hn; apply Hn, elem_of_cons; by left).
    exact IH.
  - rewrite bool_decide_eq_false_2 by done. simpl.
    rewrite (bool_decide_ext (s ∉ seg :: out) (s ∉ out))
      by (rewrite not_elem_of_cons; tauto).
    destruct (bool_decide (s ∉ out)); by rewrite IH.
Qed.

(** [n] calls of [Dequeue] on a queue whose rows encode the segments
    [segs]. *)
Lemma drain_rows n q segs :
  info <$> rows q = Marshal <$> segs ->
  let served := take n (first_occurrences [] segs) in
  exists q',
    drain n q =
      (q', served,
       if bool_decide (length (first_occurrences [] segs) < n)%nat then Some ErrEmptyQueue else None)
    /\ info <$> rows q' = Marshal <$> List.filter (fun s => bool_decide (s ∉ served)) segs
    /\ next_id q' = next_id q.
Proof.
  revert q segs. induction n as [|n IH]; intros q segs Hrows; cbv zeta.
  - exists q. cbn [drain take]. split; [done|]. split; [|done]. rewrite Hrows. f_equal.
    clear. induction segs as [|s segs IH]; [done|]. cbn [List.filter].
    rewrite bool_decide_eq_true_2 by apply not_elem_of_nil. by f_equal.
  - destruct segs as [|seg segs].
    + apply fmap_nil_inv in Hrows. exists q. cbn [drain]. unfold Dequeue. rewrite Hrows.
      simpl. done.
    + destruct (rows q) as [|r rest] eqn:Hq; [done|].
      rewrite !fmap_cons in Hrows. injection Hrows as Hr Hrest.
      cbn [drain].
      rewrite (Dequeue_first q r rest seg Hq) by (rewrite Hr; apply Unmarshal_Marshal).
      destruct (IH (mkQueue (delete_by_info rest (info r)) (next_id q))
                  (List.filter (fun s => negb (bool_decide (s = seg))) segs))
        as (q' & Hdrain & Hleft & Hnext).
      { simpl. by rewrite delete_by_info_infos, Hr, Hrest, filter_Marshal. }
      cbv zeta in Hdrain, Hleft. rewrite first_occurrences_filter in Hdrain, Hleft.
      exists q'. rewrite Hdrain.
      cbn [first_occurrences].
      rewrite (bool_decide_eq_false_2 (seg ∈ [])) by apply not_elem_of_nil.
      cbn [take length]. split; [|split; [|exact Hnext]].
      * f_equal.
        by rewrite (bool_decide_ext (S (length (first_occurrences [seg] segs)) < S n)%nat
                      (length (first_occurrences [seg] segs) < n)%nat) by lia.
      * rewrite Hleft, filter_filter_served. cbn [List.filter].
        rewrite bool_decide_eq_false_2; [done|].
        intros Hn. apply Hn, elem_of_cons. by left.
Qed.

(** Draining the queue after a run of [Enqueue] on the empty queue.  The
    calls of [Dequeue] hand out the segments in the order of their first
    arrival, each once however often it was enqueued; the queue keeps the
    rows of the segments not yet handed out; and the call after the last
    segment finds the queue empty. *)
Theorem drain_serves_first_arrivals n segs :
  let served := take n (first_occurrences [] segs) in
  exists q',
    drain n (enqueue_all empty_queue segs) =
      (q', served,
       if bool_decide (length (first_occurrences [] segs) < n)%nat then Some ErrEmptyQueue else None)
    /\ info <$> rows q' = Marshal <$> List.filter (fun s => bool_decide (s ∉ served)) segs.
Proof.
  destruct (drain_rows n (enqueue_all empty_queue segs) segs) as (q' & Hdrain & Hleft & _).
  - by rewrite rows_enqueue_all.
  - by exists q'.
Qed.

(** *** Peeking *)

Variable LookupLimit : Z.

Lemma unmarshal_all_Marshal (entries : list Row) segs (segments : list InjuredSegment) :
  info <$> entries = Marshal <$> segs ->
  unmarshal_all entries segments = inl (segments ++ segs).
Proof.
  revert segs segments. induction entries as [|entry entries IH]; intros segs segments Hinfos.
  - symmetry in Hinfos. apply fmap_nil_inv in Hinfos. subst. simpl. by rewrite app_nil_r.
  - destruct segs as [|seg segs]; [done|]. rewrite !fmap_cons in Hinfos.
    injection Hinfos as Hentry Hrest. simpl. rewrite Hentry, Unmarshal_Marshal.
    rewrite (IH segs) by done. by rewrite <- app_assoc.
Qed.

(** [Peekqueue] after a run of [Enqueue] on the empty queue returns the
    segments that came first, in their order and with their repetitions:
    [limit] of them when [limit] lies between 1 and [storage.LookupLimit],
    and [storage.LookupLimit] of them otherwise, or all when there are
    fewer.  It never returns more than [storage.LookupLimit]. *)
Theorem Peekqueue_first_segments segs limit :
  0 < LookupLimit ->
  let wanted := if bool_decide (1 <= limit <= LookupLimit) then limit else LookupLimit in
  Peekqueue LookupLimit (enqueue_all empty_queue segs) limit = inl (take (Z.to_nat wanted) segs)
  /\ Z.of_nat (length (take (Z.to_nat wanted) segs)) <= LookupLimit.
Proof.
  intros Hlimit wanted. unfold Peekqueue.
  assert ((if (limit <=? 0) || (limit >? LookupLimit) then LookupLimit else limit) = wanted) as ->.
  { unfold wanted. rewrite Z.gtb_ltb. case_bool_decide as Hin.
    - rewrite (proj2 (Z.leb_gt _ _)), (proj2 (Z.ltb_ge _ _)) by lia. done.
    - destruct (limit <=? 0) eqn:H0; [done|]. apply Z.leb_gt in H0.
      rewrite (proj2 (Z.ltb_lt _ _)) by lia. done. }
  split.
  - rewrite (unmarshal_all_Marshal _ (take (Z.to_nat wanted) segs)); [done|].
    by rewrite !fmap_take, rows_enqueue_all.
  - rewrite length_take. unfold wanted. case_bool_decide; lia.
Qed.

End Queue.


(** Two of three segments, with the limit of the storage package. *)
Lemma Peekqueue_first_segments_witness :
  let a := mkInjuredSegment "a" [1] in
  let b := mkInjuredSegment "b" [1; 2; 3] in
  Peekqueue (H:=plain_codec) 1000 (enqueue_all empty_queue [a; b; a]) 2 = inl [a; b]
  /\ Z.of_nat (length [a; b]) <= 1000.
Proof.
  exact (Peekqueue_first_segments (H:=plain_codec) 1000
           [mkInjuredSegment "a" [1]; mkInjuredSegment "b" [1; 2; 3]; mkInjuredSegment "a" [1]]
           2 eq_refl).
Defined.

End RepairQueueMoreProofs.
